(** * Excel validation dashboard: the validation engine of [app.py]

    A shallow embedding of the value coercions ([is_empty], [to_int],
    [to_float], [parse_and_format_date]), of [append_message] and of the
    four validation profiles ([validate_final_value_only],
    [validate_mandatory_only], [validate_dates_only], [validate_all]),
    followed by the properties of the specification.

    Conventions.
    - A Python [str] is a [string]; each character is a code point below
      256 (Latin-1), which covers every literal of the program.
    - Python exceptions are values of [exn]; a computation that may raise
      has type [py A].
    - A cell holds what [pd.read_excel(..., dtype=str)] delivers ([str]
      or the float NaN), or [None].
    - A DataFrame is an object on a heap; [df.copy()] allocates, and
      [df.at[idx, col] = v] writes to the object a name is bound to. *)

From Stdlib Require Import ZArith Ascii SpecFloat.
From stdpp Require Import gmap strings list fin_maps pretty.

Local Open Scope Z_scope.

(* set_solver clears hypotheses that are not always there. *)
Local Set Warnings "-clear-no-such-hyp".

(** ** Exceptions *)

Inductive exn :=
  | ValueError
  | OverflowError
  | KeyError
  | LibraryError (code : nat).

Inductive py (A : Type) :=
  | Ok (a : A)
  | Raise (e : exn).
Arguments Ok {A} a.
Arguments Raise {A} e.

#[export] Instance py_ret : MRet py := @Ok.
#[export] Instance py_bind : MBind py := λ A B f m,
  match m with
  | Ok a => f a
  | Raise e => Raise e
  end.

#[export] Instance py_fmap : FMap py := λ A B f m,
  match m with
  | Ok a => Ok (f a)
  | Raise e => Raise e
  end.

(** [try: body except Exception: handler] *)
Definition try_except {A} (body : py A) (handler : py A) : py A :=
  match body with
  | Ok a => Ok a
  | Raise _ => handler
  end.

(** ** Python strings *)

Module Str.

Definition ord (c : ascii) : Z := Z.of_N (N_of_ascii c).

(** [str.isspace] on one character: the Unicode white space below 256. *)
Definition isspace (c : ascii) : bool :=
  let n := ord c in
  ((9 <=? n) && (n <=? 13)) || ((28 <=? n) && (n <=? 32))
  || (n =? 133) || (n =? 160).

Definition isdigit (c : ascii) : bool :=
  let n := ord c in (48 <=? n) && (n <=? 57).

Definition lower_char (c : ascii) : ascii :=
  let n := ord c in
  if ((65 <=? n) && (n <=? 90))
     || ((192 <=? n) && (n <=? 222) && negb (n =? 215))
  then ascii_of_N (Z.to_N (n + 32))
  else c.

Fixpoint lower (s : string) : string :=
  match s with
  | EmptyString => EmptyString
  | String c s' => String (lower_char c) (lower s')
  end.

Fixpoint lstrip (s : string) : string :=
  match s with
  | EmptyString => EmptyString
  | String c s' => if isspace c then lstrip s' else s
  end.

Fixpoint rstrip (s : string) : string :=
  match s with
  | EmptyString => EmptyString
  | String c s' =>
      match rstrip s' with
      | EmptyString => if isspace c then EmptyString else String c EmptyString
      | r => String c r
      end
  end.

(** [s.strip()] *)
Definition strip (s : string) : string := rstrip (lstrip s).

Definition eqb (s t : string) : bool := bool_decide (s = t).

(** [s.endswith(suffix)] *)
Definition endswith (s suffix : string) : bool :=
  let n := String.length s in
  let m := String.length suffix in
  (m <=? n)%nat && eqb (String.substring (n - m) m s) suffix.

(** [s[:-k]] *)
Definition drop_last (k : nat) (s : string) : string :=
  String.substring 0 (String.length s - k) s.

(** [sub in s] *)
Fixpoint contains (sub s : string) : bool :=
  String.prefix sub s ||
  match s with
  | EmptyString => false
  | String _ s' => contains sub s'
  end.

(** Truth value of a string: [if s]. *)
Definition truthy (s : string) : bool := negb (eqb s "").

End Str.

(** ** Python numbers: [int(str)], [float(str)], [int(float)] *)

Module Num.

(** The white space [int] and [float] skip at the two ends of their
    argument: the ASCII white space, and U+0085 and U+00A0, which they
    read as a space. U+001C to U+001F are white space for [str.strip]
    only: [int] raises on a numeral followed by one of them. *)
Definition isspace (c : ascii) : bool :=
  let n := Str.ord c in
  ((9 <=? n) && (n <=? 13)) || (n =? 32) || (n =? 133) || (n =? 160).

Fixpoint lstrip (s : string) : string :=
  match s with
  | EmptyString => EmptyString
  | String c s' => if isspace c then lstrip s' else s
  end.

Fixpoint rstrip (s : string) : string :=
  match s with
  | EmptyString => EmptyString
  | String c s' =>
      match rstrip s' with
      | EmptyString => if isspace c then EmptyString else String c EmptyString
      | r => String c r
      end
  end.

Definition strip (s : string) : string := rstrip (lstrip s).

Definition digit_value (c : ascii) : Z := Str.ord c - 48.

(** The digits of a [digitpart ::= digit (["_"] digit)*], or [None]
    when the whole string is not one. *)
Fixpoint digitpart_from (after_digit : bool) (s : string) : option (list Z) :=
  match s with
  | EmptyString => if after_digit then Some [] else None
  | String c s' =>
      if Str.isdigit c then cons (digit_value c) <$> digitpart_from true s'
      else if bool_decide (c = "_"%char) && after_digit then digitpart_from false s'
      else None
  end.

Definition digitpart : string → option (list Z) := digitpart_from false.

Definition decimal (ds : list Z) : Z := fold_left (λ a d, 10 * a + d) ds 0.

(** An optional sign in front of the rest. *)
Definition split_sign (s : string) : bool * string :=
  match s with
  | String "-" r => (true, r)
  | String "+" r => (false, r)
  | _ => (false, s)
  end.

Definition signed (neg : bool) (n : Z) : Z := if neg then - n else n.

(** [sys.int_info.default_max_str_digits] *)
Definition int_max_str_digits : nat := 4300.

(** [int(s)] for a string [s], base 10. *)
Definition int_of_str (s : string) : py Z :=
  let '(neg, body) := split_sign (strip s) in
  match digitpart body with
  | Some ds =>
      if (int_max_str_digits <? length ds)%nat then Raise ValueError
      else Ok (signed neg (decimal ds))
  | None => Raise ValueError
  end.

(** Python floats are IEEE binary64. *)
Definition prec : Z := 53.
Definition emax : Z := 1024.

(** Cut a string at the first character that satisfies [p]. *)
Fixpoint cut (p : ascii → bool) (s : string) : string * option string :=
  match s with
  | EmptyString => (EmptyString, None)
  | String c s' =>
      if p c then (EmptyString, Some s')
      else let '(a, b) := cut p s' in (String c a, b)
  end.

Definition opt_digitpart (s : string) : option (list Z) :=
  if Str.eqb s "" then Some [] else digitpart s.

(** The double nearest to [(-1)^neg * m * 10^e] (ties to even). *)
Definition round_decimal (neg : bool) (m e : Z) : spec_float :=
  match m with
  | Z.pos p =>
      if 0 <=? e then binary_normalize prec emax (signed neg (m * 10 ^ e)) 0 neg
      else SFdiv prec emax (S754_finite neg p 0)
                           (S754_finite false (Z.to_pos (10 ^ (- e))) 0)
  | _ => S754_zero neg
  end.

(** [float(s)] for a string [s]. *)
Definition float_of_str (s : string) : py spec_float :=
  let '(neg, body) := split_sign (strip s) in
  let name := Str.lower body in
  if Str.eqb name "inf" || Str.eqb name "infinity" then Ok (S754_infinity neg)
  else if Str.eqb name "nan" then Ok S754_nan
  else
    let '(mant, expo) := cut (λ c, Str.eqb (String (Str.lower_char c) "") "e") body in
    let '(ipart, fpart) := cut (λ c, bool_decide (c = "."%char)) mant in
    let digits :=
      di ← opt_digitpart ipart;
      df ← opt_digitpart (default "" fpart);
      if bool_decide (di ++ df = []) then None else Some (di, df) in
    let exponent :=
      match expo with
      | None => Some 0
      | Some e => let '(eneg, ebody) := split_sign e in
                  signed eneg ∘ decimal <$> digitpart ebody
      end in
    match digits, exponent with
    | Some (di, df), Some e =>
        Ok (round_decimal neg (decimal (di ++ df)) (e - Z.of_nat (length df)))
    | _, _ => Raise ValueError
    end.

(** [int(x)] for a float [x]: truncation towards zero. *)
Definition int_of_float (x : spec_float) : py Z :=
  match x with
  | S754_nan => Raise ValueError
  | S754_infinity _ => Raise OverflowError
  | S754_zero _ => Ok 0
  | S754_finite neg m e => Ok (signed neg (Z.shiftl (Z.pos m) e))
  end.

(** [x < 0] *)
Definition float_ltb0 (x : spec_float) : bool := SFltb x (S754_zero false).

End Num.

(** ** Cell values and the pandas date parser *)

Inductive value :=
  | VNone               (* None *)
  | VNaN                (* float('nan'), the missing cell of read_excel *)
  | VStr (s : string).

(** [str(value)] *)
Definition str (v : value) : string :=
  match v with
  | VNone => "None"
  | VNaN => "nan"
  | VStr s => s
  end.

Definition is_None (v : value) : bool :=
  match v with VNone => true | _ => false end.

(** [isinstance(value, float)] *)
Definition isinstance_float (v : value) : bool :=
  match v with VNaN => true | _ => false end.

(** [pd.isna] on a float *)
Definition pd_isna (v : value) : bool :=
  match v with VNaN => true | _ => false end.

(** The two pandas calls of [parse_and_format_date]. Their code is not
    part of the program: the development is parametric in them. *)
Class Pandas := {
  Timestamp : Type;
  (** [pd.to_datetime(s, dayfirst=True, errors="raise")] *)
  to_datetime : string → py Timestamp;
  (** [dt.strftime("%d-%m-%Y")] *)
  strftime : Timestamp → py string;
}.

(** ** Configuration *)

Definition EXPECTED_COLUMNS : list string :=
  [ "macroid"; "asset_type"; "asset_name"; "final_value"; "asset_usage_id";
    "value_base"; "inspection_date"; "production_capacity";
    "production_capacity_measuring_unit"; "owner_name"; "product_type";
    "market_approach"; "market_approach_value"; "cost_approach";
    "cost_approach_value"; "country"; "region"; "city" ].

Definition MANDATORY_FIELDS : list string :=
  [ "asset_type"; "asset_name"; "asset_usage_id"; "value_base";
    "inspection_date"; "final_value"; "production_capacity";
    "production_capacity_measuring_unit"; "owner_name"; "product_type";
    "market_approach"; "market_approach_value"; "country"; "region"; "city" ].

Definition ASSET_USAGE_MIN : Z := 38.
Definition ASSET_USAGE_MAX : Z := 56.
Definition VALUE_BASE_MIN : Z := 1.
Definition VALUE_BASE_MAX : Z := 9.
Definition MARKET_APPROACH_ALLOWED : gset Z := {[ 0; 1; 2 ]}.

Inductive PatternFill := FILL_RED | FILL_YELLOW | FILL_ORANGE.

(** ** Utility functions *)

Definition is_empty (value : value) : bool :=
  if is_None value then true
  else if isinstance_float value && pd_isna value then true
  else
    let s := Str.strip (str value) in
    if Str.eqb s "" then true
    else if Str.eqb (Str.lower s) "n/a" then false
    else if Str.eqb s "0" then false
    else if Str.truthy s then false else true.

Definition to_int (value : value) : py (bool * option Z) :=
  if is_empty value then Ok (false, None)
  else
    try_except
      (let s := Str.strip (str value) in
       let s := if Str.endswith (Str.lower s) ".0" then Str.drop_last 2 s else s in
       if Str.contains "." s then Ok (false, None)
       else n ← Num.int_of_str s; Ok (true, Some n))
      (Ok (false, None)).

Definition to_float (value : value) : py (bool * option spec_float) :=
  if is_empty value then Ok (false, None)
  else
    try_except
      (x ← Num.float_of_str (Str.strip (str value)); Ok (true, Some x))
      (Ok (false, None)).

Definition parse_and_format_date {pandas : Pandas} (value : value) : py (bool * option string) :=
  if is_empty value then Ok (false, None)
  else
    let s := Str.strip (str value) in
    try_except
      (dt ← to_datetime s;
       formatted ← strftime dt;
       Ok (true, Some formatted))
      (Ok (false, None)).

Definition append_message (existing : value) (new_msg : string) : string :=
  let s := Str.strip (str existing) in
  if negb (Str.truthy s) || Str.eqb (Str.lower s) "nan" then new_msg
  else s +:+ " | " +:+ new_msg.

(** ** State and exceptions *)

(** A computation over a store [S] that may raise; the store survives an
    exception, as the mutations of a Python object do. *)
Definition StE (S A : Type) : Type := S → py A * S.

#[export] Instance StE_ret {S} : MRet (StE S) := λ A a s, (Ok a, s).
#[export] Instance StE_bind {S} : MBind (StE S) := λ A B f m s,
  match m s with
  | (Ok a, s') => f a s'
  | (Raise e, s') => (Raise e, s')
  end.

Definition lift {S A} (m : py A) : StE S A := λ s, (m, s).
Definition gets {S A} (f : S → A) : StE S A := λ s, (Ok (f s), s).
Definition modify {S} (f : S → S) : StE S unit := λ s, (Ok tt, f s).

(** The outcome of a [try] block, handed to its [except] clause. *)
Definition attempt {S A} (m : StE S A) : StE S (py A) :=
  λ s, let '(r, s') := m s in (Ok r, s').

(** [for x in l: acc = body x acc] *)
Fixpoint for_each {S A B} (l : list A) (body : A → B → StE S B) (acc : B) : StE S B :=
  match l with
  | [] => mret acc
  | x :: l' => acc' ← body x acc; for_each l' body acc'
  end.

(** ** DataFrames *)

(** A frame with a [RangeIndex]: the row label is the row position. A
    cell that a row does not store reads as NaN. *)
Record DataFrame := {
  columns : list string;
  rows : list (gmap string value);
}.

Definition cell (r : gmap string value) (col : string) : value :=
  default VNaN (r !! col).

(** [col in df.columns] *)
Definition frame_has (t : DataFrame) (col : string) : bool :=
  bool_decide (col ∈ columns t).

(** [df.at[idx, col]] *)
Definition frame_at (t : DataFrame) (idx : nat) (col : string) : py value :=
  if frame_has t col then
    match rows t !! idx with
    | Some r => Ok (cell r col)
    | None => Raise KeyError
    end
  else Raise KeyError.

(** [df[col].items()] *)
Definition frame_items (t : DataFrame) (col : string) : py (list (nat * value)) :=
  if frame_has t col then Ok (imap (λ idx r, (idx, cell r col)) (rows t))
  else Raise KeyError.

(** [df.at[idx, col] = v] at a cell of the frame. (pandas enlarges the
    frame when the cell does not exist; the validators write only to
    cells of a column they found in [df.columns], at a row of its items.) *)
Definition frame_set (t : DataFrame) (idx : nat) (col : string) (v : value) : DataFrame :=
  {| columns := columns t; rows := alter (<[col := v]>) idx (rows t) |}.

(** The locals of a validator: the frame its name [df] is bound to, and
    its [highlights] dict. *)
Record vstate := {
  st_df : DataFrame;
  st_hl : gmap (nat * string) PatternFill;
}.

Abbreviation V := (StE vstate).

Definition has_column (col : string) : V bool :=
  gets (λ st, frame_has (st_df st) col).
Definition df_at (idx : nat) (col : string) : V value :=
  λ st, (frame_at (st_df st) idx col, st).
Definition df_items (col : string) : V (list (nat * value)) :=
  λ st, (frame_items (st_df st) col, st).
Definition df_at_set (idx : nat) (col : string) (v : value) : V unit :=
  modify (λ st, {| st_df := frame_set (st_df st) idx col v; st_hl := st_hl st |}).
Definition set_highlight (idx : nat) (col : string) (fill : PatternFill) : V unit :=
  modify (λ st, {| st_df := st_df st; st_hl := <[(idx, col) := fill]> (st_hl st) |}).

(** The three statements every rule runs on an offending cell:
    [highlights[(idx, col)] = FILL_YELLOW] and
    [df.at[idx, col] = append_message(df.at[idx, col], msg)]. *)
Definition flag (idx : nat) (col msg : string) : V unit :=
  set_highlight idx col FILL_YELLOW;;
  existing ← df_at idx col;
  df_at_set idx col (VStr (append_message existing msg)).

(** ** The heap of frames *)

Abbreviation loc := nat.
Abbreviation heap := (list DataFrame).
Abbreviation H := (StE heap).

(** [df.copy()]: a new object with the same contents. *)
Definition df_copy (df : loc) : H loc :=
  λ h, match h !! df with
       | Some t => (Ok (length h), h ++ [t])
       | None => (Raise KeyError, h)
       end.

(** Run the statements of a validator that use the frame object [df]
    and the dict [highlights], and return the value and the dict. *)
Definition on_frame {A : Type} (df : loc) (highlights : gmap (nat * string) PatternFill)
    (body : V A) : H (A * gmap (nat * string) PatternFill) :=
  λ h, match h !! df with
       | Some t =>
           let '(r, st) := body {| st_df := t; st_hl := highlights |} in
           (a ← r; Ok (a, st_hl st), <[df := st_df st]> h)
       | None => (Raise KeyError, h)
       end.

(** ** Validation functions *)

(** [check_missing_columns] *)
Definition check_missing_columns (t : DataFrame) : list string :=
  filter (λ c, c ∉ columns t) EXPECTED_COLUMNS.

(** The profiles of the orchestrator. *)
Inductive profile := final_value_only | mandatory_only | dates_only | all.

Section validators.
Context {pandas : Pandas}.

(** *** [validate_final_value_only], after [df = df.copy()] *)

Definition final_value_message (val : value) : py (option string) :=
  if is_empty val then Ok (Some "final_value is mandatory and cannot be empty")
  else
    '(ok, _intval) ← to_int val;
    if negb ok then Ok (Some "Final value must be a non-decimal integer")
    else Ok None.

Definition final_value_row (row : nat * value) (issues : nat) : V nat :=
  let '(idx, val) := row in
  message ← lift (final_value_message val);
  match message with
  | Some msg =>
      if Str.truthy msg then flag idx "final_value" msg;; mret (S issues)
      else mret issues
  | None => mret issues
  end.

Definition final_value_rule : V (list string) :=
  present ← has_column "final_value";
  issues ← (if present : bool then
              items ← df_items "final_value";
              for_each items final_value_row 0%nat
            else mret 0%nat) : V nat;
  mret ["Final Value issues: " +:+ pretty issues].

(** *** [validate_mandatory_only], after [df = df.copy()] *)

(** [df.at[idx, "market_approach"] if "market_approach" in df.columns else ""] *)
Definition read_approach_raw (idx : nat) : V value :=
  present ← has_column "market_approach";
  if present : bool then df_at idx "market_approach" else mret (VStr "").

(** [int(float(str(approach_raw).strip()))] *)
Definition approach_number (approach_raw : value) : py Z :=
  x ← Num.float_of_str (Str.strip (str approach_raw));
  Num.int_of_float x.

(** The [try/except] of the mandatory rule; [approach_raw] is the
    outcome of the read, which the [try] block covers. *)
Definition approach_mandatory (approach_raw : py value) : option Z :=
  match
    try_except
      (approach_raw ← approach_raw;
       approach ← (if is_empty approach_raw then Ok 0
                   else approach_number approach_raw);
       Ok (Some approach))
      (Ok None)
  with
  | Ok approach => approach
  | Raise _ => None
  end.

Definition mandatory_row (col : string) (row : nat * value) (missing_count : nat) : V nat :=
  let '(idx, val) := row in
  if is_empty val then
    if Str.eqb col "market_approach" then mret missing_count
    else
      exempt ← (if Str.eqb col "market_approach_value" then
                  approach_raw ← attempt (read_approach_raw idx);
                  match approach_mandatory approach_raw with
                  | Some 0 | None => mret true
                  | Some _ => mret false
                  end
                else mret false) : V bool;
      if exempt : bool then mret missing_count
      else
        flag idx col "This mandatory field is empty";;
        mret (S missing_count)
  else mret missing_count.

Definition mandatory_column (col : string) (missing_count : nat) : V nat :=
  present ← has_column col;
  if negb present then mret missing_count
  else
    items ← df_items col;
    for_each items (mandatory_row col) missing_count.

Definition mandatory_rule : V (list string) :=
  missing_count ← for_each MANDATORY_FIELDS mandatory_column 0%nat;
  mret ["Missing mandatory values: " +:+ pretty missing_count].

(** *** [validate_dates_only], after [df = df.copy()] *)

Definition date_message : string := "Date must be in dd-mm-YYYY format".

(** The accumulator is [(invalid_count, auto_fixed)]. *)
Definition dates_row (row : nat * value) (counts : nat * nat) : V (nat * nat) :=
  let '(idx, val) := row in
  let '(invalid_count, auto_fixed) := counts in
  if is_empty val then
    flag idx "inspection_date" date_message;;
    mret (S invalid_count, auto_fixed)
  else
    '(ok, formatted) ← lift (parse_and_format_date val);
    match formatted with
    | Some formatted =>
        if ok && Str.truthy formatted then
          df_at_set idx "inspection_date" (VStr formatted);;
          mret (invalid_count, S auto_fixed)
        else
          flag idx "inspection_date" date_message;;
          mret (S invalid_count, auto_fixed)
    | None =>
        flag idx "inspection_date" date_message;;
        mret (S invalid_count, auto_fixed)
    end.

Definition dates_rule : V (list string) :=
  present ← has_column "inspection_date";
  '(counts, summary) ←
    (if present : bool then
       items ← df_items "inspection_date";
       counts ← for_each items dates_row (0%nat, 0%nat);
       mret (counts, [])
     else mret ((0%nat, 0%nat), ["Column 'inspection_date' is missing"]))
    : V (nat * nat * list string);
  let '(invalid_count, auto_fixed) := counts in
  let summary := summary ++ ["Invalid dates: " +:+ pretty invalid_count] in
  mret (if bool_decide (auto_fixed ≠ 0%nat)
        then summary ++ ["Dates auto-formatted: " +:+ pretty auto_fixed]
        else summary).

(** *** [validate_all]: the additional numeric and range checks *)

(** [if col in df.columns: for idx, val in df[col].items(): ...] *)
Definition check_column (col : string) (body : nat * value → nat → V nat)
    (extra_issues : nat) : V nat :=
  present ← has_column col;
  if present : bool then
    items ← df_items col;
    for_each items body extra_issues
  else mret extra_issues.

Definition range_message (col : string) (lo hi : Z) : string :=
  col +:+ " must be in [" +:+ pretty lo +:+ "-" +:+ pretty hi +:+ "]".

(** [not ok or intval is None or not (lo <= intval <= hi)] *)
Definition out_of_range (lo hi : Z) (ok : bool) (intval : option Z) : bool :=
  negb ok ||
  match intval with
  | None => true
  | Some n => negb ((lo <=? n) && (n <=? hi))
  end.

Definition int_range_row (col : string) (lo hi : Z)
    (row : nat * value) (extra_issues : nat) : V nat :=
  let '(idx, val) := row in
  if is_empty val then mret extra_issues
  else
    '(ok, intval) ← lift (to_int val);
    if out_of_range lo hi ok intval then
      flag idx col (range_message col lo hi);;
      mret (S extra_issues)
    else mret extra_issues.

(** [not ok or fval is None or int(fval) not in MARKET_APPROACH_ALLOWED];
    [int(fval)] is evaluated, and may raise, only when the first two
    tests are false. *)
Definition approach_not_allowed (ok : bool) (fval : option spec_float) : py bool :=
  if negb ok then Ok true
  else
    match fval with
    | None => Ok true
    | Some x => n ← Num.int_of_float x; Ok (bool_decide (n ∉ MARKET_APPROACH_ALLOWED))
    end.

Definition market_approach_row (row : nat * value) (extra_issues : nat) : V nat :=
  let '(idx, val) := row in
  if is_empty val then mret extra_issues
  else
    '(ok, fval) ← lift (to_float val);
    bad ← lift (approach_not_allowed ok fval);
    if bad : bool then
      flag idx "market_approach" "market_approach must be 0, 1, or 2";;
      mret (S extra_issues)
    else mret extra_issues.

(** The approach code of the cross-field rule. *)
Definition approach_cross (approach_raw : value) : option Z :=
  let approach_empty := is_empty approach_raw in
  let approach := Some 0 in
  if negb approach_empty then
    match try_except (Some <$> approach_number approach_raw) (Ok None) with
    | Ok approach => approach
    | Raise _ => None
    end
  else approach.

Definition market_approach_value_row (row : nat * value) (extra_issues : nat) : V nat :=
  let '(idx, val) := row in
  approach_raw ← read_approach_raw idx;
  match approach_cross approach_raw with
  | Some 1 | Some 2 =>
      '(ok, fval) ← lift (to_float val);
      if negb ok || bool_decide (fval = None) then
        flag idx "market_approach_value" "Must be a number when approach is 1 or 2";;
        mret (S extra_issues)
      else mret extra_issues
  | _ => mret extra_issues
  end.

(** [not ok or fval is None or fval < 0] *)
Definition negative_or_invalid (ok : bool) (fval : option spec_float) : bool :=
  negb ok ||
  match fval with
  | None => true
  | Some x => Num.float_ltb0 x
  end.

Definition production_capacity_row (row : nat * value) (extra_issues : nat) : V nat :=
  let '(idx, val) := row in
  if is_empty val then mret extra_issues
  else
    '(ok, fval) ← lift (to_float val);
    if negative_or_invalid ok fval then
      flag idx "production_capacity" "Must be a non-negative number";;
      mret (S extra_issues)
    else mret extra_issues.

Definition range_rules : V nat :=
  extra_issues ←
    check_column "asset_usage_id"
      (int_range_row "asset_usage_id" ASSET_USAGE_MIN ASSET_USAGE_MAX) 0%nat;
  extra_issues ←
    check_column "value_base"
      (int_range_row "value_base" VALUE_BASE_MIN VALUE_BASE_MAX) extra_issues;
  extra_issues ← check_column "market_approach" market_approach_row extra_issues;
  extra_issues ←
    check_column "market_approach_value" market_approach_value_row extra_issues;
  check_column "production_capacity" production_capacity_row extra_issues.

(** ** The four profiles *)

Definition result : Type := loc * gmap (nat * string) PatternFill * list string.

Definition validate_final_value_only (df : loc) : H result :=
  df ← df_copy df;
  '(summary, highlights) ← on_frame df ∅ final_value_rule;
  mret (df, highlights, summary).

Definition validate_mandatory_only (df : loc) : H result :=
  df ← df_copy df;
  '(summary, highlights) ← on_frame df ∅ mandatory_rule;
  mret (df, highlights, summary).

Definition validate_dates_only (df : loc) : H result :=
  df ← df_copy df;
  '(summary, highlights) ← on_frame df ∅ dates_rule;
  mret (df, highlights, summary).

(** [highlights.update(other)] *)
Definition update (highlights other : gmap (nat * string) PatternFill) :=
  other ∪ highlights.

Definition validate_all (df : loc) : H result :=
  df ← df_copy df;
  let highlights := ∅ in
  let summary := [] in
  '(df, hl_mand, sum_mand) ← validate_mandatory_only df;
  let highlights := update highlights hl_mand in
  let summary := summary ++ sum_mand in
  '(df, hl_final, sum_final) ← validate_final_value_only df;
  let highlights := update highlights hl_final in
  let summary := summary ++ sum_final in
  '(df, hl_dates, sum_dates) ← validate_dates_only df;
  let highlights := update highlights hl_dates in
  let summary := summary ++ sum_dates in
  '(extra_issues, highlights) ← on_frame df highlights range_rules;
  let summary := summary ++ ["Additional rule violations: " +:+ pretty extra_issues] in
  mret (df, highlights, summary).

Definition validate (p : profile) : loc → H result :=
  match p with
  | final_value_only => validate_final_value_only
  | mandatory_only => validate_mandatory_only
  | dates_only => validate_dates_only
  | all => validate_all
  end.

(** A profile run by a caller that holds one frame: the annotated
    table, the highlights and the summary lines it gets back. *)
Definition run (p : profile) (t : DataFrame)
    : py (DataFrame * gmap (nat * string) PatternFill * list string) :=
  match validate p 0%nat [t] with
  | (Ok (df, highlights, summary), h) =>
      match h !! df with
      | Some out => Ok (out, highlights, summary)
      | None => Raise KeyError
      end
  | (Raise e, _) => Raise e
  end.

End validators.

(** ** A date parser to run the model on examples

    It reads the numeric forms DD-MM-YYYY, DD/MM/YYYY and YYYY-MM-DD of a
    calendar date with a year from 1678 to 2261, and raises on any other
    text. pandas reads these forms the same way, and many more; no
    theorem below depends on this instance except through the examples
    that name it. *)

Module ExampleDates.

Local Open Scope nat_scope.

Definition number (s : string) : option nat :=
  match Num.digitpart s with
  | Some ds =>
      if Str.contains "_" s then None else Some (Z.to_nat (Num.decimal ds))
  | None => None
  end.

Definition leap (y : nat) : bool :=
  ((y mod 4 =? 0) && negb (y mod 100 =? 0) || (y mod 400 =? 0))%nat.

Definition days_in_month (y m : nat) : nat :=
  match m with
  | 2 => if leap y then 29 else 28
  | 4 | 6 | 9 | 11 => 30
  | _ => 31
  end%nat.

Definition valid (y m d : nat) : bool :=
  ((1678 <=? y) && (y <=? 2261) && (1 <=? m) && (m <=? 12)
   && (1 <=? d) && (d <=? days_in_month y m))%nat.

Definition separator (s : string) : bool := Str.eqb s "-" || Str.eqb s "/".

Definition date : Type := nat * nat * nat.

Definition parse (s : string) : py date :=
  let field i n := number (String.substring i n s) in
  let day_first :=
    if (String.length s =? 10)%nat
       && separator (String.substring 2 1 s)
       && Str.eqb (String.substring 2 1 s) (String.substring 5 1 s)
    then d ← field 0 2; m ← field 3 2; y ← field 6 4; Some (y, m, d)
    else None in
  let iso :=
    if (String.length s =? 10)%nat
       && Str.eqb (String.substring 4 1 s) "-"
       && Str.eqb (String.substring 7 1 s) "-"
    then y ← field 0 4; m ← field 5 2; d ← field 8 2; Some (y, m, d)
    else None in
  match (match day_first with Some x => Some x | None => iso end) with
  | Some (y, m, d) => if valid y m d then Ok (y, m, d) else Raise ValueError
  | None => Raise ValueError
  end%nat.

Definition two (n : nat) : string :=
  if (n <? 10)%nat then "0" +:+ pretty n else pretty n.

Definition format (dt : date) : py string :=
  let '(y, m, d) := dt in
  Ok (two d +:+ "-" +:+ two m +:+ "-" +:+ pretty y).

Definition pandas : Pandas :=
  {| Timestamp := date; to_datetime := parse; strftime := format |}.

End ExampleDates.

(** * Vocabulary of the specification *)

(** [hoare P m Q E]: from a store that satisfies [P], the computation
    [m] ends, either with a value [a] in a store that satisfies [Q a],
    or with an exception [e] in a store that satisfies [E e]. With
    [E := never], [m] returns. *)
Definition hoare {S A} (P : S → Prop) (m : StE S A)
    (Q : A → S → Prop) (E : exn → S → Prop) : Prop :=
  ∀ s, P s →
    match m s with
    | (Ok a, s') => Q a s'
    | (Raise e, s') => E e s'
    end.

Definition never {S} : exn → S → Prop := λ _ _, False.

(** [touched C fixed st0 st]: going from [st0] to [st], the frame kept
    its columns and its number of rows, highlights were only added, a
    new highlight is on a cell of an existing column among [C], and a
    cell whose value changed is highlighted and in a column among [C],
    or is in a column among [fixed]; a new or changed highlight is
    [FILL_YELLOW]. *)
Record touched (C fixed : list string) (st0 st : vstate) : Prop := {
  touched_columns : columns (st_df st) = columns (st_df st0);
  touched_nrows : length (rows (st_df st)) = length (rows (st_df st0));
  touched_mono : ∀ k, k ∈ dom (st_hl st0) → k ∈ dom (st_hl st);
  touched_keys : ∀ i c, (i, c) ∈ dom (st_hl st) →
    (i, c) ∈ dom (st_hl st0) ∨
    (c ∈ C ∧ c ∈ columns (st_df st0) ∧ (i < length (rows (st_df st0)))%nat);
  touched_cells : ∀ i c,
    frame_at (st_df st) i c = frame_at (st_df st0) i c ∨
    ((i, c) ∈ dom (st_hl st) ∧ c ∈ C) ∨ c ∈ fixed;
  touched_fills : ∀ k fill,
    st_hl st !! k = Some fill → st_hl st0 !! k = Some fill ∨ fill = FILL_YELLOW;
}.

(** The columns each group of rules may flag. *)
Definition mandatory_flaggable : list string :=
  filter (λ c, c ≠ "market_approach") MANDATORY_FIELDS.

Definition range_columns : list string :=
  ["asset_usage_id"; "value_base"; "market_approach"; "market_approach_value";
   "production_capacity"].

(** A summary line [f"{label}: {count}"]. *)
Definition count_line (label : string) (line : string) : Prop :=
  ∃ n : nat, line = label +:+ ": " +:+ pretty n.

(** The summary lines of the date rule. *)
Definition dates_summary (present : bool) (summary : list string) : Prop :=
  ∃ (invalid_count auto_fixed : nat),
    summary =
      (if present then [] else ["Column 'inspection_date' is missing"])
      ++ ["Invalid dates: " +:+ pretty invalid_count]
      ++ (if bool_decide (auto_fixed ≠ 0%nat)
          then ["Dates auto-formatted: " +:+ pretty auto_fixed] else []).

(** A string of white space only (the empty string included). *)
Fixpoint whitespace_only (s : string) : bool :=
  match s with
  | EmptyString => true
  | String c s' => Str.isspace c && whitespace_only s'
  end.

(** Modelled on the words of the specification (section 4.1, toInteger):
    fail when empty; trim; strip a trailing ".0"; fail when a decimal
    point remains; otherwise parse an integer, failing on any other
    content. *)
Fixpoint without_dot_zero (s : string) : option string :=
  if Str.eqb s ".0" then Some ""
  else
    match s with
    | EmptyString => None
    | String c s' => String c <$> without_dot_zero s'
    end.

Fixpoint has_point (s : string) : bool :=
  match s with
  | EmptyString => false
  | String c s' => bool_decide (c = "."%char) || has_point s'
  end.

Definition toInteger (v : value) : bool * option Z :=
  if is_empty v then (false, None)
  else
    let trimmed := Str.strip (str v) in
    let body := default trimmed (without_dot_zero trimmed) in
    if has_point body then (false, None)
    else
      match Num.int_of_str body with
      | Ok n => (true, Some n)
      | Raise _ => (false, None)
      end.

(** The characters [int] accepts in a numeral. *)
Definition numeric_char (c : ascii) : bool :=
  Str.isdigit c || bool_decide (c = "_"%char) || bool_decide (c = "+"%char)
  || bool_decide (c = "-"%char) || Str.isspace c.

Fixpoint all_chars (p : ascii → bool) (s : string) : bool :=
  match s with
  | EmptyString => true
  | String c s' => p c && all_chars p s'
  end.

(** A [market_approach] cell on which [int(fval)] raises: it is not
    empty and reads as an infinite or NaN float. *)
Definition non_finite_approach (v : value) : bool :=
  negb (is_empty v) &&
  match Num.float_of_str (Str.strip (str v)) with
  | Ok x =>
      match Num.int_of_float x with
      | Ok _ => false
      | Raise _ => true
      end
  | Raise _ => false
  end.

Definition has_non_finite_approach (t : DataFrame) : Prop :=
  ∃ idx v, frame_at t idx "market_approach" = Ok v ∧ non_finite_approach v = true.

(** The text [toInteger] hands to the integer parser. *)
Definition integer_text (v : value) : string :=
  let trimmed := Str.strip (str v) in
  default trimmed (without_dot_zero trimmed).

(** The columns a profile may flag, and those it may rewrite. *)
Definition flaggable (p : profile) : list string :=
  match p with
  | final_value_only => ["final_value"]
  | mandatory_only => mandatory_flaggable
  | dates_only => ["inspection_date"]
  | all => mandatory_flaggable ++ ["final_value"] ++ ["inspection_date"] ++ range_columns
  end.

Definition rewritable (p : profile) : list string :=
  match p with
  | dates_only | all => ["inspection_date"]
  | _ => []
  end.

Definition summary_of (p : profile) (t : DataFrame) (summary : list string) : Prop :=
  match p with
  | final_value_only =>
      ∃ line, summary = [line] ∧ count_line "Final Value issues" line
  | mandatory_only =>
      ∃ line, summary = [line] ∧ count_line "Missing mandatory values" line
  | dates_only => dates_summary (frame_has t "inspection_date") summary
  | all =>
      ∃ mand final dates extra,
        summary = [mand] ++ [final] ++ dates ++ [extra] ∧
        count_line "Missing mandatory values" mand ∧
        count_line "Final Value issues" final ∧
        dates_summary (frame_has t "inspection_date") dates ∧
        count_line "Additional rule violations" extra
  end.

(** The store after [flag idx col msg] on a cell that holds [existing]. *)
Definition flagged (st : vstate) (idx : nat) (col : string)
    (existing : value) (msg : string) : vstate :=
  {| st_df := frame_set (st_df st) idx col (VStr (append_message existing msg));
     st_hl := <[(idx, col) := FILL_YELLOW]> (st_hl st) |}.

(** A cell after a rule that writes the message [w v], if any, on a
    cell that holds [v]. *)
Definition annotate (w : value → option string) (v : value) : value :=
  match w v with
  | Some msg => VStr (append_message v msg)
  | None => v
  end.

(** The message of the mandatory rule on a [final_value] cell, and that
    of the final value rule. *)
Definition mandatory_flag (v : value) : option string :=
  if is_empty v then Some "This mandatory field is empty" else None.

Definition final_value_flag (v : value) : option string :=
  match final_value_message v with
  | Ok (Some msg) => if Str.truthy msg then Some msg else None
  | _ => None
  end.

(** The [final_value] cell a profile returns for the cell [v]. *)
Definition final_value_after (p : profile) (v : value) : value :=
  match p with
  | final_value_only => annotate final_value_flag v
  | mandatory_only => annotate mandatory_flag v
  | dates_only => v
  | all => annotate final_value_flag (annotate mandatory_flag v)
  end.

(** A loop body that flags the cell of its row with the message [w val],
    and does nothing else. *)
Definition cellwise {B} (col : string) (w : value → option string)
    (body : nat * value → B → V B) : Prop :=
  ∀ idx val b st,
    frame_at (st_df st) idx col = Ok val →
    ∃ b', body (idx, val) b st =
            (Ok b', match w val with
                    | Some msg => flagged st idx col val msg
                    | None => st
                    end).

(** The mandatory columns checked before and after [final_value]. *)
Definition mandatory_before : list string :=
  ["asset_type"; "asset_name"; "asset_usage_id"; "value_base"; "inspection_date"].
Definition mandatory_after : list string :=
  ["production_capacity"; "production_capacity_measuring_unit"; "owner_name";
   "product_type"; "market_approach"; "market_approach_value"; "country";
   "region"; "city"].

(** What a profile hands back for the table [t]. *)
Record outcome (p : profile) (t out : DataFrame)
    (highlights : gmap (nat * string) PatternFill) (summary : list string) : Prop := {
  outcome_touched :
    touched (flaggable p) (rewritable p)
      {| st_df := t; st_hl := ∅ |} {| st_df := out; st_hl := highlights |};
  outcome_summary : summary_of p t summary;
  outcome_final_value : ∀ idx v,
    frame_at t idx "final_value" = Ok v →
    frame_at out idx "final_value" = Ok (final_value_after p v);
}.

(** The heap [h] extends [h0] by new objects, the last of which is the
    returned frame. *)
Definition allocated (h0 : heap)
    (Q : DataFrame → gmap (nat * string) PatternFill → list string → Prop)
    (r : result) (h : heap) : Prop :=
  ∃ others out,
    h = h0 ++ others ++ [out] ∧ r.1.1 = length (h0 ++ others) ∧ Q out r.1.2 r.2.

Definition extended (h0 : heap) : exn → heap → Prop :=
  λ _ h, ∃ new, h = h0 ++ new.

(** * Vocabulary of the results *)

(** What a rule does to the cell of a row: nothing, flag it with a
    message, or rewrite it. *)
Inductive effect :=
  | Keep
  | Flag (msg : string)
  | Rewrite (v : value).

Definition is_flag (e : effect) : bool :=
  match e with Flag _ => true | _ => false end.
Definition is_rewrite (e : effect) : bool :=
  match e with Rewrite _ => true | _ => false end.

(** The cell, and the store, after an effect on a cell that holds [existing]. *)
Definition cell_after (existing : value) (e : effect) : value :=
  match e with
  | Keep => existing
  | Flag msg => VStr (append_message existing msg)
  | Rewrite v => v
  end.

Definition apply_effect (st : vstate) (idx : nat) (col : string)
    (existing : value) (e : effect) : vstate :=
  match e with
  | Keep => st
  | Flag msg => flagged st idx col existing msg
  | Rewrite v => {| st_df := frame_set (st_df st) idx col v; st_hl := st_hl st |}
  end.

(** A loop body that decides on the value of its row alone: it applies
    the effect [w val] to the cell and counts it with [count]. *)
Definition same_elsewhere (col : string) (st0 st : vstate) : Prop :=
  columns (st_df st) = columns (st_df st0) ∧
  length (rows (st_df st)) = length (rows (st_df st0)) ∧
  ∀ i c, c ≠ col → frame_at (st_df st) i c = frame_at (st_df st0) i c.

Definition column_rule {B} (st0 : vstate) (col : string) (w : nat → value → effect)
    (count : effect → B → B) (body : nat * value → B → V B) : Prop :=
  ∀ idx val b st,
    same_elsewhere col st0 st →
    frame_at (st_df st) idx col = Ok val →
    body (idx, val) b st
      = (Ok (count (w idx val) b), apply_effect st idx col val (w idx val)).

(** The rows a rule flags, and those it rewrites. *)
Definition flags (w : nat → value → effect) (items : list (nat * value)) : nat :=
  length (filter (λ row, is_flag (w row.1 row.2) = true) items).
Definition rewrites (w : nat → value → effect) (items : list (nat * value)) : nat :=
  length (filter (λ row, is_rewrite (w row.1 row.2) = true) items).

(** What the final value rule, and the date rule, do on a cell. *)
Definition final_value_effect (v : value) : effect :=
  if is_empty v then Flag "final_value is mandatory and cannot be empty"
  else
    match to_int v with
    | Ok (true, _) => Keep
    | _ => Flag "Final value must be a non-decimal integer"
    end.

Definition dates_effect {pandas : Pandas} (v : value) : effect :=
  if is_empty v then Flag date_message
  else
    match parse_and_format_date v with
    | Ok (true, Some formatted) =>
        if Str.truthy formatted then Rewrite (VStr formatted) else Flag date_message
    | _ => Flag date_message
    end.

(** The counters of the loops. *)
Definition count_flag (e : effect) (n : nat) : nat :=
  if is_flag e then S n else n.

Definition count_date (e : effect) (counts : nat * nat) : nat * nat :=
  match e with
  | Keep => counts
  | Flag _ => (S counts.1, counts.2)
  | Rewrite _ => (counts.1, S counts.2)
  end.

(** A single-rule profile run by a caller that holds one frame. *)
Definition run_rule (rule : V (list string)) (t : DataFrame)
    : py (DataFrame * gmap (nat * string) PatternFill * list string) :=
  match rule {| st_df := t; st_hl := ∅ |} with
  | (Ok summary, st) => Ok (st_df st, st_hl st, summary)
  | (Raise e, _) => Raise e
  end.

(** [approach_raw] as the mandatory rule reads it in row [idx] of [t]. *)
Definition approach_raw_of (t : DataFrame) (idx : nat) : py value :=
  if frame_has t "market_approach" then frame_at t idx "market_approach"
  else Ok (VStr "").

(** The approach codes that exempt [market_approach_value]: 0, and a
    cell that does not read as a number. *)
Definition approach_exempts (t : DataFrame) (idx : nat) : bool :=
  match approach_mandatory (approach_raw_of t idx) with
  | Some 0 | None => true
  | Some _ => false
  end.

(** What the mandatory rule does on a cell of the column [col]. *)
Definition mandatory_effect (t : DataFrame) (col : string) (idx : nat) (v : value)
    : effect :=
  if is_empty v then
    if Str.eqb col "market_approach" then Keep
    else if Str.eqb col "market_approach_value" && approach_exempts t idx then Keep
    else Flag "This mandatory field is empty"
  else Keep.

(** The store after the mandatory rule went through the columns [done]
    of the table [t]. *)
Record mandatory_done (t : DataFrame) (done : list string) (n : nat) (st : vstate)
    : Prop := {
  done_columns : columns (st_df st) = columns t;
  done_nrows : length (rows (st_df st)) = length (rows t);
  done_cells : ∀ i c,
    frame_at (st_df st) i c =
      v ← frame_at t i c;
      Ok (if bool_decide (c ∈ done)
          then cell_after v (mandatory_effect t c i v) else v);
  done_highlights : ∀ i c,
    (i, c) ∈ dom (st_hl st) ↔
    c ∈ done ∧ ∃ v, frame_at t i c = Ok v ∧ is_flag (mandatory_effect t c i v) = true;
  done_count : n = size (st_hl st);
  done_bound : (n ≤ length done * length (rows t))%nat;
}.

(** [raises m]: from a store that satisfies the precondition, the
    computation ends with an exception. *)
Definition raises {S A} (P : S → Prop) (m : StE S A) : Prop :=
  hoare P m (λ _ _, False) (λ _ _, True).


(** A string that [strip] leaves as it is. *)
Definition stripped (s : string) : Prop := Str.strip s = s.


(** ** Styling export *)

(** The styles of the worksheet "Data": the fill of a cell and the cells
    aligned to the right, by Excel row and column (from 1). *)
Record Worksheet := {
  ws_fill : gmap (nat * nat) PatternFill;
  ws_right : gset (nat * nat);
}.

(** [{name: i + 1 for i, name in enumerate(headers)}]: of two headers
    with the same name the later one stays. *)
Definition col_index_by_name (headers : list string) : gmap string nat :=
  list_to_map (reverse (imap (λ i name, (name, S i)) headers)).

(** The body of the loop over [highlights.items()]. *)
Definition highlight_cell (index : gmap string nat) (ws : Worksheet)
    (item : nat * string * PatternFill) : Worksheet :=
  let '((row_idx_df, col_name), fill) := item in
  match index !! col_name with
  | None => ws
  | Some col_xl =>
      let row_xl := (row_idx_df + 2)%nat in
      {| ws_fill := <[(row_xl, col_xl) := fill]> (ws_fill ws);
         ws_right := {[ (row_xl, col_xl) ]} ∪ ws_right ws |}
  end.

(** [for cell in ws[1]: cell.alignment = right_align] *)
Definition align_headers (headers : list string) (ws : Worksheet) : Worksheet :=
  {| ws_fill := ws_fill ws;
     ws_right := list_to_set ((λ j, (1%nat, S j)) <$> seq 0 (length headers))
                 ∪ ws_right ws |}.

(** The styles [export_with_highlights] gives to the sheet that
    [df.to_excel(writer, index=False)] wrote: row 1 holds the column
    labels, so [headers] is [df.columns], and no cell has a style yet.
    [items] is [highlights.items()]. *)
Definition export_styles (t : DataFrame) (items : list (nat * string * PatternFill))
    : Worksheet :=
  let headers := columns t in
  let index := col_index_by_name headers in
  let ws := {| ws_fill := ∅; ws_right := ∅ |} in
  let ws := fold_left (highlight_cell index) items ws in
  align_headers headers ws.

(** The styles of the preview, one per column, for the row [row_name]
    ([highlight_excel] in [main]). *)
Definition highlighted_style : string :=
  "background-color: #FFDE21; color: #111; border: 1px solid #bdbdbd;".
Definition plain_style : string :=
  "background-color: #fff; color: #111; border: 1px solid #bdbdbd;".

Definition highlight_excel (out_df : DataFrame)
    (highlights : gmap (nat * string) PatternFill) (row_name : nat) : list string :=
  (λ col, if bool_decide ((row_name, col) ∈ dom highlights)
          then highlighted_style else plain_style) <$> columns out_df.


(** ** The dashboard *)

(** [s.split(sep)] for a separator of one character. *)
Fixpoint split_on (sep : ascii) (s : string) : list string :=
  match s with
  | EmptyString => [EmptyString]
  | String c s' =>
      if bool_decide (c = sep) then EmptyString :: split_on sep s'
      else
        match split_on sep s' with
        | piece :: rest => String c piece :: rest
        | [] => [String c EmptyString]
        end
  end.

(** The labels [main] counts. *)
Definition COUNTED_LABELS : list string :=
  ["Final Value issues"; "Missing mandatory values"; "Invalid dates";
   "Additional rule violations"].

(** [sum(int(s.split(":")[-1].strip()) for s in summary
         if ":" in s and s.split(":")[0] in [...])], from the left. *)
Fixpoint sum_issues (summary : list string) (acc : Z) : py Z :=
  match summary with
  | [] => Ok acc
  | s :: rest =>
      if Str.contains ":" s
         && bool_decide (default "" (head (split_on ":" s)) ∈ COUNTED_LABELS)
      then
        n ← Num.int_of_str (Str.strip (default "" (last (split_on ":" s))));
        sum_issues rest (acc + n)
      else sum_issues rest acc
  end.

Definition total_issues (summary : list string) : py Z := sum_issues summary 0.

(** A character occurs in a string; the value of a string of digits. *)
Fixpoint occurs (ch : ascii) (s : string) : bool :=
  match s with
  | EmptyString => false
  | String c s' => bool_decide (c = ch) || occurs ch s'
  end.

Fixpoint str_value (s : string) (a : Z) : Z :=
  match s with
  | EmptyString => a
  | String c s' => str_value s' (10 * a + Num.digit_value c)
  end.

(** [steps k b st r]: the result [r] of a counting loop that started
    with the count [b] in the store [st] flagged at most [k] cells; it
    left the highlights as they were if the count did not move, and
    some highlight otherwise. *)
Definition steps (k : nat) (b : nat) (st : vstate) (r : py nat * vstate) : Prop :=
  match r with
  | (Ok b', st') =>
      (b ≤ b' ≤ b + k)%nat ∧
      length (rows (st_df st')) = length (rows (st_df st)) ∧
      (b' = b → st_hl st' = st_hl st) ∧
      ((b < b')%nat → st_hl st' ≠ ∅) ∧
      (st_hl st' = ∅ → st_hl st = ∅)
  | (Raise _, _) => True
  end.

(** The result of [validate_all] on a table, without the heap: the
    three single-rule validators in a row, each on the table the one
    before returned and with a dict of its own, then the additional
    checks with the merged dict. *)
Definition all_result {pandas : Pandas} (t : DataFrame)
    : py (DataFrame * gmap (nat * string) PatternFill * list string) :=
  let '(r1, st1) := mandatory_rule {| st_df := t; st_hl := ∅ |} in
  sum_mand ← r1;
  let '(r2, st2) := final_value_rule {| st_df := st_df st1; st_hl := ∅ |} in
  sum_final ← r2;
  let '(r3, st3) := dates_rule {| st_df := st_df st2; st_hl := ∅ |} in
  sum_dates ← r3;
  let highlights := update (update (update ∅ (st_hl st1)) (st_hl st2)) (st_hl st3) in
  let '(r4, st) := range_rules {| st_df := st_df st3; st_hl := highlights |} in
  extra_issues ← r4;
  Ok (st_df st, st_hl st,
      ((([] ++ sum_mand) ++ sum_final) ++ sum_dates)
      ++ ["Additional rule violations: " +:+ pretty extra_issues]).

(** What a profile returns for a table, without the heap. *)
Definition profile_result {pandas : Pandas} (p : profile) (t : DataFrame)
    : py (DataFrame * gmap (nat * string) PatternFill * list string) :=
  match p with
  | final_value_only => run_rule final_value_rule t
  | mandatory_only => run_rule mandatory_rule t
  | dates_only => run_rule dates_rule t
  | all => all_result t
  end.

(** The frame a validator returned, read back by its caller. *)
Definition read_back (r : py result * heap)
    : py (DataFrame * gmap (nat * string) PatternFill * list string) :=
  match r with
  | (Ok (df, highlights, summary), h) =>
      match h !! df with
      | Some out => Ok (out, highlights, summary)
      | None => Raise KeyError
      end
  | (Raise e, _) => Raise e
  end.

(** The four check buttons of the page. *)
Record Buttons := {
  do_final : bool;
  do_mand : bool;
  do_date : bool;
  do_all : bool;
}.

(** The validator the [if]/[elif] chain of [main] runs. *)
Definition selected (buttons : Buttons) : option profile :=
  if do_final buttons then Some final_value_only
  else if do_mand buttons then Some mandatory_only
  else if do_date buttons then Some dates_only
  else if do_all buttons then Some all
  else None.

(** [sep.join(l)] *)
Definition join (sep : string) (l : list string) : string :=
  match l with
  | [] => ""
  | x :: l' => fold_left (λ a y, a +:+ sep +:+ y) l' x
  end.

(** What [main] puts on the page for an uploaded file. *)
Inductive Page :=
  | missing_columns_error (message : string)
  | choose_a_check
  | validation_results (summary : list string) (no_issues_found : bool)
      (out_df : DataFrame) (highlights : gmap (nat * string) PatternFill).

(** The frame a name is bound to. *)
Definition frame_of (df : loc) : H DataFrame :=
  λ h, match h !! df with
       | Some t => (Ok t, h)
       | None => (Raise KeyError, h)
       end.

(** [main], from the frame [df] that [pd.read_excel] returned to what
    goes to the page: the guard on the expected columns, the validator
    of the button that was pressed, run on a copy of [df], and the
    total of the counted summary lines. (The widgets, the markup and
    the "Sum Asset Values" button are left out; the export and the
    preview are [export_styles] and [highlight_excel].) *)
Definition main {pandas : Pandas} (buttons : Buttons) (df : loc) : H Page :=
  t ← frame_of df;
  let missing_cols := check_missing_columns t in
  if bool_decide (missing_cols ≠ []) then
    mret (missing_columns_error
            ("The uploaded file is missing required columns: "
             +:+ join ", " missing_cols))
  else
    out_df ← df_copy df;
    match selected buttons with
    | Some p =>
        arg ← df_copy df;
        '(out_df, highlights, summary) ← validate p arg;
        total ← lift (total_issues summary);
        out ← frame_of out_df;
        mret (validation_results summary (total =? 0) out highlights)
    | None => mret choose_a_check
    end.

(** * Tables for the examples *)

Module Examples.

Definition row_of (cells : list (string * string)) : gmap string value :=
  list_to_map (prod_map id VStr <$> cells).

(** A row that passes every rule. *)
Definition valid_row : gmap string value :=
  row_of [ ("macroid", "1"); ("asset_type", "building"); ("asset_name", "depot");
           ("final_value", "97000"); ("asset_usage_id", "38"); ("value_base", "1");
           ("inspection_date", "2024-03-15"); ("production_capacity", "10.5");
           ("production_capacity_measuring_unit", "t"); ("owner_name", "owner");
           ("product_type", "p"); ("market_approach", "1");
           ("market_approach_value", "5"); ("cost_approach", "0");
           ("cost_approach_value", "0"); ("country", "c"); ("region", "r");
           ("city", "x") ].

Definition table (rows : list (gmap string value)) : DataFrame :=
  {| columns := EXPECTED_COLUMNS; rows := rows |}.

(** One valid row, and the same row with its [final_value] cell missing. *)
Definition valid_table : DataFrame := table [valid_row].
Definition empty_final_value : DataFrame :=
  table [valid_row; <["final_value" := VNaN]> valid_row].

(** A cell that [float] reads as infinity. *)
Definition infinite_approach : DataFrame :=
  table [<["market_approach" := VStr "inf"]> valid_row].

(** Tables that lack a column. *)
Definition without (col : string) (t : DataFrame) : DataFrame :=
  {| columns := filter (λ c, c ≠ col) (columns t);
     rows := delete col <$> rows t |}.

(** A profile run with the example date parser. *)
Definition check (p : profile) (t : DataFrame) :=
  run (pandas := ExampleDates.pandas) p t.



Definition summary_lines {A B} (r : py (A * B * list string)) : option (list string) :=
  match r with
  | Ok (_, _, summary) => Some summary
  | Raise _ => None
  end.

Definition cell_of {B C} (r : py (DataFrame * B * C)) (idx : nat) (col : string) : py value :=
  '(out, _, _) ← r; frame_at out idx col.

Definition annotated_empty_final_value : DataFrame :=
  Eval vm_compute in
    match check all empty_final_value with Ok (out, _, _) => out | Raise _ => table [] end.
Definition highlights_empty_final_value : gmap (nat * string) PatternFill :=
  Eval vm_compute in
    match check all empty_final_value with Ok (_, hl, _) => hl | Raise _ => ∅ end.
Definition summary_empty_final_value : list string :=
  Eval vm_compute in default [] (summary_lines (check all empty_final_value)).

End Examples.

(** * Reasoning about computations *)

Section hoare.
Context {S : Type}.
Implicit Types (P : S → Prop) (E : exn → S → Prop).

Lemma hoare_ret {A} P (Q : A → S → Prop) E (a : A) :
  (∀ s, P s → Q a s) → hoare P (mret a) Q E.
Proof. intros HQ s Hs. by apply HQ. Qed.

Lemma hoare_bind {A B} P (m : StE S A) (f : A → StE S B) (R : A → S → Prop) Q E :
  hoare P m R E → (∀ a, hoare (R a) (f a) Q E) → hoare P (m ≫= f) Q E.
Proof.
  intros Hm Hf s Hs. specialize (Hm s Hs).
  unfold mbind, StE_bind. destruct (m s) as [[a|e] s']; [|done].
  by apply Hf.
Qed.

Lemma hoare_consequence {A} P P' (m : StE S A) (Q Q' : A → S → Prop) E E' :
  hoare P' m Q' E' →
  (∀ s, P s → P' s) → (∀ a s, Q' a s → Q a s) → (∀ e s, E' e s → E e s) →
  hoare P m Q E.
Proof.
  intros Hm HP HQ HE s Hs. specialize (Hm s (HP s Hs)).
  destruct (m s) as [[a|e] s']; auto.
Qed.

Lemma hoare_weaken_pre {A} P P' (m : StE S A) (Q : A → S → Prop) E :
  (∀ s, P s → P' s) → hoare P' m Q E → hoare P m Q E.
Proof. intros HP Hm s Hs. by apply Hm, HP. Qed.

Lemma hoare_pre {A} P (m : StE S A) (Q : A → S → Prop) E :
  (∀ s, P s → hoare (λ s', s' = s) m Q E) → hoare P m Q E.
Proof. intros Hm s Hs. by apply (Hm s Hs). Qed.

Lemma hoare_weaken_exn {A} P (m : StE S A) (Q : A → S → Prop) E :
  hoare P m Q never → hoare P m Q E.
Proof.
  intros Hm s Hs. specialize (Hm s Hs). by destruct (m s) as [[a|e] s'].
Qed.

Lemma hoare_lift {A} P (m : py A) (Q : A → S → Prop) E :
  (∀ s, P s → match m with Ok a => Q a s | Raise e => E e s end) →
  hoare P (lift m) Q E.
Proof. intros Hm s Hs. specialize (Hm s Hs). unfold lift. by destruct m. Qed.

Lemma hoare_gets {A} P (f : S → A) (Q : A → S → Prop) E :
  (∀ s, P s → Q (f s) s) → hoare P (gets f) Q E.
Proof. intros HQ s Hs. by apply HQ. Qed.

Lemma hoare_modify P (f : S → S) (Q : unit → S → Prop) E :
  (∀ s, P s → Q tt (f s)) → hoare P (modify f) Q E.
Proof. intros HQ s Hs. by apply HQ. Qed.

Lemma hoare_attempt {A} P (m : StE S A) (Q : py A → S → Prop) E :
  hoare P m (λ a, Q (Ok a)) (λ e, Q (Raise e)) → hoare P (attempt m) Q E.
Proof.
  intros Hm s Hs. specialize (Hm s Hs). unfold attempt.
  by destruct (m s) as [[a|e] s'].
Qed.

(** A loop keeps an invariant [I] of its accumulator and the store. *)
Lemma hoare_for_each {A B} (I : B → S → Prop) E (T : A → Prop)
    (l : list A) (body : A → B → StE S B) (acc : B) :
  Forall T l →
  (∀ x b, T x → hoare (I b) (body x b) I E) →
  hoare (I acc) (for_each l body acc) I E.
Proof.
  intros Hl Hbody. revert acc.
  induction Hl as [|x l Hx Hl IH]; intros acc; simpl.
  - by apply hoare_ret.
  - eapply hoare_bind; [by apply Hbody|]. intros acc'. apply IH.
Qed.

Lemma hoare_conj {A} P (m : StE S A) (Q1 Q2 : A → S → Prop) E :
  hoare P m Q1 E → hoare P m Q2 E → hoare P m (λ a s, Q1 a s ∧ Q2 a s) E.
Proof.
  intros H1 H2 s Hs. specialize (H1 s Hs). specialize (H2 s Hs).
  by destruct (m s) as [[a|e] s'].
Qed.

End hoare.

Lemma bind_run {S A B} (m : StE S A) (f : A → StE S B) s :
  (m ≫= f) s =
    match m s with
    | (Ok a, s') => f a s'
    | (Raise e, s') => (Raise e, s')
    end.
Proof. done. Qed.

Lemma for_each_app {S A B} (l1 l2 : list A) (body : A → B → StE S B) acc s :
  for_each (l1 ++ l2) body acc s = (for_each l1 body acc ≫= for_each l2 body) s.
Proof.
  revert acc s. induction l1 as [|x l1 IH]; intros acc s; simpl; [done|].
  unfold mbind, StE_bind in *. destruct (body x acc s) as [[b|e] s']; [|done].
  apply IH.
Qed.


(** * What a validator may change *)

Section frames.
Implicit Types (t : DataFrame) (st : vstate) (C fixed : list string).

Lemma frame_has_set t idx col v c :
  frame_has (frame_set t idx col v) c = frame_has t c.
Proof. done. Qed.

Lemma frame_at_set_ne t idx col v i c :
  (i, c) ≠ (idx, col) →
  frame_at (frame_set t idx col v) i c = frame_at t i c.
Proof.
  intros Hne. unfold frame_at. rewrite frame_has_set.
  destruct (frame_has t c); [|done]. simpl.
  destruct (decide (i = idx)) as [->|Hi].
  - rewrite list_lookup_alter_eq. destruct (rows t !! idx) as [r|]; [|done].
    simpl. unfold cell. rewrite lookup_insert_ne; [done|congruence].
  - by rewrite list_lookup_alter_ne.
Qed.

Lemma frame_at_set_eq t idx col v :
  col ∈ columns t → (idx < length (rows t))%nat →
  frame_at (frame_set t idx col v) idx col = Ok v.
Proof.
  intros Hc Hi. unfold frame_at, frame_has. simpl.
  rewrite bool_decide_eq_true_2 by done.
  rewrite list_lookup_alter_eq.
  destruct (lookup_lt_is_Some_2 _ _ Hi) as [r ->]. simpl.
  unfold cell. by rewrite lookup_insert_eq.
Qed.

Lemma frame_at_in_range t idx col :
  col ∈ columns t → (idx < length (rows t))%nat →
  ∃ v, frame_at t idx col = Ok v.
Proof.
  intros Hc Hi. unfold frame_at, frame_has.
  rewrite bool_decide_eq_true_2 by done.
  destruct (lookup_lt_is_Some_2 _ _ Hi) as [r ->]. eauto.
Qed.

Lemma frame_items_in_range t col items :
  frame_items t col = Ok items →
  col ∈ columns t ∧
  Forall (λ row : nat * value, (row.1 < length (rows t))%nat) items.
Proof.
  unfold frame_items, frame_has. case_bool_decide; [|done].
  intros [= <-]. split; [done|].
  apply Forall_forall. intros [idx v] Hin.
  apply list_elem_of_lookup in Hin as [j Hj].
  rewrite list_lookup_imap in Hj.
  destruct (rows t !! j) as [r|] eqn:Hr; simplify_eq/=.
  by eapply lookup_lt_Some.
Qed.

Lemma frame_items_at t col items row :
  frame_items t col = Ok items → row ∈ items → frame_at t row.1 col = Ok row.2.
Proof.
  unfold frame_items, frame_at. destruct (frame_has t col); [|done].
  intros [= <-] Hin. apply list_elem_of_lookup in Hin as [j Hj].
  rewrite list_lookup_imap in Hj.
  destruct (rows t !! j) as [r|] eqn:Hr; simplify_eq/=. by rewrite Hr.
Qed.

Lemma touched_refl C fixed st : touched C fixed st st.
Proof. split; auto. Qed.

Lemma touched_trans C fixed st0 st1 st2 :
  touched C fixed st0 st1 → touched C fixed st1 st2 → touched C fixed st0 st2.
Proof.
  intros [Hc1 Hn1 Hm1 Hk1 Hv1 Hf1] [Hc2 Hn2 Hm2 Hk2 Hv2 Hf2]. split.
  - congruence.
  - congruence.
  - auto.
  - intros i c Hin. destruct (Hk2 i c Hin) as [?|(?&?&?)]; [auto|].
    right. rewrite <-Hc1, <-Hn1. auto.
  - intros i c. destruct (Hv2 i c) as [Heq|[[??]|?]]; [|auto..].
    rewrite Heq. destruct (Hv1 i c) as [?|[[??]|?]]; auto.
  - intros k fill Hk. destruct (Hf2 k fill Hk); auto.
Qed.

Lemma touched_weaken C C' fixed fixed' st0 st :
  C ⊆ C' → fixed ⊆ fixed' → touched C fixed st0 st → touched C' fixed' st0 st.
Proof.
  intros HC Hf [Hc Hn Hm Hk Hv Hy]. split; [done..| | |done].
  - intros i c Hin. destruct (Hk i c Hin) as [?|(?&?&?)]; auto.
  - intros i c. destruct (Hv i c) as [?|[[??]|?]]; auto.
Qed.

(** Flagging a cell of the frame. *)
Lemma flag_touched C fixed st0 idx col msg :
  col ∈ C → col ∈ columns (st_df st0) → (idx < length (rows (st_df st0)))%nat →
  hoare (touched C fixed st0) (flag idx col msg) (λ _, touched C fixed st0) never.
Proof.
  intros HC Hcol Hidx st Hst. unfold flag, set_highlight, df_at, df_at_set, modify.
  unfold mbind, StE_bind. simpl.
  destruct Hst as [Hc Hn Hm Hk Hv Hy].
  destruct (frame_at_in_range (st_df st) idx col) as [v ->]; [congruence|lia|].
  split; simpl.
  - done.
  - by rewrite length_alter.
  - intros k Hin. rewrite dom_insert. set_solver.
  - intros i c. rewrite dom_insert, elem_of_union, elem_of_singleton.
    intros [[= -> ->]|Hin]; auto.
  - intros i c. destruct (decide ((i, c) = (idx, col))) as [[= -> ->]|Hne].
    + right; left. rewrite dom_insert. set_solver.
    + rewrite frame_at_set_ne by done.
      destruct (Hv i c) as [?|[[??]|?]]; auto.
      right; left. rewrite dom_insert. set_solver.
  - intros k fill. destruct (decide (k = (idx, col))) as [->|Hne].
    + rewrite lookup_insert_eq. intros [= <-]. by right.
    + rewrite lookup_insert_ne by done. apply Hy.
Qed.

(** Rewriting a cell of a column among [fixed]. *)
Lemma df_at_set_touched C fixed st0 idx col v :
  col ∈ fixed →
  hoare (touched C fixed st0) (df_at_set idx col v) (λ _, touched C fixed st0) never.
Proof.
  intros Hfix st [Hc Hn Hm Hk Hv Hy]. unfold df_at_set, modify. split; simpl; auto.
  - by rewrite length_alter.
  - intros i c. destruct (decide ((i, c) = (idx, col))) as [[= -> ->]|Hne]; [auto|].
    rewrite frame_at_set_ne by done. apply Hv.
Qed.

End frames.

(** * The cells of a column after a loop *)

Section cells.
Implicit Types (t : DataFrame) (st : vstate).

Lemma frame_at_Ok t idx col v :
  frame_at t idx col = Ok v →
  col ∈ columns t ∧ (idx < length (rows t))%nat.
Proof.
  unfold frame_at, frame_has. case_bool_decide; [|done].
  destruct (rows t !! idx) eqn:Hr; [|done]. intros _. split; [done|].
  by eapply lookup_lt_Some.
Qed.

Lemma frame_items_elem t col items idx v :
  frame_items t col = Ok items → frame_at t idx col = Ok v → (idx, v) ∈ items.
Proof.
  unfold frame_items, frame_at. destruct (frame_has t col); [|done].
  intros [= <-]. destruct (rows t !! idx) as [r|] eqn:Hr; [|done]. intros [= <-].
  apply list_elem_of_lookup. exists idx. by rewrite list_lookup_imap, Hr.
Qed.

Lemma frame_items_indices t col items :
  frame_items t col = Ok items → items.*1 = seq 0 (length (rows t)).
Proof.
  unfold frame_items. destruct (frame_has t col); [|done]. intros [= <-].
  apply list_eq. intros j. rewrite list_lookup_fmap, list_lookup_imap.
  destruct (rows t !! j) as [r|] eqn:Hr; simpl.
  - symmetry. apply lookup_seq. split; [done|]. by eapply lookup_lt_Some.
  - symmetry. apply lookup_seq_ge. apply lookup_ge_None in Hr. lia.
Qed.

Lemma flag_run st idx col msg existing :
  frame_at (st_df st) idx col = Ok existing →
  flag idx col msg st = (Ok tt, flagged st idx col existing msg).
Proof.
  intros Hat. unfold flag, set_highlight, df_at, df_at_set, modify, mbind, StE_bind.
  simpl. by rewrite Hat.
Qed.

Lemma flagged_at st idx col existing msg i c :
  frame_at (st_df st) idx col = Ok existing →
  frame_at (st_df (flagged st idx col existing msg)) i c =
    if decide ((i, c) = (idx, col)) then Ok (VStr (append_message existing msg))
    else frame_at (st_df st) i c.
Proof.
  intros [??]%frame_at_Ok. simpl. case_decide as Heq.
  - injection Heq as -> ->. by apply frame_at_set_eq.
  - by apply frame_at_set_ne.
Qed.

(** A loop of a cellwise body over the items of a column leaves every
    cell of the column annotated. *)
Lemma cellwise_loop {B} col w (body : nat * value → B → V B) :
  cellwise col w body →
  ∀ done rest acc st,
    NoDup (done ++ rest).*1 →
    (∀ row, row ∈ done → frame_at (st_df st) row.1 col = Ok (annotate w row.2)) →
    (∀ row, row ∈ rest → frame_at (st_df st) row.1 col = Ok row.2) →
    ∃ acc' st',
      for_each rest body acc st = (Ok acc', st') ∧
      ∀ row, row ∈ done ++ rest →
        frame_at (st_df st') row.1 col = Ok (annotate w row.2).
Proof.
  intros Hbody done rest. revert done.
  induction rest as [|[idx val] rest IH]; intros done acc st Hnodup Hdone Hrest.
  - exists acc, st. split; [done|]. rewrite app_nil_r. auto.
  - assert (frame_at (st_df st) idx col = Ok val) as Hcur
      by (apply (Hrest (idx, val)); by left).
    destruct (Hbody idx val acc st Hcur) as [acc1 Hrun].
    set (st1 := match w val with
                | Some msg => flagged st idx col val msg
                | None => st
                end) in *.
    assert (∀ i, frame_at (st_df st1) i col =
                 if decide (i = idx) then Ok (annotate w val)
                 else frame_at (st_df st) i col) as Hst1.
    { intros i. unfold st1, annotate. destruct (w val) as [msg|].
      - rewrite flagged_at by done. repeat case_decide; naive_solver.
      - case_decide; by subst. }
    rewrite fmap_app, fmap_cons in Hnodup. simpl in Hnodup.
    apply NoDup_app in Hnodup as (Hnd1 & Hdisj & [Hnotin Hnd2]%NoDup_cons).
    destruct (IH (done ++ [(idx, val)]) acc1 st1) as (acc' & st' & Hloop & Hall).
    + rewrite <-app_assoc. simpl. rewrite fmap_app, fmap_cons. simpl.
      apply NoDup_app. split_and!; [done| |by apply NoDup_cons].
      done.
    + intros row [Hrow|Hrow%list_elem_of_singleton]%elem_of_app.
      * rewrite Hst1. case_decide as Heq; [|by apply Hdone].
        exfalso. apply (Hdisj idx); [|by left].
        apply list_elem_of_fmap. by exists row.
      * subst row. simpl. rewrite Hst1. by case_decide.
    + intros row Hrow. rewrite Hst1. case_decide as Heq.
      * exfalso. apply Hnotin. apply list_elem_of_fmap. by exists row.
      * apply Hrest. by right.
    + exists acc', st'. split.
      * simpl. unfold mbind, StE_bind. by rewrite Hrun.
      * intros row Hrow. apply Hall. rewrite <-app_assoc. done.
Qed.

Lemma cellwise_column {B} col w (body : nat * value → B → V B) acc st :
  cellwise col w body →
  frame_has (st_df st) col = true →
  ∃ acc' st',
    (items ← df_items col; for_each items body acc) st = (Ok acc', st') ∧
    ∀ idx v, frame_at (st_df st) idx col = Ok v →
      frame_at (st_df st') idx col = Ok (annotate w v).
Proof.
  intros Hbody Hcol. unfold mbind, StE_bind, df_items.
  destruct (frame_items (st_df st) col) as [items|e] eqn:Hitems.
  2:{ unfold frame_items in Hitems. by rewrite Hcol in Hitems. }
  destruct (cellwise_loop col w body Hbody [] items acc st) as (acc' & st' & Hrun & Hall).
  - simpl. rewrite (frame_items_indices _ _ _ Hitems). apply NoDup_seq.
  - intros row []%elem_of_nil.
  - intros row Hrow. by eapply frame_items_at.
  - exists acc', st'. split; [done|]. intros idx v Hv.
    apply (Hall (idx, v)). simpl. by eapply frame_items_elem.
Qed.

End cells.

(** * Strings *)

Section strings.
Implicit Types (s : string) (c : ascii).

Lemma rstrip_empty s : Str.eqb (Str.rstrip s) "" = whitespace_only s.
Proof.
  unfold Str.eqb. induction s as [|c s IH]; simpl; [done|].
  destruct (Str.rstrip s) as [|c' r].
  - rewrite bool_decide_eq_true_2 in IH by done. rewrite <-IH.
    destruct (Str.isspace c); done.
  - rewrite bool_decide_eq_false_2 in IH by done. rewrite <-IH.
    rewrite andb_false_r. by apply bool_decide_eq_false_2.
Qed.

Lemma lstrip_whitespace_only s : whitespace_only (Str.lstrip s) = whitespace_only s.
Proof.
  induction s as [|c s IH]; simpl; [done|].
  destruct (Str.isspace c) eqn:Hc; simpl; [done|]. by rewrite Hc.
Qed.

Lemma strip_empty s : Str.eqb (Str.strip s) "" = whitespace_only s.
Proof. unfold Str.strip. by rewrite rstrip_empty, lstrip_whitespace_only. Qed.

Lemma is_empty_str s : is_empty (VStr s) = whitespace_only s.
Proof.
  unfold is_empty. simpl. unfold Str.truthy. rewrite strip_empty.
  destruct (whitespace_only s); [done|]. simpl.
  by repeat case_match.
Qed.

Lemma lower_char_n c : Str.lower_char c = "n"%char → c = "N"%char ∨ c = "n"%char.
Proof.
  destruct c as [[] [] [] [] [] [] [] []]; vm_compute; intros; simplify_eq; auto.
Qed.

Lemma lower_na_not_blank s : Str.lower s = "n/a" → whitespace_only s = false.
Proof.
  destruct s as [|c s]; [done|]. simpl. intros [= Hc _].
  by destruct (lower_char_n c Hc) as [-> | ->].
Qed.

Lemma length_lower s : String.length (Str.lower s) = String.length s.
Proof. induction s; simpl; congruence. Qed.

Lemma substring_lower n m s :
  String.substring n m (Str.lower s) = Str.lower (String.substring n m s).
Proof.
  revert n m. induction s as [|c s IH]; intros [|n] [|m]; simpl; try done.
  - by rewrite IH.
Qed.

Lemma lower_char_point c : Str.lower_char c = "."%char → c = "."%char.
Proof.
  destruct c as [[] [] [] [] [] [] [] []]; vm_compute; intros; by simplify_eq.
Qed.

Lemma lower_char_zero c : Str.lower_char c = "0"%char → c = "0"%char.
Proof.
  destruct c as [[] [] [] [] [] [] [] []]; vm_compute; intros; by simplify_eq.
Qed.

Lemma lower_dot_zero s : Str.eqb (Str.lower s) ".0" = Str.eqb s ".0".
Proof.
  unfold Str.eqb. apply bool_decide_ext. split.
  - destruct s as [|a [|b [|]]]; simpl; try done. intros [= Ha Hb].
    by rewrite (lower_char_point a Ha), (lower_char_zero b Hb).
  - by intros ->.
Qed.

Lemma endswith_lower s : Str.endswith (Str.lower s) ".0" = Str.endswith s ".0".
Proof.
  unfold Str.endswith. by rewrite length_lower, substring_lower, lower_dot_zero.
Qed.

Lemma without_dot_zero_spec s :
  without_dot_zero s =
    if Str.endswith s ".0" then Some (Str.drop_last 2 s) else None.
Proof.
  induction s as [|c s IH]; [done|].
  destruct s as [|d [|e s]].
  - simpl. unfold Str.eqb. by case_bool_decide.
  - simpl. unfold Str.endswith, Str.drop_last, Str.eqb. simpl.
    by repeat case_bool_decide.
  - change (without_dot_zero (String c (String d (String e s)))) with
      (if Str.eqb (String c (String d (String e s))) ".0" then Some ""
       else String c <$> without_dot_zero (String d (String e s))).
    rewrite IH.
    unfold Str.eqb at 1. rewrite bool_decide_eq_false_2 by done.
    unfold Str.endswith, Str.drop_last. simpl.
    rewrite !Nat.sub_0_r. by destruct (Str.eqb _ ".0").
Qed.

Lemma contains_point s : Str.contains "." s = has_point s.
Proof.
  induction s as [|c s IH]; [done|].
  change (Str.contains "." (String c s))
    with (String.prefix "." (String c s) || Str.contains "." s).
  rewrite IH. cbn [String.prefix has_point].
  destruct (ascii_dec "." c) as [<-|Hne].
  - by destruct s.
  - by rewrite bool_decide_eq_false_2.
Qed.

Lemma to_int_toInteger v : to_int v = Ok (toInteger v).
Proof.
  unfold to_int, toInteger. destruct (is_empty v); [done|]. simpl.
  rewrite endswith_lower, without_dot_zero_spec.
  destruct (Str.endswith _ ".0"); simpl; rewrite contains_point;
    destruct (has_point _); try done; by destruct (Num.int_of_str _).
Qed.

(** What [int] reads: digits, underscores, a sign, white space. *)
Lemma digitpart_from_numeric b s ds :
  Num.digitpart_from b s = Some ds → all_chars numeric_char s = true.
Proof.
  revert b ds. induction s as [|c s IH]; intros b ds; simpl; [done|].
  unfold numeric_char. destruct (Str.isdigit c); simpl.
  - destruct (Num.digitpart_from true s) eqn:Hs; [|done]. intros _. eauto.
  - case_bool_decide as Hc; [|done]. subst c. destruct b; [|done]. simpl. eauto.
Qed.

Lemma app_cons c s1 s2 : String c s1 +:+ s2 = String c (s1 +:+ s2).
Proof. done. Qed.

Lemma all_chars_app p s1 s2 :
  all_chars p (s1 +:+ s2) = all_chars p s1 && all_chars p s2.
Proof.
  induction s1 as [|c s1 IH]; [done|].
  rewrite app_cons. simpl. by rewrite IH, andb_assoc.
Qed.

Lemma lstrip_split s : ∃ a, s = a +:+ Str.lstrip s ∧ all_chars Str.isspace a = true.
Proof.
  induction s as [|c s (a & Hs & Ha)]; simpl.
  - by exists "".
  - destruct (Str.isspace c) eqn:Hc.
    + exists (String c a). rewrite app_cons. simpl. rewrite Hc, Ha.
      split; [by f_equal|done].
    + by exists "".
Qed.

Lemma rstrip_split s : ∃ b, s = Str.rstrip s +:+ b ∧ all_chars Str.isspace b = true.
Proof.
  induction s as [|c s (b & Hs & Hb)]; simpl.
  - by exists "".
  - destruct (Str.rstrip s) as [|c' r] eqn:Hr.
    + change ("" +:+ b) with b in Hs. subst b.
      destruct (Str.isspace c) eqn:Hc.
      * exists (String c s). simpl. by rewrite Hc, Hb.
      * by exists s.
    + exists b. rewrite app_cons. split; [by f_equal|done].
Qed.

(** The white space of [int] is white space of [str.strip]. *)
Lemma num_isspace c : Num.isspace c = true → Str.isspace c = true.
Proof. destruct c as [[] [] [] [] [] [] [] []]; by vm_compute. Qed.

Lemma num_lstrip_split s :
  ∃ a, s = a +:+ Num.lstrip s ∧ all_chars Num.isspace a = true.
Proof.
  induction s as [|c s (a & Hs & Ha)]; simpl.
  - by exists "".
  - destruct (Num.isspace c) eqn:Hc.
    + exists (String c a). rewrite app_cons. simpl. rewrite Hc, Ha.
      split; [by f_equal|done].
    + by exists "".
Qed.

Lemma num_rstrip_split s :
  ∃ b, s = Num.rstrip s +:+ b ∧ all_chars Num.isspace b = true.
Proof.
  induction s as [|c s (b & Hs & Hb)]; simpl.
  - by exists "".
  - destruct (Num.rstrip s) as [|c' r] eqn:Hr.
    + change ("" +:+ b) with b in Hs. subst b.
      destruct (Num.isspace c) eqn:Hc.
      * exists (String c s). simpl. by rewrite Hc, Hb.
      * by exists s.
    + exists b. rewrite app_cons. split; [by f_equal|done].
Qed.

Lemma strip_numeric s :
  all_chars numeric_char (Num.strip s) = true → all_chars numeric_char s = true.
Proof.
  unfold Num.strip. intros Hs.
  destruct (num_lstrip_split s) as (a & Hsa & Ha).
  destruct (num_rstrip_split (Num.lstrip s)) as (b & Hsb & Hb).
  assert (∀ x, all_chars Num.isspace x = true → all_chars numeric_char x = true)
    as Hspace.
  { induction x as [|c x IH]; simpl; [done|]. intros [Hc Hx]%andb_true_iff.
    rewrite (IH Hx), andb_true_r. unfold numeric_char.
    by rewrite (num_isspace c Hc), !orb_true_r. }
  rewrite Hsa, Hsb, !all_chars_app, Hs, !Hspace; done.
Qed.

Lemma int_of_str_numeric s n :
  Num.int_of_str s = Ok n → all_chars numeric_char s = true.
Proof.
  unfold Num.int_of_str. intros Hn. apply strip_numeric.
  destruct (Num.split_sign (Num.strip s)) as [neg body] eqn:Hsign.
  destruct (Num.digitpart body) as [ds|] eqn:Hds; [|done].
  apply digitpart_from_numeric in Hds.
  unfold Num.split_sign in Hsign.
  repeat case_match; simplify_eq; try done.
Qed.
End strings.

(** * The coercions return *)

Lemma try_except_returns {A} (body : py A) (a : A) :
  ∃ r, try_except body (Ok a) = Ok r.
Proof. destruct body; simpl; eauto. Qed.

Lemma to_int_returns v : ∃ ok n, to_int v = Ok (ok, n).
Proof.
  unfold to_int. destruct (is_empty v); [eauto|].
  destruct (try_except_returns
    (let s := Str.strip (str v) in
     let s0 := if Str.endswith (Str.lower s) ".0" then Str.drop_last 2 s else s in
     if Str.contains "." s0 then Ok (false, None)
     else n ← Num.int_of_str s0; Ok (true, Some n)) (false, None)) as [[ok n] Hr].
  eauto.
Qed.

Lemma to_float_returns v : ∃ ok x, to_float v = Ok (ok, x).
Proof.
  unfold to_float. destruct (is_empty v); [eauto|].
  destruct (try_except_returns
    (x ← Num.float_of_str (Str.strip (str v)); Ok (true, Some x)) (false, None))
    as [[ok x] Hr].
  eauto.
Qed.

Lemma parse_and_format_date_returns `{Pandas} v :
  ∃ ok s, parse_and_format_date v = Ok (ok, s).
Proof.
  unfold parse_and_format_date. destruct (is_empty v); [eauto|].
  destruct (try_except_returns
    (dt ← to_datetime (Str.strip (str v)); formatted ← strftime dt;
     Ok (true, Some formatted)) (false, None)) as [[ok s] Hr].
  eauto.
Qed.


Lemma hoare_has_column {A} (P : vstate → Prop) col (f : bool → V A) Q E :
  (∀ b, hoare (λ st, P st ∧ frame_has (st_df st) col = b) (f b) Q E) →
  hoare P (has_column col ≫= f) Q E.
Proof.
  intros Hf. eapply hoare_bind; [|apply Hf].
  apply hoare_gets. auto.
Qed.

(** Reading does not change the store. *)
Lemma df_at_reads (I : vstate → Prop) idx col :
  hoare I (df_at idx col) (λ _, I) (λ _, I).
Proof. intros st Hst. unfold df_at. by destruct (frame_at _ _ _). Qed.

Lemma read_approach_raw_reads (I : vstate → Prop) idx :
  hoare I (read_approach_raw idx) (λ _, I) (λ _, I).
Proof.
  unfold read_approach_raw. apply hoare_has_column. intros [].
  - eapply hoare_consequence; [apply (df_at_reads I)|by intros ? [??]|done..].
  - apply hoare_ret. by intros ? [??].
Qed.

Lemma attempt_reads {A} (I : vstate → Prop) (m : V A) E :
  hoare I m (λ _, I) (λ _, I) → hoare I (attempt m) (λ _, I) E.
Proof. intros Hm. by apply hoare_attempt. Qed.

Lemma hoare_df_items {A} (P : vstate → Prop) col (f : list (nat * value) → V A) Q E :
  (∀ items,
     hoare (λ st, P st ∧ frame_items (st_df st) col = Ok items) (f items) Q E) →
  hoare (λ st, P st ∧ frame_has (st_df st) col = true) (df_items col ≫= f) Q E.
Proof.
  intros Hf st [Hst Hcol]. unfold mbind, StE_bind, df_items.
  destruct (frame_items (st_df st) col) as [items|e] eqn:Hitems.
  - by apply (Hf items).
  - unfold frame_items in Hitems. by rewrite Hcol in Hitems.
Qed.

(** A loop over the items of a column of the frame. *)
Lemma for_each_touched {B} C fixed E st0 col items
    (body : nat * value → B → V B) acc :
  (∀ row b, col ∈ columns (st_df st0) → (row.1 < length (rows (st_df st0)))%nat →
     hoare (touched C fixed st0) (body row b) (λ _, touched C fixed st0) E) →
  hoare (λ st, touched C fixed st0 st ∧ frame_items (st_df st) col = Ok items)
    (for_each items body acc) (λ _, touched C fixed st0) E.
Proof.
  intros Hbody st [Hst Hitems].
  apply frame_items_in_range in Hitems as [Hin Hrange].
  rewrite (touched_columns _ _ _ _ Hst) in Hin.
  rewrite (touched_nrows _ _ _ _ Hst) in Hrange.
  apply (hoare_for_each (λ _, touched C fixed st0) E
           (λ row, (row.1 < length (rows (st_df st0)))%nat)); auto.
Qed.

Lemma items_loop_touched {B} C fixed E st0 col (body : nat * value → B → V B) acc :
  (∀ row b, col ∈ columns (st_df st0) → (row.1 < length (rows (st_df st0)))%nat →
     hoare (touched C fixed st0) (body row b) (λ _, touched C fixed st0) E) →
  hoare (λ st, touched C fixed st0 st ∧ frame_has (st_df st) col = true)
    (items ← df_items col; for_each items body acc)
    (λ _, touched C fixed st0) E.
Proof. intros Hbody. apply hoare_df_items. intros items. by apply for_each_touched. Qed.

Section rules.
Context {pandas : Pandas}.
Implicit Types (st : vstate) (row : nat * value).

Lemma final_value_message_returns val : ∃ m, final_value_message val = Ok m.
Proof.
  unfold final_value_message. destruct (is_empty val); [eauto|].
  destruct (to_int_returns val) as (ok & n & ->). simpl.
  destruct ok; simpl; eauto.
Qed.

Lemma final_value_row_touched st0 row issues :
  "final_value" ∈ columns (st_df st0) →
  (row.1 < length (rows (st_df st0)))%nat →
  hoare (touched ["final_value"] [] st0) (final_value_row row issues)
    (λ _, touched ["final_value"] [] st0) never.
Proof.
  intros Hcol Hidx. destruct row as [idx val]. unfold final_value_row.
  eapply hoare_bind with (R := λ _, touched _ _ st0).
  { apply hoare_lift. intros s Hs.
    by destruct (final_value_message_returns val) as [m ->]. }
  intros [msg|]; [|by apply hoare_ret].
  destruct (Str.truthy msg); [|by apply hoare_ret].
  eapply hoare_bind; [apply flag_touched; [set_solver|done..]|].
  intros ?. by apply hoare_ret.
Qed.

Lemma final_value_rule_spec st0 :
  hoare (λ st, st = st0) final_value_rule
    (λ summary st, touched ["final_value"] [] st0 st ∧
       ∃ line, summary = [line] ∧ count_line "Final Value issues" line)
    never.
Proof.
  unfold final_value_rule.
  apply hoare_has_column. intros present.
  eapply hoare_bind with (R := λ _, touched ["final_value"] [] st0).
  - destruct present.
    + eapply hoare_weaken_pre;
        [|apply items_loop_touched, final_value_row_touched].
      intros st [-> ?]. split; [apply touched_refl|done].
    + apply hoare_ret. intros st [-> _]. apply touched_refl.
  - intros issues. apply hoare_ret. intros st Hst. split; [done|].
    eexists. split; [reflexivity|]. exists issues. reflexivity.
Qed.

Lemma mandatory_row_touched C st0 col row missing_count :
  (col ≠ "market_approach" → col ∈ C) →
  col ∈ columns (st_df st0) →
  (row.1 < length (rows (st_df st0)))%nat →
  hoare (touched C [] st0) (mandatory_row col row missing_count)
    (λ _, touched C [] st0) never.
Proof.
  intros HC Hcol Hidx. destruct row as [idx val]. unfold mandatory_row.
  destruct (is_empty val); [|by apply hoare_ret].
  unfold Str.eqb at 1. case_bool_decide as Hne; [by apply hoare_ret|].
  eapply hoare_bind with (R := λ _, touched C [] st0).
  { destruct (Str.eqb col "market_approach_value"); [|by apply hoare_ret].
    eapply hoare_bind with (R := λ _, touched C [] st0).
    - apply attempt_reads, read_approach_raw_reads.
    - intros r. destruct (approach_mandatory r) as [[]|]; by apply hoare_ret. }
  intros [|]; [by apply hoare_ret|].
  eapply hoare_bind; [apply flag_touched; [by apply HC|done..]|].
  intros ?. by apply hoare_ret.
Qed.

Lemma mandatory_column_touched C st0 col missing_count :
  (col ≠ "market_approach" → col ∈ C) →
  hoare (touched C [] st0) (mandatory_column col missing_count)
    (λ _, touched C [] st0) never.
Proof.
  intros HC. unfold mandatory_column.
  apply hoare_has_column. intros [|]; simpl.
  - apply items_loop_touched. intros. by apply mandatory_row_touched.
  - apply hoare_ret. by intros st [? _].
Qed.

(** The mandatory rule over some of the mandatory columns. *)
Lemma mandatory_columns_touched C st0 cols missing_count :
  (∀ col, col ∈ cols → col ≠ "market_approach" → col ∈ C) →
  hoare (touched C [] st0) (for_each cols mandatory_column missing_count)
    (λ _, touched C [] st0) never.
Proof.
  intros HC.
  apply (hoare_for_each (λ _, touched C [] st0) never (λ col, col ∈ cols)).
  - by apply Forall_forall.
  - intros col b Hcol. apply mandatory_column_touched. by apply HC.
Qed.

Lemma mandatory_rule_spec st0 :
  hoare (λ st, st = st0) mandatory_rule
    (λ summary st, touched mandatory_flaggable [] st0 st ∧
       ∃ line, summary = [line] ∧ count_line "Missing mandatory values" line)
    never.
Proof.
  unfold mandatory_rule.
  eapply hoare_bind with (R := λ _, touched mandatory_flaggable [] st0).
  - eapply hoare_weaken_pre; [intros st ->; apply touched_refl|].
    apply mandatory_columns_touched. intros col Hcol Hne.
    by apply list_elem_of_filter.
  - intros n. apply hoare_ret. intros st Hst. split; [done|].
    eexists. split; [reflexivity|]. exists n. reflexivity.
Qed.

Lemma dates_row_touched st0 row counts :
  "inspection_date" ∈ columns (st_df st0) →
  (row.1 < length (rows (st_df st0)))%nat →
  hoare (touched ["inspection_date"] ["inspection_date"] st0) (dates_row row counts)
    (λ _, touched ["inspection_date"] ["inspection_date"] st0) never.
Proof.
  intros Hcol Hidx. destruct row as [idx val], counts as [invalid_count auto_fixed].
  unfold dates_row.
  assert (∀ c : nat * nat,
    hoare (touched ["inspection_date"] ["inspection_date"] st0)
      (flag idx "inspection_date" date_message;; mret c)
      (λ _, touched ["inspection_date"] ["inspection_date"] st0) never) as Hflag.
  { intros c. eapply hoare_bind; [apply flag_touched; [set_solver|done..]|].
    intros ?. by apply hoare_ret. }
  destruct (is_empty val); [apply Hflag|].
  eapply hoare_bind with (R := λ _, touched _ _ st0).
  { apply hoare_lift. intros s Hs.
    by destruct (parse_and_format_date_returns val) as (ok & f & ->). }
  intros [ok [formatted|]]; [|apply Hflag].
  destruct (ok && Str.truthy formatted); [|apply Hflag].
  eapply hoare_bind; [apply df_at_set_touched; set_solver|].
  intros ?. by apply hoare_ret.
Qed.

Lemma dates_rule_spec st0 :
  hoare (λ st, st = st0) dates_rule
    (λ summary st, touched ["inspection_date"] ["inspection_date"] st0 st ∧
       dates_summary (frame_has (st_df st0) "inspection_date") summary)
    never.
Proof.
  unfold dates_rule.
  apply hoare_has_column. intros present.
  eapply hoare_bind with
    (R := λ r st, touched ["inspection_date"] ["inspection_date"] st0 st ∧
            r.2 = if frame_has (st_df st0) "inspection_date" then []
                  else ["Column 'inspection_date' is missing"]).
  - destruct present.
    + eapply hoare_weaken_pre with
        (P' := λ st, (touched ["inspection_date"] ["inspection_date"] st0 st
                      ∧ frame_has (st_df st0) "inspection_date" = true)
                     ∧ frame_has (st_df st) "inspection_date" = true).
      { intros st [-> Hp]. split; [split|]; [apply touched_refl|done..]. }
      apply hoare_df_items. intros items.
      eapply hoare_bind with
        (R := λ _ st, touched ["inspection_date"] ["inspection_date"] st0 st
                      ∧ frame_has (st_df st0) "inspection_date" = true).
      * intros st [[Hst Hp] Hitems].
        pose proof (for_each_touched ["inspection_date"] ["inspection_date"] never
                      st0 "inspection_date" items dates_row (0%nat, 0%nat)
                      (λ row b, dates_row_touched st0 row b) st (conj Hst Hitems))
          as Hloop.
        by destruct (for_each _ _ _ _) as [[?|?] ?].
      * intros counts. apply hoare_ret. intros st [Hst ->]. done.
    + apply hoare_ret. intros st [-> Hp]. rewrite Hp.
      split; [apply touched_refl|done].
  - intros [[invalid_count auto_fixed] summary]. apply hoare_ret.
    intros st [Hst Hsum]. simpl in Hsum. subst summary. split; [done|].
    exists invalid_count, auto_fixed.
    destruct (frame_has _ _); by case_bool_decide.
Qed.

Lemma final_value_row_cellwise :
  cellwise "final_value" final_value_flag final_value_row.
Proof.
  intros idx val b st Hat. unfold final_value_row, final_value_flag.
  destruct (final_value_message_returns val) as [m Hm]. rewrite Hm.
  unfold mbind at 1, StE_bind, lift. simpl.
  destruct m as [msg|]; [|by eexists].
  destruct (Str.truthy msg); [|by eexists].
  unfold mbind, StE_bind. rewrite (flag_run _ _ _ _ val) by done. by eexists.
Qed.

Lemma mandatory_row_cellwise :
  cellwise "final_value" mandatory_flag (mandatory_row "final_value").
Proof.
  intros idx val b st Hat. unfold mandatory_row, mandatory_flag.
  destruct (is_empty val); [|by eexists]. simpl.
  unfold mbind, StE_bind. simpl.
  rewrite (flag_run _ _ _ _ val) by done. by eexists.
Qed.

(** The [final_value] column after the final value rule. *)
Lemma final_value_rule_cells st0 :
  hoare (λ st, st = st0) final_value_rule
    (λ _ st, ∀ idx v, frame_at (st_df st0) idx "final_value" = Ok v →
       frame_at (st_df st) idx "final_value" = Ok (annotate final_value_flag v))
    never.
Proof.
  intros st ->. unfold final_value_rule. rewrite bind_run.
  unfold has_column at 1, gets at 1.
  destruct (frame_has (st_df st0) "final_value") eqn:Hcol.
  - destruct (cellwise_column "final_value" final_value_flag final_value_row
                0%nat st0 final_value_row_cellwise Hcol) as (n & st' & Hrun & Hcells).
    by rewrite bind_run, Hrun.
  - simpl. intros idx v Hv. apply frame_at_Ok in Hv as [Hin _].
    unfold frame_has in Hcol. by apply bool_decide_eq_false in Hcol.
Qed.

Lemma unchanged_final_value C fixed st0 st idx :
  "final_value" ∉ C → "final_value" ∉ fixed → touched C fixed st0 st →
  frame_at (st_df st) idx "final_value" = frame_at (st_df st0) idx "final_value".
Proof.
  intros HC Hfixed Hst.
  by destruct (touched_cells _ _ _ _ Hst idx "final_value") as [?|[[_ ?]|?]].
Qed.

(** The [final_value] column after the mandatory rule. *)
Lemma mandatory_rule_cells st0 :
  hoare (λ st, st = st0) mandatory_rule
    (λ _ st, ∀ idx v, frame_at (st_df st0) idx "final_value" = Ok v →
       frame_at (st_df st) idx "final_value" = Ok (annotate mandatory_flag v))
    never.
Proof.
  intros st ->. unfold mandatory_rule. rewrite bind_run.
  change MANDATORY_FIELDS
    with (mandatory_before ++ ["final_value"] ++ mandatory_after).
  set (C := mandatory_before ++ mandatory_after).
  assert ("final_value" ∉ C) as HC by (unfold C; set_solver).
  rewrite for_each_app, bind_run.
  pose proof (mandatory_columns_touched C st0 mandatory_before 0%nat
                ltac:(unfold C; set_solver) st0 (touched_refl _ _ _)) as H1.
  destruct (for_each mandatory_before _ _ st0) as [[n1|e] st1]; [|done].
  rewrite for_each_app, bind_run.
  assert (∃ n2 st2,
    for_each ["final_value"] mandatory_column n1 st1 = (Ok n2, st2) ∧
    touched ["final_value"] [] st1 st2 ∧
    ∀ idx v, frame_at (st_df st1) idx "final_value" = Ok v →
      frame_at (st_df st2) idx "final_value" = Ok (annotate mandatory_flag v))
    as (n2 & st2 & -> & H2 & Hcells).
  { pose proof (mandatory_columns_touched ["final_value"] st1 ["final_value"] n1
                  ltac:(set_solver) st1 (touched_refl _ _ _)) as Ht.
    simpl in *. rewrite bind_run in *. unfold mandatory_column in *.
    rewrite bind_run in *. unfold has_column at 1, gets at 1 in Ht.
    unfold has_column at 1, gets at 1.
    destruct (frame_has (st_df st1) "final_value") eqn:Hcol; simpl in *.
    - destruct (cellwise_column "final_value" mandatory_flag
                  (mandatory_row "final_value") n1 st1 mandatory_row_cellwise Hcol)
        as (n2 & st2 & Hrun & Hcells).
      rewrite Hrun in *. eauto.
    - exists n1, st1. split_and!; [done..|]. intros idx v [Hin _]%frame_at_Ok.
      unfold frame_has in Hcol. by apply bool_decide_eq_false in Hcol. }
  pose proof (mandatory_columns_touched C st2 mandatory_after n2
                ltac:(unfold C; set_solver) st2 (touched_refl _ _ _)) as H3.
  destruct (for_each mandatory_after _ _ st2) as [[n3|e] st3]; [|done].
  simpl. intros idx v Hv.
  assert ("final_value" ∉ @nil string) as Hnil by set_solver.
  rewrite (unchanged_final_value C [] st2 st3 idx HC Hnil H3).
  apply Hcells. by rewrite (unchanged_final_value C [] st0 st1 idx HC Hnil H1).
Qed.

Lemma flag_count C st0 idx col msg (n : nat) :
  col ∈ C → col ∈ columns (st_df st0) →
  (idx < length (rows (st_df st0)))%nat →
  hoare (touched C [] st0) (flag idx col msg;; mret n) (λ _, touched C [] st0) never.
Proof.
  intros. eapply hoare_bind; [by apply flag_touched|].
  intros ?. by apply hoare_ret.
Qed.

Lemma check_column_touched C E st0 col body extra_issues :
  (∀ row b, col ∈ columns (st_df st0) → (row.1 < length (rows (st_df st0)))%nat →
     hoare (touched C [] st0) (body row b) (λ _, touched C [] st0) E) →
  hoare (touched C [] st0) (check_column col body extra_issues)
    (λ _, touched C [] st0) E.
Proof.
  intros Hbody. unfold check_column.
  apply hoare_has_column. intros [|].
  - by apply items_loop_touched.
  - apply hoare_ret. by intros st [? _].
Qed.

Lemma int_range_row_touched C st0 col lo hi row extra_issues :
  col ∈ C → col ∈ columns (st_df st0) →
  (row.1 < length (rows (st_df st0)))%nat →
  hoare (touched C [] st0) (int_range_row col lo hi row extra_issues)
    (λ _, touched C [] st0) never.
Proof.
  intros HC Hcol Hidx. destruct row as [idx val]. unfold int_range_row.
  destruct (is_empty val); [by apply hoare_ret|].
  eapply hoare_bind with (R := λ _, touched C [] st0).
  { apply hoare_lift. intros s Hs.
    by destruct (to_int_returns val) as (ok & n & ->). }
  intros [ok intval].
  destruct (out_of_range lo hi ok intval); [by apply flag_count|by apply hoare_ret].
Qed.

Lemma approach_not_allowed_raises val ok fval e :
  is_empty val = false → to_float val = Ok (ok, fval) →
  approach_not_allowed ok fval = Raise e → non_finite_approach val = true.
Proof.
  unfold to_float, approach_not_allowed, non_finite_approach.
  intros -> Hf. simpl in *.
  destruct (Num.float_of_str _) as [x|]; simplify_eq/=; [|done].
  by destruct (Num.int_of_float x).
Qed.

Lemma market_approach_row_touched C st0 row extra_issues :
  "market_approach" ∈ C → "market_approach" ∈ columns (st_df st0) →
  (row.1 < length (rows (st_df st0)))%nat →
  hoare (touched C [] st0) (market_approach_row row extra_issues)
    (λ _, touched C [] st0) (λ _ _, non_finite_approach row.2 = true).
Proof.
  intros HC Hcol Hidx. destruct row as [idx val]. unfold market_approach_row.
  destruct (is_empty val) eqn:Hval; [by apply hoare_ret|].
  destruct (to_float_returns val) as (ok & fval & Hf).
  eapply hoare_bind with (R := λ r st, touched C [] st0 st ∧ r = (ok, fval)).
  { apply hoare_lift. intros s Hs. by rewrite Hf. }
  intros ? . apply hoare_pre. intros st [Hst ->].
  eapply hoare_bind with (R := λ _, touched C [] st0).
  { apply hoare_lift. intros s ->.
    destruct (approach_not_allowed ok fval) eqn:Hbad; [done|].
    by eapply approach_not_allowed_raises. }
  intros [|]; [|by apply hoare_ret].
  by apply hoare_weaken_exn, flag_count.
Qed.

Lemma read_approach_raw_returns C st0 idx :
  (idx < length (rows (st_df st0)))%nat →
  hoare (touched C [] st0) (read_approach_raw idx) (λ _, touched C [] st0) never.
Proof.
  intros Hidx. unfold read_approach_raw. apply hoare_has_column. intros [|].
  - intros st [Hst Hcol]. unfold df_at.
    destruct (frame_at_in_range (st_df st) idx "market_approach") as [v ->]; [| |done].
    + unfold frame_has in Hcol. by apply bool_decide_eq_true in Hcol.
    + by rewrite (touched_nrows _ _ _ _ Hst).
  - apply hoare_ret. by intros st [? _].
Qed.

Lemma market_approach_value_row_touched C st0 row extra_issues :
  "market_approach_value" ∈ C → "market_approach_value" ∈ columns (st_df st0) →
  (row.1 < length (rows (st_df st0)))%nat →
  hoare (touched C [] st0) (market_approach_value_row row extra_issues)
    (λ _, touched C [] st0) never.
Proof.
  intros HC Hcol Hidx. destruct row as [idx val]. unfold market_approach_value_row.
  eapply hoare_bind with (R := λ _, touched C [] st0).
  { by apply read_approach_raw_returns. }
  intros approach_raw.
  assert (hoare (touched C [] st0)
    ('(ok, fval) ← lift (to_float val);
     if negb ok || bool_decide (fval = None) then
       flag idx "market_approach_value" "Must be a number when approach is 1 or 2";;
       mret (S extra_issues)
     else mret extra_issues) (λ _, touched C [] st0) never) as Hcheck.
  { eapply hoare_bind with (R := λ _, touched C [] st0).
    { apply hoare_lift. intros s Hs.
      by destruct (to_float_returns val) as (ok & x & ->). }
    intros [ok fval].
    destruct (negb ok || bool_decide (fval = None)); [|by apply hoare_ret].
    by apply flag_count. }
  repeat case_match; first [apply Hcheck | by apply hoare_ret].
Qed.

Lemma production_capacity_row_touched C st0 row extra_issues :
  "production_capacity" ∈ C → "production_capacity" ∈ columns (st_df st0) →
  (row.1 < length (rows (st_df st0)))%nat →
  hoare (touched C [] st0) (production_capacity_row row extra_issues)
    (λ _, touched C [] st0) never.
Proof.
  intros HC Hcol Hidx. destruct row as [idx val]. unfold production_capacity_row.
  destruct (is_empty val); [by apply hoare_ret|].
  eapply hoare_bind with (R := λ _, touched C [] st0).
  { apply hoare_lift. intros s Hs.
    by destruct (to_float_returns val) as (ok & x & ->). }
  intros [ok fval].
  destruct (negative_or_invalid ok fval); [|by apply hoare_ret].
  by apply flag_count.
Qed.

(** The loop over [market_approach] raises only on a cell that the
    frame had at the start of the additional checks. *)
Lemma market_approach_loop st0 extra_issues :
  hoare
    (λ st, touched range_columns [] st0 st ∧
           ∀ i, frame_at (st_df st) i "market_approach"
                = frame_at (st_df st0) i "market_approach")
    (check_column "market_approach" market_approach_row extra_issues)
    (λ _, touched range_columns [] st0)
    (λ _ _, has_non_finite_approach (st_df st0)).
Proof.
  unfold check_column.
  eapply hoare_bind with
    (R := λ b st, (touched range_columns [] st0 st ∧
                   ∀ i, frame_at (st_df st) i "market_approach"
                        = frame_at (st_df st0) i "market_approach")
                  ∧ frame_has (st_df st) "market_approach" = b).
  { apply hoare_gets. auto. }
  intros [|]; [|apply hoare_ret; by intros st [[? _] _]].
  intros st [[Hst Hsame] Hcol]. unfold mbind, StE_bind, df_items.
  destruct (frame_items (st_df st) "market_approach") as [items|e] eqn:Hitems.
  2:{ unfold frame_items in Hitems. by rewrite Hcol in Hitems. }
  pose proof (frame_items_in_range _ _ _ Hitems) as [Hin Hrange].
  rewrite (touched_columns _ _ _ _ Hst) in Hin.
  rewrite (touched_nrows _ _ _ _ Hst) in Hrange.
  apply (hoare_for_each (λ _, touched range_columns [] st0)
           (λ _ _, has_non_finite_approach (st_df st0))
           (λ row, (row.1 < length (rows (st_df st0)))%nat ∧
                   frame_at (st_df st0) row.1 "market_approach" = Ok row.2));
    [| |done].
  - apply Forall_forall. intros row Hrow. split.
    + by eapply Forall_forall in Hrange.
    + rewrite <-Hsame. by eapply frame_items_at.
  - intros row b [Hidx Hcell].
    eapply hoare_consequence;
      [apply (market_approach_row_touched range_columns st0);
         [set_solver|done..]|auto..].
    intros ? ? Hbad. by exists row.1, row.2.
Qed.

Lemma range_rules_spec st0 :
  hoare (λ st, st = st0) range_rules
    (λ _, touched range_columns [] st0)
    (λ _ _, has_non_finite_approach (st_df st0)).
Proof.
  unfold range_rules.
  set (C12 := ["asset_usage_id"; "value_base"]).
  eapply hoare_bind with (R := λ _, touched C12 [] st0).
  { eapply hoare_weaken_pre; [intros st ->; apply touched_refl|].
    apply hoare_weaken_exn, check_column_touched. intros.
    apply int_range_row_touched; [set_solver|done..]. }
  intros e1. eapply hoare_bind with (R := λ _, touched C12 [] st0).
  { apply hoare_weaken_exn, check_column_touched. intros.
    apply int_range_row_touched; [set_solver|done..]. }
  intros e2. eapply hoare_bind with (R := λ _, touched range_columns [] st0).
  { eapply hoare_weaken_pre; [|apply market_approach_loop].
    intros st Hst. split.
    - eapply touched_weaken; [| |done]; set_solver.
    - intros i. destruct (touched_cells _ _ _ _ Hst i "market_approach")
        as [?|[[_ ?]|?]]; set_solver. }
  intros e3. eapply hoare_bind with (R := λ _, touched range_columns [] st0).
  { apply hoare_weaken_exn, check_column_touched. intros.
    apply market_approach_value_row_touched; [set_solver|done..]. }
  intros e4.
  apply hoare_weaken_exn, check_column_touched. intros.
  apply production_capacity_row_touched; [set_solver|done..].
Qed.
End rules.

(** * The profiles on the heap *)

Section heap.
Context {pandas : Pandas}.
Implicit Types (h : heap) (t out : DataFrame).

Lemma df_copy_spec h0 df t :
  h0 !! df = Some t →
  hoare (λ h, h = h0) (df_copy df) (λ df' h, df' = length h0 ∧ h = h0 ++ [t]) never.
Proof. intros Hdf h ->. unfold df_copy. by rewrite Hdf. Qed.

Lemma on_frame_spec {A} h0 df t hl0 (body : V A) (Q : A → vstate → Prop) E :
  h0 !! df = Some t →
  hoare (λ st, st = {| st_df := t; st_hl := hl0 |}) body Q E →
  hoare (λ h, h = h0) (on_frame df hl0 body)
    (λ r h, ∃ st, h = <[df := st_df st]> h0 ∧ r.2 = st_hl st ∧ Q r.1 st)
    (λ e h, ∃ st, h = <[df := st_df st]> h0 ∧ E e st).
Proof.
  intros Hdf Hbody h ->. unfold on_frame. rewrite Hdf.
  specialize (Hbody _ eq_refl).
  destruct (body _) as [[a|e] st]; simpl; eauto.
Qed.

(** The shape shared by the three single-rule validators. *)
Lemma copy_and_run_spec h0 df t (rule : V (list string))
    (Q : list string → vstate → Prop) :
  h0 !! df = Some t →
  hoare (λ st, st = {| st_df := t; st_hl := ∅ |}) rule Q never →
  hoare (λ h, h = h0)
    (df ← df_copy df;
     '(summary, highlights) ← on_frame df ∅ rule;
     mret (df, highlights, summary))
    (allocated h0 (λ out hl s, Q s {| st_df := out; st_hl := hl |}))
    never.
Proof.
  intros Hdf Hrule h ->. unfold mbind, StE_bind, df_copy, on_frame. rewrite Hdf.
  rewrite lookup_app_r, Nat.sub_diag by done. simpl.
  specialize (Hrule _ eq_refl).
  destruct (rule _) as [[summary|e] st]; simpl; [|done].
  exists [], (st_df st). simpl. rewrite app_nil_r.
  split_and!; [|done|by destruct st].
  replace (length h0) with (length h0 + 0)%nat at 1 by lia.
  by rewrite insert_app_r.
Qed.

Lemma validate_final_value_only_spec h0 df t :
  h0 !! df = Some t →
  hoare (λ h, h = h0) (validate_final_value_only df)
    (allocated h0 (outcome final_value_only t)) never.
Proof.
  intros Hdf.
  apply (copy_and_run_spec h0 df t final_value_rule
           (λ s st, outcome final_value_only t (st_df st) (st_hl st) s)); [done|].
  eapply hoare_consequence;
    [apply (hoare_conj _ _ _ _ _
              (final_value_rule_spec {| st_df := t; st_hl := ∅ |})
              (final_value_rule_cells {| st_df := t; st_hl := ∅ |}))|auto| |auto].
  intros s [out hl] [[Ht Hs] Hcells]. by split.
Qed.

Lemma validate_mandatory_only_spec h0 df t :
  h0 !! df = Some t →
  hoare (λ h, h = h0) (validate_mandatory_only df)
    (allocated h0 (outcome mandatory_only t)) never.
Proof.
  intros Hdf.
  apply (copy_and_run_spec h0 df t mandatory_rule
           (λ s st, outcome mandatory_only t (st_df st) (st_hl st) s)); [done|].
  eapply hoare_consequence;
    [apply (hoare_conj _ _ _ _ _
              (mandatory_rule_spec {| st_df := t; st_hl := ∅ |})
              (mandatory_rule_cells {| st_df := t; st_hl := ∅ |}))|auto| |auto].
  intros s [out hl] [[Ht Hs] Hcells]. by split.
Qed.

Lemma validate_dates_only_spec h0 df t :
  h0 !! df = Some t →
  hoare (λ h, h = h0) (validate_dates_only df)
    (allocated h0 (outcome dates_only t)) never.
Proof.
  intros Hdf.
  apply (copy_and_run_spec h0 df t dates_rule
           (λ s st, outcome dates_only t (st_df st) (st_hl st) s)); [done|].
  eapply hoare_consequence;
    [apply (dates_rule_spec {| st_df := t; st_hl := ∅ |})|auto| |auto].
  intros s [out hl] [Ht Hs]. split; [done..|]. intros idx v Hv.
  apply (unchanged_final_value _ _ _ _ idx) in Ht; [|set_solver..].
  simpl in *. by rewrite Ht.
Qed.

(** Two validators in a row, each with its own dict, merged by [update]. *)
Lemma touched_update C1 f1 C2 f2 t t1 t2 hl1 hl2 :
  touched C1 f1 {| st_df := t; st_hl := ∅ |} {| st_df := t1; st_hl := hl1 |} →
  touched C2 f2 {| st_df := t1; st_hl := ∅ |} {| st_df := t2; st_hl := hl2 |} →
  touched (C1 ++ C2) (f1 ++ f2)
    {| st_df := t; st_hl := ∅ |} {| st_df := t2; st_hl := update hl1 hl2 |}.
Proof.
  intros [Hc1 Hn1 _ Hk1 Hv1 Hy1] [Hc2 Hn2 _ Hk2 Hv2 Hy2]. simpl in *.
  unfold update. split; simpl.
  - congruence.
  - congruence.
  - set_solver.
  - intros i c. rewrite dom_union, elem_of_union. intros [Hin|Hin]; right.
    + destruct (Hk2 i c Hin) as [?|(?&?&?)]; [set_solver|].
      rewrite <-Hc1, <-Hn1. set_solver.
    + destruct (Hk1 i c Hin) as [?|(?&?&?)]; set_solver.
  - intros i c. rewrite dom_union, elem_of_union.
    destruct (Hv2 i c) as [Heq|[[??]|?]]; [|set_solver..].
    rewrite Heq. destruct (Hv1 i c) as [?|[[??]|?]]; set_solver.
  - intros k fill [Hk|[_ Hk]]%lookup_union_Some_raw; right.
    + by destruct (Hy2 k fill Hk).
    + by destruct (Hy1 k fill Hk).
Qed.

Lemma insert_last h t out : <[length h := out]> (h ++ [t]) = h ++ [out].
Proof.
  replace (length h) with (length h + 0)%nat at 1 by lia.
  by rewrite insert_app_r.
Qed.

Lemma allocated_lookup h0 Q df hl s h :
  allocated h0 Q (df, hl, s) h →
  ∃ others out,
    h = h0 ++ others ++ [out] ∧ df = length (h0 ++ others) ∧
    h !! df = Some out ∧ Q out hl s.
Proof.
  intros (others & out & -> & Hdf & HQ). simpl in *. subst df.
  exists others, out. split_and!; [done..| |done].
  rewrite app_assoc, lookup_app_r, Nat.sub_diag; done.
Qed.

Lemma validate_all_spec h0 df t :
  h0 !! df = Some t →
  hoare (λ h, h = h0) (validate_all df)
    (allocated h0 (outcome all t))
    (λ e h, extended h0 e h ∧ has_non_finite_approach t).
Proof.
  intros Hdf. unfold validate_all.
  eapply hoare_bind; [by apply hoare_weaken_exn, df_copy_spec|].
  intros df1. apply hoare_pre. intros h1 [-> ->].
  assert ((h0 ++ [t]) !! length h0 = Some t) as Hdf1
    by (by rewrite lookup_app_r, Nat.sub_diag).
  eapply hoare_bind;
    [by apply hoare_weaken_exn, validate_mandatory_only_spec|].
  intros [[df2 hl1] s1]. apply hoare_pre.
  intros h2 (o1 & t1 & -> & Hl2 & Hdf2 & [Ht1 Hs1 Hv1])%allocated_lookup.
  eapply hoare_bind;
    [by apply hoare_weaken_exn, validate_final_value_only_spec|].
  intros [[df3 hl2] s2]. apply hoare_pre.
  intros h3 (o2 & t2 & -> & Hl3 & Hdf3 & [Ht2 Hs2 Hv2])%allocated_lookup.
  eapply hoare_bind;
    [by apply hoare_weaken_exn, validate_dates_only_spec|].
  intros [[df4 hl3] s3]. apply hoare_pre.
  intros h4 (o3 & t3 & -> & Hl4 & Hdf4 & [Ht3 Hs3 Hv3])%allocated_lookup.
  pose proof (touched_update _ _ _ _ _ _ _ _ _
                (touched_update _ _ _ _ _ _ _ _ _ Ht1 Ht2) Ht3) as H123.
  simpl in H123.
  set (hl0 := update (update (update ∅ hl1) hl2) hl3).
  assert (update (update hl1 hl2) hl3 = hl0) as Hhl.
  { unfold hl0, update. by rewrite (right_id_L ∅ (∪)). }
  rewrite Hhl in H123. clearbody hl0.
  intros h ->. unfold mbind, StE_bind, on_frame. rewrite Hdf4.
  pose proof (range_rules_spec {| st_df := t3; st_hl := hl0 |}
                {| st_df := t3; st_hl := hl0 |} eq_refl) as Hr.
  assert (∀ out : DataFrame,
    <[df4 := out]> ((((h0 ++ [t]) ++ o1 ++ [t1]) ++ o2 ++ [t2]) ++ o3 ++ [t3])
    = h0 ++ ([t] ++ o1 ++ [t1] ++ o2 ++ [t2] ++ o3) ++ [out]
    ∧ df4 = length (h0 ++ ([t] ++ o1 ++ [t1] ++ o2 ++ [t2] ++ o3))) as Hheap.
  { intros out. rewrite Hl4, !app_assoc. split; [|done]. apply insert_last. }
  destruct (range_rules _) as [[extra|e] st]; simpl.
  - exists ([t] ++ o1 ++ [t1] ++ o2 ++ [t2] ++ o3), (st_df st).
    destruct (Hheap (st_df st)) as [-> <-]. split_and!; [done..|]. split.
    + simpl. destruct st as [out hl]. simpl.
      eapply touched_trans; [|eapply touched_weaken; [| |exact Hr]].
      * eapply touched_weaken; [| |exact H123]; set_solver.
      * set_solver.
      * set_solver.
    + simpl. destruct Hs1 as (l1 & -> & ?), Hs2 as (l2 & -> & ?).
      exists l1, l2, s3, ("Additional rule violations: " +:+ pretty extra).
      split_and!; [done..| |by exists extra].
      pose proof (touched_columns _ _ _ _ Ht1) as Hc1.
      pose proof (touched_columns _ _ _ _ Ht2) as Hc2.
      simpl in Hs3, Hc1, Hc2. unfold frame_has in *.
      by rewrite Hc2, Hc1 in Hs3.
    + intros idx v Hv. destruct st as [out hl]. simpl in *.
      apply (unchanged_final_value _ _ _ _ idx) in Hr; [|set_solver..].
      simpl in Hr. rewrite Hr. by apply Hv3, Hv2, Hv1.
  - split.
    + exists (([t] ++ o1 ++ [t1] ++ o2 ++ [t2] ++ o3) ++ [st_df st]).
      by destruct (Hheap (st_df st)) as [-> _].
    + destruct Hr as (i & v & Hv & Hbad). exists i, v. split; [|done].
      rewrite <-Hv. symmetry.
      destruct (touched_cells _ _ _ _ H123 i "market_approach")
        as [?|[[_ Hin]|Hin]]; [done|..]; by vm_compute in Hin; set_solver.
Qed.
End heap.

Section runs.
Context {pandas : Pandas}.

(** Every profile allocates its result; only [all] can raise. *)
Lemma validate_spec p h0 df t :
  h0 !! df = Some t →
  hoare (λ h, h = h0) (validate p df)
    (allocated h0 (outcome p t))
    (λ e h, p = all ∧ extended h0 e h ∧ has_non_finite_approach t).
Proof.
  intros Hdf. destruct p; simpl.
  - eapply hoare_consequence;
      [by apply validate_final_value_only_spec|auto..]. by intros.
  - eapply hoare_consequence;
      [by apply validate_mandatory_only_spec|auto..]. by intros.
  - eapply hoare_consequence;
      [by apply validate_dates_only_spec|auto..]. by intros.
  - eapply hoare_consequence; [by apply validate_all_spec|auto..].
Qed.

Lemma run_spec p t :
  match run p t with
  | Ok (out, highlights, summary) => outcome p t out highlights summary
  | Raise _ => p = all ∧ has_non_finite_approach t
  end.
Proof.
  unfold run.
  pose proof (validate_spec p [t] 0%nat t eq_refl [t] eq_refl) as Hv.
  destruct (validate p 0%nat [t]) as [[[[df hl] s]|e] h]; [|by destruct Hv as (?&?&?)].
  apply allocated_lookup in Hv as (others & out & -> & _ & -> & Hout).
  done.
Qed.

End runs.

(** * The value coercions *)

(** C5. [is_empty] is true for [None], for NaN, and for every string that
    is empty or consists of white space only; it is false for the string
    "0", for every case variant of "N/A", and for every other string that
    is not blank. *)
Theorem C5_is_empty :
  is_empty VNone = true ∧
  is_empty VNaN = true ∧
  (∀ s, is_empty (VStr s) = whitespace_only s) ∧
  is_empty (VStr "0") = false ∧
  (∀ s, Str.lower s = "n/a" → is_empty (VStr s) = false).
Proof.
  split_and!; try done.
  - apply is_empty_str.
  - intros s Hs. by rewrite is_empty_str, lower_na_not_blank.
Qed.

Lemma C5_is_empty_witness :
  Str.lower "N/a" = "n/a" ∧ is_empty (VStr "N/a") = false.
Proof.
  split; [reflexivity|].
  apply (proj2 (proj2 (proj2 (proj2 C5_is_empty)))). reflexivity.
Defined.

(** C6. [to_int] fails on every empty value; otherwise it trims the text,
    strips one trailing ".0", fails when a decimal point remains or when
    the rest is not an integer numeral, and succeeds with the integer
    read otherwise. A success means that the text is made of digits,
    underscores, a sign and white space only. The white space [int]
    accepts after the numeral is not all of that of [strip]: a numeral
    followed by U+001C and ".0" is not an integer, one followed by
    U+00A0 and ".0" is. *)
Theorem C6_to_int :
  (∀ v, is_empty v = true → to_int v = Ok (false, None)) ∧
  (∀ v, to_int v = Ok (toInteger v)) ∧
  (∀ v n, to_int v = Ok (true, Some n) →
     is_empty v = false ∧ has_point (integer_text v) = false ∧
     all_chars numeric_char (integer_text v) = true ∧
     Num.int_of_str (integer_text v) = Ok n) ∧
  to_int (VStr "97000") = Ok (true, Some 97000) ∧
  to_int (VStr "97000.5") = Ok (false, None) ∧
  to_int (VStr "97000.0") = Ok (true, Some 97000) ∧
  to_int (VStr ("12" +:+ String "028" ".0")) = Ok (false, None) ∧
  to_int (VStr ("12" +:+ String "160" ".0")) = Ok (true, Some 12).
Proof.
  split_and!; try done.
  - intros v Hv. unfold to_int. by rewrite Hv.
  - apply to_int_toInteger.
  - intros v n. rewrite to_int_toInteger. unfold toInteger.
    fold (integer_text v).
    destruct (is_empty v); [done|].
    destruct (has_point (integer_text v)); [done|].
    destruct (Num.int_of_str (integer_text v)) as [m|] eqn:Hm; [|done].
    intros [= <-]. split_and!; try done. by eapply int_of_str_numeric.
Qed.

Lemma C6_to_int_witness :
  is_empty VNaN = true ∧ to_int VNaN = Ok (false, None).
Proof.
  split; [reflexivity|]. apply (proj1 C6_to_int). reflexivity.
Defined.

(** C7. The three coercions are total: on every value each returns a
    pair, never an exception, and a failure is the pair [(False, None)]. *)
Theorem C7_coercions_total {pandas : Pandas} (v : value) :
  (to_int v = Ok (false, None) ∨ ∃ n, to_int v = Ok (true, Some n)) ∧
  (to_float v = Ok (false, None) ∨ ∃ x, to_float v = Ok (true, Some x)) ∧
  (parse_and_format_date v = Ok (false, None) ∨
   ∃ formatted, parse_and_format_date v = Ok (true, Some formatted)).
Proof.
  split_and!.
  - rewrite to_int_toInteger. unfold toInteger. repeat case_match; eauto.
  - unfold to_float. destruct (is_empty v); [by left|].
    destruct (Num.float_of_str _); simpl; eauto.
  - unfold parse_and_format_date. destruct (is_empty v); [by left|].
    destruct (to_datetime _) as [dt|]; simpl; [|by left].
    destruct (strftime dt); simpl; eauto.
Qed.

(** * The approach code *)

(** C2. The approach code of the mandatory rule and that of the
    cross-field rule agree on every raw cell: an empty cell gives 0, any
    other cell gives the truncated float it reads as, and [None] when it
    does not read as a float or the float has no integer part. *)
Theorem C2_approach_codes_agree (approach_raw : value) :
  approach_mandatory (Ok approach_raw) = approach_cross approach_raw ∧
  approach_cross approach_raw =
    if is_empty approach_raw then Some 0
    else
      match Num.float_of_str (Str.strip (str approach_raw)) with
      | Ok x =>
          match Num.int_of_float x with
          | Ok n => Some n
          | Raise _ => None
          end
      | Raise _ => None
      end.
Proof.
  unfold approach_mandatory, approach_cross, approach_number. simpl.
  destruct (is_empty approach_raw); [done|]. simpl.
  destruct (Num.float_of_str _) as [x|]; simpl; [|done].
  by destruct (Num.int_of_float x).
Qed.

Example approach_code_examples :
  approach_cross VNaN = Some 0 ∧
  approach_cross (VStr " 1.9 ") = Some 1 ∧
  approach_cross (VStr "2") = Some 2 ∧
  approach_cross (VStr "abc") = None ∧
  approach_cross (VStr "inf") = None.
Proof. by vm_compute. Qed.

(** * The profiles *)

Section profiles.
Context {pandas : Pandas}.
Implicit Types (t out : DataFrame) (p : profile).

(** C8. A profile leaves the frame it is given, and every other frame
    of the heap, as it was; the frame it returns is a new object. Only
    the [all] profile can end with an exception. *)
Theorem C8_input_unchanged p (h : heap) (df : loc) t :
  h !! df = Some t →
  match validate p df h with
  | (r, h') =>
      h' !! df = Some t ∧
      (∀ l x, h !! l = Some x → h' !! l = Some x) ∧
      match r with
      | Ok (df', _, _) => df' ≠ df ∧ h !! df' = None ∧ is_Some (h' !! df')
      | Raise _ => p = all ∧ has_non_finite_approach t
      end
  end.
Proof.
  intros Hdf. pose proof (validate_spec p h df t Hdf h eq_refl) as Hv.
  destruct (validate p df h) as [[[[df' hl] s]|e] h'].
  - apply allocated_lookup in Hv as (others & out & -> & -> & Hout & _).
    assert (∀ l x, h !! l = Some x → (h ++ others ++ [out]) !! l = Some x) as Hold.
    { intros l x Hl. by apply lookup_app_l_Some. }
    split_and!; [by apply Hold|done| | |by eexists].
    + apply lookup_lt_Some in Hdf. rewrite length_app. lia.
    + apply lookup_ge_None. rewrite length_app. lia.
  - destruct Hv as (-> & [new ->] & Hbad).
    assert (∀ l x, h !! l = Some x → (h ++ new) !! l = Some x) as Hold.
    { intros l x Hl. by apply lookup_app_l_Some. }
    split_and!; [by apply Hold|done..].
Qed.

(** C10. In the table a profile returns, a cell that is not highlighted
    and not in the [inspection_date] column holds the value it had in
    the input; the table has the columns and the number of rows of the
    input. *)
Theorem C10_unflagged_cells_unchanged p t out highlights summary :
  run p t = Ok (out, highlights, summary) →
  columns out = columns t ∧ length (rows out) = length (rows t) ∧
  ∀ i c, (i, c) ∉ dom highlights → c ≠ "inspection_date" →
    frame_at out i c = frame_at t i c.
Proof.
  intros Hrun. pose proof (run_spec p t) as Hspec. rewrite Hrun in Hspec.
  destruct Hspec as [[Hc Hn _ _ Hv] _]. simpl in *. split_and!; [done..|].
  intros i c Hhl Hdate. destruct (Hv i c) as [?|[[??]|Hfix]]; [done..|].
  destruct p; set_solver.
Qed.

(** C3, as the code has it. The summary of a profile that returns is:
    one count line for [final_value_only] and for [mandatory_only]; for
    [dates_only] the line on a missing column when the column is absent,
    the count of invalid dates, and the count of reformatted dates when
    it is not zero; for [all] the lines of these three groups in the
    order mandatory, final value, dates, followed by one count line for
    the five additional checks together. The single-rule profiles always
    return. *)
Theorem C3_summary_lines p t :
  match run p t with
  | Ok (_, _, summary) => summary_of p t summary
  | Raise _ => p = all ∧ has_non_finite_approach t
  end.
Proof.
  pose proof (run_spec p t) as Hspec.
  destruct (run p t) as [[[out hl] s]|e]; [|done]. by destruct Hspec.
Qed.

Lemma count_line_not_missing label line :
  label ∈ ["Missing mandatory values"; "Final Value issues";
           "Additional rule violations"] →
  count_line label line → line ≠ "Column 'inspection_date' is missing".
Proof.
  intros Hl [n ->] Heq.
  repeat (apply elem_of_cons in Hl as [->|Hl]); [done..|].
  by apply elem_of_nil in Hl.
Qed.

Lemma dates_summary_missing present summary :
  dates_summary present summary →
  "Column 'inspection_date' is missing" ∈ summary ↔ present = false.
Proof.
  intros (n & m & ->). destruct present; simpl.
  - split; [|done]. case_bool_decide; set_solver.
  - split; [done|]. set_solver.
Qed.

Lemma run_final_value_only_absent t :
  "final_value" ∉ columns t →
  run final_value_only t = Ok (t, ∅, ["Final Value issues: 0"]).
Proof.
  intros Hcol. unfold run, validate, validate_final_value_only.
  unfold mbind, StE_bind, df_copy, on_frame, final_value_rule. simpl.
  unfold mbind, StE_bind, has_column, gets, frame_has. simpl.
  rewrite bool_decide_eq_false_2 by done. simpl. by destruct t.
Qed.

(** C4, as the code has it. A profile flags no cell of a column that the
    table lacks, and every rule group still contributes its count line.
    The only line on a missing column is that of the date rule, which
    appears exactly when [inspection_date] is absent and the profile is
    [dates_only] or [all]. On a table without [final_value], the profile
    [final_value_only] returns the table as it is, with no highlight and
    the one line "Final Value issues: 0". *)
Theorem C4_absent_columns p t :
  match run p t with
  | Ok (out, highlights, summary) =>
      (∀ i col, col ∉ columns t → (i, col) ∉ dom highlights) ∧
      summary_of p t summary ∧
      ("Column 'inspection_date' is missing" ∈ summary ↔
         (p = dates_only ∨ p = all) ∧ "inspection_date" ∉ columns t)
  | Raise _ => p = all ∧ has_non_finite_approach t
  end ∧
  ("final_value" ∉ columns t →
     run final_value_only t = Ok (t, ∅, ["Final Value issues: 0"])).
Proof.
  split; [|apply run_final_value_only_absent].
  pose proof (run_spec p t) as Hspec.
  destruct (run p t) as [[[out hl] s]|e]; [|done].
  destruct Hspec as [[_ _ _ Hk _] Hs]. simpl in *. split_and!; [|done|].
  - intros i col Hcol Hin. destruct (Hk i col Hin) as [?|(_ & ? & _)]; set_solver.
  - assert (frame_has t "inspection_date" = false ↔ "inspection_date" ∉ columns t)
      as Hhas.
    { unfold frame_has. by rewrite bool_decide_eq_false. }
    destruct p; simpl in Hs.
    + destruct Hs as (line & -> & Hline).
      split; [|naive_solver]. intros <-%list_elem_of_singleton.
      by eapply count_line_not_missing in Hline; [|set_solver].
    + destruct Hs as (line & -> & Hline).
      split; [|naive_solver]. intros <-%list_elem_of_singleton.
      by eapply count_line_not_missing in Hline; [|set_solver].
    + rewrite dates_summary_missing by done. naive_solver.
    + destruct Hs as (l1 & l2 & sd & l4 & -> & H1 & H2 & Hd & H4).
      simpl. rewrite !elem_of_cons, elem_of_app, list_elem_of_singleton,
        dates_summary_missing by done.
      split; [|naive_solver].
      intros [<-|[<-|[?|<-]]]; [| |naive_solver|].
      * by eapply count_line_not_missing in H1; [|set_solver].
      * by eapply count_line_not_missing in H2; [|set_solver].
      * by eapply count_line_not_missing in H4; [|set_solver].
Qed.

End profiles.

(** * The model on the example tables *)

Import Examples.

(** C1. On a table whose second row has an empty [final_value], the
    [all] profile leaves in that cell the message of the mandatory rule
    followed by "Final value must be a non-decimal integer": the final
    value rule reads the message the mandatory rule wrote, not the empty
    cell. Run alone, the final value rule writes "final_value is
    mandatory and cannot be empty". *)
Theorem C1_empty_final_value_under_all :
  frame_at empty_final_value 1 "final_value" = Ok VNaN ∧
  is_empty VNaN = true ∧
  cell_of (check all empty_final_value) 1 "final_value" =
    Ok (VStr "This mandatory field is empty | Final value must be a non-decimal integer") ∧
  cell_of (check mandatory_only empty_final_value) 1 "final_value" =
    Ok (VStr "This mandatory field is empty") ∧
  cell_of (check final_value_only empty_final_value) 1 "final_value" =
    Ok (VStr "final_value is mandatory and cannot be empty").
Proof. by vm_compute. Qed.

(** C3 as stated fails: on a table with one valid row the [all] profile
    returns five summary lines, not eight. *)
Lemma C3_counterexample :
  summary_lines (check all valid_table) =
    Some [ "Missing mandatory values: 0"; "Final Value issues: 0";
           "Invalid dates: 0"; "Dates auto-formatted: 1";
           "Additional rule violations: 0" ] ∧
  ¬ (∃ summary, summary_lines (check all valid_table) = Some summary ∧
                length summary = 8%nat).
Proof.
  assert (summary_lines (check all valid_table) =
    Some [ "Missing mandatory values: 0"; "Final Value issues: 0";
           "Invalid dates: 0"; "Dates auto-formatted: 1";
           "Additional rule violations: 0" ]) as Hrun by (by vm_compute).
  split; [done|]. rewrite Hrun. by intros (summary & [= <-] & ?).
Qed.

(** C4 as stated fails: without [final_value], the profile
    [final_value_only] emits its count line and no line on the missing
    column; without [inspection_date], the profile [all] does emit the
    line on the missing column. *)
Lemma C4_counterexample :
  summary_lines (check final_value_only (without "final_value" valid_table)) =
    Some ["Final Value issues: 0"] ∧
  summary_lines (check all (without "inspection_date" valid_table)) =
    Some [ "Missing mandatory values: 0"; "Final Value issues: 0";
           "Column 'inspection_date' is missing"; "Invalid dates: 0";
           "Additional rule violations: 0" ].
Proof. by vm_compute. Qed.

(** The [all] profile raises on a [market_approach] cell that reads as
    an infinite float: [int(fval)] is outside any [try]. *)
Example all_raises_on_infinite_approach :
  check all infinite_approach = Raise OverflowError.
Proof. by vm_compute. Qed.

Lemma C8_input_unchanged_witness :
  [valid_table] !! 0%nat = Some valid_table ∧
  (validate (pandas := ExampleDates.pandas) all 0%nat [valid_table]).2 !! 0%nat
    = Some valid_table.
Proof.
  split; [reflexivity|].
  pose proof (C8_input_unchanged (pandas := ExampleDates.pandas)
                all [valid_table] 0%nat valid_table eq_refl) as Hw.
  destruct (validate all 0%nat [valid_table]) as [r h']. exact (proj1 Hw).
Defined.

Lemma C10_unflagged_cells_unchanged_witness :
  check all empty_final_value =
    Ok (annotated_empty_final_value, highlights_empty_final_value,
        summary_empty_final_value) ∧
  ((1%nat, "owner_name") ∉ dom highlights_empty_final_value) ∧
  "owner_name" ≠ "inspection_date" ∧
  frame_at annotated_empty_final_value 1 "owner_name"
    = frame_at empty_final_value 1 "owner_name".
Proof.
  assert (check all empty_final_value =
    Ok (annotated_empty_final_value, highlights_empty_final_value,
        summary_empty_final_value)) as Hrun by (vm_compute; reflexivity).
  assert ((1%nat, "owner_name") ∉ dom highlights_empty_final_value) as Hhl
    by (apply (bool_decide_unpack _); vm_compute; exact I).
  assert ("owner_name" ≠ "inspection_date") as Hcol by discriminate.
  split_and!; [done..|].
  exact (proj2 (proj2 (C10_unflagged_cells_unchanged (pandas := ExampleDates.pandas)
           all empty_final_value _ _ _ Hrun)) 1%nat "owner_name" Hhl Hcol).
Defined.

Lemma C4_absent_columns_witness :
  ("final_value" ∉ columns (without "final_value" valid_table)) ∧
  check final_value_only (without "final_value" valid_table)
    = Ok (without "final_value" valid_table, ∅, ["Final Value issues: 0"]).
Proof.
  assert ("final_value" ∉ columns (without "final_value" valid_table)) as Hcol
    by (apply (bool_decide_unpack _); vm_compute; exact I).
  split; [done|].
  exact (proj2 (C4_absent_columns (pandas := ExampleDates.pandas)
                  final_value_only (without "final_value" valid_table)) Hcol).
Defined.

(** * The rules, cell by cell *)

Section column_rules.
Implicit Types (t : DataFrame) (st : vstate).

Lemma apply_effect_at st idx col existing e i c :
  frame_at (st_df st) idx col = Ok existing →
  frame_at (st_df (apply_effect st idx col existing e)) i c =
    if decide ((i, c) = (idx, col)) then Ok (cell_after existing e)
    else frame_at (st_df st) i c.
Proof.
  intros Hat. destruct e as [|msg|v]; simpl.
  - case_decide as Heq; [|done]. by injection Heq as -> ->.
  - by apply flagged_at.
  - apply frame_at_Ok in Hat as [??]. case_decide as Heq.
    + injection Heq as -> ->. by apply frame_at_set_eq.
    + by apply frame_at_set_ne.
Qed.

Lemma apply_effect_highlights st idx col existing e k :
  k ∈ dom (st_hl (apply_effect st idx col existing e)) ↔
  k ∈ dom (st_hl st) ∨ (k = (idx, col) ∧ is_flag e = true).
Proof.
  destruct e as [|msg|v]; simpl; [naive_solver| |naive_solver].
  rewrite dom_insert, elem_of_union, elem_of_singleton. naive_solver.
Qed.

Lemma apply_effect_size st idx col existing e :
  (idx, col) ∉ dom (st_hl st) →
  size (st_hl (apply_effect st idx col existing e)) =
    (size (st_hl st) + if is_flag e then 1 else 0)%nat.
Proof.
  intros Hnew. destruct e as [|msg|v]; simpl; [lia| |lia].
  rewrite map_size_insert_None; [lia|]. by apply not_elem_of_dom.
Qed.

Lemma same_elsewhere_refl col st : same_elsewhere col st st.
Proof. by split_and!. Qed.

Lemma apply_effect_elsewhere col st0 st idx existing e :
  frame_at (st_df st) idx col = Ok existing →
  same_elsewhere col st0 st →
  same_elsewhere col st0 (apply_effect st idx col existing e).
Proof.
  intros Hat (Hc & Hn & Hv). split_and!.
  - by destruct e.
  - destruct e; simpl; by rewrite ?length_alter.
  - intros i c Hne. rewrite apply_effect_at by done.
    case_decide; [congruence|by apply Hv].
Qed.

(** A loop of a column rule over the items of the column. *)
Lemma column_rule_loop {B} st0 col w count (body : nat * value → B → V B) :
  column_rule st0 col w count body →
  ∀ done rest acc st,
    same_elsewhere col st0 st →
    NoDup (done ++ rest).*1 →
    (∀ row, row ∈ done →
       frame_at (st_df st) row.1 col = Ok (cell_after row.2 (w row.1 row.2))) →
    (∀ row, row ∈ rest →
       frame_at (st_df st) row.1 col = Ok row.2 ∧ (row.1, col) ∉ dom (st_hl st)) →
    ∃ st',
      for_each rest body acc st
        = (Ok (fold_left (λ b row, count (w row.1 row.2) b) rest acc), st') ∧
      same_elsewhere col st0 st' ∧
      (∀ row, row ∈ done ++ rest →
         frame_at (st_df st') row.1 col = Ok (cell_after row.2 (w row.1 row.2))) ∧
      (∀ k, k ∈ dom (st_hl st') ↔
            k ∈ dom (st_hl st) ∨
            ∃ row, row ∈ rest ∧ k = (row.1, col) ∧ is_flag (w row.1 row.2) = true) ∧
      size (st_hl st') = (size (st_hl st) + flags w rest)%nat.
Proof.
  intros Hbody done rest. revert done.
  induction rest as [|[idx val] rest IH]; intros done acc st Hsame Hnodup Hdone Hrest.
  - exists st. split_and!; [done|done| |set_solver|unfold flags; simpl; lia].
    rewrite app_nil_r. auto.
  - destruct (Hrest (idx, val)) as [Hcur Hnew]; [by left|]. simpl in Hcur, Hnew.
    pose proof (Hbody idx val acc st Hsame Hcur) as Hrun.
    set (st1 := apply_effect st idx col val (w idx val)) in *.
    rewrite fmap_app, fmap_cons in Hnodup. simpl in Hnodup.
    apply NoDup_app in Hnodup as (Hnd1 & Hdisj & [Hnotin Hnd2]%NoDup_cons).
    destruct (IH (done ++ [(idx, val)]) (count (w idx val) acc) st1)
      as (st' & Hloop & Hsame' & Hall & Hdom & Hsize).
    + by apply apply_effect_elsewhere.
    + rewrite <-app_assoc. simpl. rewrite fmap_app, fmap_cons. simpl.
      apply NoDup_app. split_and!; [done|done|by apply NoDup_cons].
    + intros row [Hrow|Hrow%list_elem_of_singleton]%elem_of_app.
      * unfold st1. rewrite apply_effect_at by done.
        case_decide as Heq; [|by apply Hdone].
        exfalso. apply (Hdisj idx); [|by left].
        apply list_elem_of_fmap. exists row. split; [congruence|done].
      * subst row. unfold st1. rewrite apply_effect_at by done. by case_decide.
    + intros row Hrow. destruct (Hrest row) as [Hat Hhl]; [by right|].
      assert (row.1 ≠ idx) as Hne.
      { intros Heq. apply Hnotin. apply list_elem_of_fmap. by exists row. }
      split.
      * unfold st1. rewrite apply_effect_at by done. case_decide; [congruence|done].
      * unfold st1. rewrite apply_effect_highlights. naive_solver.
    + exists st'. split_and!.
      * simpl. by rewrite bind_run, Hrun.
      * done.
      * intros row Hrow. apply Hall. by rewrite <-app_assoc.
      * intros k. rewrite Hdom. unfold st1. rewrite apply_effect_highlights.
        split.
        -- intros [[?|[-> ?]]|(row & ? & ? & ?)]; [by left|right..].
           ++ exists (idx, val). split_and!; [by left|done..].
           ++ exists row. split_and!; [by right|done..].
        -- intros [?|(row & [->|?]%elem_of_cons & -> & ?)]; [by left; left| |].
           ++ left. by right.
           ++ right. by exists row.
      * rewrite Hsize. unfold st1. rewrite apply_effect_size by done.
        unfold flags. rewrite filter_cons. simpl.
        case_decide as Hflag; destruct (is_flag (w idx val)); simpl; try done; lia.
Qed.

(** The same, from the frame at the start of the loop. *)
Lemma column_rule_run {B} col w count (body : nat * value → B → V B) acc st items :
  column_rule st col w count body →
  frame_items (st_df st) col = Ok items →
  (∀ idx, (idx, col) ∉ dom (st_hl st)) →
  ∃ st',
    for_each items body acc st
      = (Ok (fold_left (λ b row, count (w row.1 row.2) b) items acc), st') ∧
    same_elsewhere col st st' ∧
    (∀ idx v, frame_at (st_df st) idx col = Ok v →
       frame_at (st_df st') idx col = Ok (cell_after v (w idx v))) ∧
    (∀ k, k ∈ dom (st_hl st') ↔
          k ∈ dom (st_hl st) ∨
          ∃ v, frame_at (st_df st) k.1 col = Ok v ∧ k.2 = col
               ∧ is_flag (w k.1 v) = true) ∧
    size (st_hl st') = (size (st_hl st) + flags w items)%nat.
Proof.
  intros Hbody Hitems Hnew.
  destruct (column_rule_loop st col w count body Hbody [] items acc st)
    as (st' & Hrun & Hsame & Hall & Hdom & Hsize).
  - apply same_elsewhere_refl.
  - simpl. rewrite (frame_items_indices _ _ _ Hitems). apply NoDup_seq.
  - intros row []%elem_of_nil.
  - intros row Hrow. split; [by eapply frame_items_at|done].
  - exists st'. split_and!; [done|done| | |done].
    + intros idx v Hv. apply (Hall (idx, v)). simpl. by eapply frame_items_elem.
    + intros k. rewrite Hdom. split.
      * intros [?|(row & Hrow & -> & ?)]; [by left|right].
        exists row.2. split_and!; [by eapply frame_items_at|done..].
      * intros [?|(v & Hv & Hcol & ?)]; [by left|right].
        exists (k.1, v). split_and!; [by eapply frame_items_elem| |done].
        destruct k; simpl in *; by subst.
Qed.

End column_rules.

Section single_rules.
Context {pandas : Pandas}.
Implicit Types (t : DataFrame) (st : vstate).

Lemma run_single p t :
  p ≠ all →
  run p t = run_rule match p with
                     | final_value_only => final_value_rule
                     | mandatory_only => mandatory_rule
                     | _ => dates_rule
                     end t.
Proof.
  intros Hp. unfold run, run_rule.
  destruct p; [| | |done]; simpl;
    unfold validate_final_value_only, validate_mandatory_only, validate_dates_only;
    unfold mbind at 1, StE_bind at 1, df_copy; simpl;
    unfold mbind at 1, StE_bind at 1, on_frame; simpl.
  - by destruct (final_value_rule _) as [[?|?] ?].
  - by destruct (mandatory_rule _) as [[?|?] ?].
  - by destruct (dates_rule _) as [[?|?] ?].
Qed.

Lemma fold_count_flag w (items : list (nat * value)) n :
  fold_left (λ b row, count_flag (w row.1 row.2) b) items n = (n + flags w items)%nat.
Proof.
  revert n. induction items as [|row items IH]; intros n; [unfold flags; simpl; lia|].
  simpl. rewrite IH. unfold flags, count_flag. rewrite filter_cons.
  case_decide; destruct (is_flag _); simpl; try done; lia.
Qed.

Lemma fold_count_date w (items : list (nat * value)) counts :
  fold_left (λ b row, count_date (w row.1 row.2) b) items counts
    = ((counts.1 + flags w items)%nat, (counts.2 + rewrites w items)%nat).
Proof.
  revert counts. induction items as [|row items IH]; intros [n m].
  { unfold flags, rewrites. simpl. f_equal; lia. }
  simpl. rewrite IH. unfold flags, rewrites, count_date. rewrite !filter_cons.
  destruct (w row.1 row.2); simpl; repeat case_decide; simpl; try done; f_equal; lia.
Qed.

Lemma final_value_row_rule st0 :
  column_rule st0 "final_value" (λ _, final_value_effect) count_flag final_value_row.
Proof.
  intros idx val b st _ Hat. unfold final_value_row, final_value_effect, final_value_message.
  destruct (is_empty val).
  - unfold mbind at 1, StE_bind, lift. simpl.
    unfold mbind, StE_bind. by rewrite (flag_run _ _ _ _ val).
  - destruct (to_int_returns val) as (ok & n & ->). simpl.
    unfold mbind at 1, StE_bind, lift. destruct ok; simpl; [done|].
    unfold mbind, StE_bind. by rewrite (flag_run _ _ _ _ val).
Qed.

Lemma dates_row_rule st0 :
  column_rule st0 "inspection_date" (λ _, dates_effect) count_date dates_row.
Proof.
  intros idx val [invalid_count auto_fixed] st _ Hat. unfold dates_row, dates_effect.
  assert ((flag idx "inspection_date" date_message;;
           mret (S invalid_count, auto_fixed)) st
          = (Ok (S invalid_count, auto_fixed),
             flagged st idx "inspection_date" val date_message)) as Hflag.
  { unfold mbind, StE_bind. by rewrite (flag_run _ _ _ _ val). }
  destruct (is_empty val); [done|].
  destruct (parse_and_format_date_returns val) as (ok & f & ->).
  unfold mbind at 1, StE_bind at 1, lift.
  destruct f as [formatted|]; [|by destruct ok].
  destruct ok; simpl; [|done].
  destruct (Str.truthy formatted); [done|done].
Qed.

End single_rules.

Section single_results.
Context {pandas : Pandas}.
Implicit Types (t : DataFrame) (st : vstate).

Lemma frame_items_has t col :
  frame_has t col = true → ∃ items, frame_items t col = Ok items.
Proof. unfold frame_items. intros ->. eauto. Qed.

Lemma frame_items_length t col items :
  frame_items t col = Ok items → length items = length (rows t).
Proof.
  intros Hitems. apply frame_items_indices in Hitems.
  by rewrite <-(length_fmap fst), Hitems, length_seq.
Qed.

Lemma flags_le w (items : list (nat * value)) : (flags w items ≤ length items)%nat.
Proof. apply length_filter. Qed.

(** The final value rule on a table. *)
Lemma final_value_rule_result t :
  ∃ st,
    final_value_rule {| st_df := t; st_hl := ∅ |}
      = (Ok ["Final Value issues: " +:+ pretty (size (st_hl st))], st) ∧
    (size (st_hl st) ≤ length (rows t))%nat ∧
    (∀ i c, (i, c) ∈ dom (st_hl st) ↔
       c = "final_value" ∧
       ∃ v, frame_at t i c = Ok v ∧ is_flag (final_value_effect v) = true) ∧
    (∀ i v, frame_at t i "final_value" = Ok v →
       frame_at (st_df st) i "final_value" = Ok (cell_after v (final_value_effect v))) ∧
    (∀ i c, c ≠ "final_value" → frame_at (st_df st) i c = frame_at t i c) ∧
    length (rows (st_df st)) = length (rows t) ∧
    columns (st_df st) = columns t.
Proof.
  unfold final_value_rule.
  rewrite bind_run. unfold has_column at 1, gets at 1. simpl.
  destruct (frame_has t "final_value") eqn:Hcol.
  - destruct (frame_items_has _ _ Hcol) as [items Hitems].
    rewrite !bind_run. unfold df_items at 1. simpl. rewrite Hitems.
    destruct (column_rule_run "final_value" (λ _, final_value_effect) count_flag
                final_value_row 0%nat {| st_df := t; st_hl := ∅ |} items
                (final_value_row_rule _) Hitems)
      as (st' & Hrun & (Hcols & Hrows & Hsame) & Hcells & Hdom & Hsize).
    { intros idx. set_solver. }
    rewrite Hrun, (fold_count_flag (λ _, final_value_effect)). simpl in *.
    rewrite map_size_empty in Hsize.
    exists st'. rewrite Hsize. split_and!; [done| | |done|done|done|done].
    + rewrite <-(frame_items_length _ _ _ Hitems). apply flags_le.
    + intros i c. rewrite Hdom. simpl. split.
      * intros [[]%elem_of_empty|(v & ? & -> & ?)]. eauto.
      * intros (-> & v & ? & ?). right. eauto.
  - exists {| st_df := t; st_hl := ∅ |}. simpl. rewrite map_size_empty.
    split_and!; [done|lia| | |done|done|done].
    + intros i c. split; [set_solver|]. intros (-> & v & [Hin _]%frame_at_Ok & _).
      unfold frame_has in Hcol. by apply bool_decide_eq_false in Hcol.
    + intros i v [Hin _]%frame_at_Ok.
      unfold frame_has in Hcol. by apply bool_decide_eq_false in Hcol.
Qed.

(** The date rule on a table, with or without the column. *)
Lemma dates_rule_result t :
  ∃ st auto_fixed,
    dates_rule {| st_df := t; st_hl := ∅ |}
      = (Ok ((if frame_has t "inspection_date" then []
              else ["Column 'inspection_date' is missing"])
             ++ ["Invalid dates: " +:+ pretty (size (st_hl st))]
             ++ (if bool_decide (auto_fixed ≠ 0%nat)
                 then ["Dates auto-formatted: " +:+ pretty auto_fixed] else [])),
         st) ∧
    (size (st_hl st) + auto_fixed
     = if frame_has t "inspection_date" then length (rows t) else 0)%nat ∧
    (∀ i c, (i, c) ∈ dom (st_hl st) ↔
       c = "inspection_date" ∧
       ∃ v, frame_at t i c = Ok v ∧ is_flag (dates_effect v) = true) ∧
    (∀ i v, frame_at t i "inspection_date" = Ok v →
       frame_at (st_df st) i "inspection_date" = Ok (cell_after v (dates_effect v))) ∧
    (∀ i c, c ≠ "inspection_date" → frame_at (st_df st) i c = frame_at t i c) ∧
    length (rows (st_df st)) = length (rows t) ∧
    columns (st_df st) = columns t.
Proof.
  unfold dates_rule.
  unfold mbind, StE_bind, has_column, gets, df_items. simpl.
  destruct (frame_has t "inspection_date") eqn:Hcol.
  - destruct (frame_items_has _ _ Hcol) as [items Hitems].
    change (st_df {| st_df := t; st_hl := ∅ |}) with t. rewrite Hitems.
    destruct (column_rule_run "inspection_date" (λ _, dates_effect) count_date
                dates_row (0%nat, 0%nat) {| st_df := t; st_hl := ∅ |} items
                (dates_row_rule _) Hitems)
      as (st' & Hrun & (Hcols & Hrows & Hsame) & Hcells & Hdom & Hsize).
    { intros idx. set_solver. }
    rewrite Hrun, (fold_count_date (λ _, dates_effect)). simpl in *.
    rewrite map_size_empty in Hsize.
    exists st', (rewrites (λ _, dates_effect) items).
    rewrite Hsize. simpl.
    split_and!; [by case_bool_decide| | |done|done|done|done].
    + rewrite <-(frame_items_length _ _ _ Hitems). unfold flags, rewrites. simpl.
      clear. induction items as [|row items IH]; [done|].
      rewrite !filter_cons. simpl.
      assert (is_flag (dates_effect row.2) = negb (is_rewrite (dates_effect row.2))) as ->.
      { unfold dates_effect. repeat case_match; done. }
      repeat case_decide; destruct (is_rewrite _); simpl in *; try done; lia.
    + intros i c. rewrite Hdom. simpl. split.
      * intros [[]%elem_of_empty|(v & ? & -> & ?)]. eauto.
      * intros (-> & v & ? & ?). right. eauto.
  - exists {| st_df := t; st_hl := ∅ |}, 0%nat. simpl. rewrite map_size_empty.
    split_and!; [done|done| | |done|done|done].
    + intros i c. split; [set_solver|]. intros (-> & v & [Hin _]%frame_at_Ok & _).
      unfold frame_has in Hcol. by apply bool_decide_eq_false in Hcol.
    + intros i v [Hin _]%frame_at_Ok.
      unfold frame_has in Hcol. by apply bool_decide_eq_false in Hcol.
Qed.

(** X1. The [final_value_only] profile always returns. It highlights
    exactly the [final_value] cells that are empty or do not read as an
    integer; such a cell gets the message of its case, appended to its
    text when it has one; every other cell of the table is as it was,
    and the count of the summary line is the number of highlighted
    cells. *)
Theorem final_value_only_result t :
  ∃ out hl,
    run final_value_only t
      = Ok (out, hl, ["Final Value issues: " +:+ pretty (size hl)]) ∧
    (∀ i c, (i, c) ∈ dom hl ↔
       c = "final_value" ∧
       ∃ v, frame_at t i c = Ok v ∧ is_flag (final_value_effect v) = true) ∧
    (∀ i v, frame_at t i "final_value" = Ok v →
       frame_at out i "final_value" = Ok (cell_after v (final_value_effect v))) ∧
    (∀ i c, c ≠ "final_value" → frame_at out i c = frame_at t i c).
Proof.
  rewrite run_single by done. unfold run_rule.
  destruct (final_value_rule_result t) as (st & -> & _ & Hdom & Hcells & Hsame & _).
  by exists (st_df st), (st_hl st).
Qed.

(** X2. On a table with an [inspection_date] column the [dates_only]
    profile returns, and treats every row: a date that parses is
    replaced by its dd-mm-YYYY form and counted as auto-formatted, any
    other cell (an empty one included) is highlighted, gets the date
    message and is counted as invalid. The two counts add up to the
    number of rows, the invalid count is the number of highlighted
    cells, and the other columns are as they were. *)
Theorem dates_only_result t :
  frame_has t "inspection_date" = true →
  ∃ out hl auto_fixed,
    run dates_only t
      = Ok (out, hl,
            ["Invalid dates: " +:+ pretty (size hl)]
            ++ (if bool_decide (auto_fixed ≠ 0%nat)
                then ["Dates auto-formatted: " +:+ pretty auto_fixed] else [])) ∧
    (size hl + auto_fixed = length (rows t))%nat ∧
    (∀ i c, (i, c) ∈ dom hl ↔
       c = "inspection_date" ∧
       ∃ v, frame_at t i c = Ok v ∧ is_flag (dates_effect v) = true) ∧
    (∀ i v, frame_at t i "inspection_date" = Ok v →
       frame_at out i "inspection_date" = Ok (cell_after v (dates_effect v))) ∧
    (∀ i c, c ≠ "inspection_date" → frame_at out i c = frame_at t i c).
Proof.
  intros Hcol. rewrite run_single by done. unfold run_rule.
  destruct (dates_rule_result t)
    as (st & auto_fixed & -> & Hsum & Hdom & Hcells & Hsame & _).
  rewrite Hcol in *. by exists (st_df st), (st_hl st), auto_fixed.
Qed.

End single_results.

Lemma dates_only_result_witness :
  ∃ out hl auto_fixed,
    run (pandas := ExampleDates.pandas) dates_only Examples.valid_table
      = Ok (out, hl,
            ["Invalid dates: " +:+ pretty (size hl)]
            ++ (if bool_decide (auto_fixed ≠ 0%nat)
                then ["Dates auto-formatted: " +:+ pretty auto_fixed] else [])) ∧
    (size hl + auto_fixed = length (rows Examples.valid_table))%nat ∧
    (∀ i c, (i, c) ∈ dom hl ↔
       c = "inspection_date" ∧
       ∃ v, frame_at Examples.valid_table i c = Ok v
            ∧ is_flag (dates_effect (pandas := ExampleDates.pandas) v) = true) ∧
    (∀ i v, frame_at Examples.valid_table i "inspection_date" = Ok v →
       frame_at out i "inspection_date"
         = Ok (cell_after v (dates_effect (pandas := ExampleDates.pandas) v))) ∧
    (∀ i c, c ≠ "inspection_date" →
       frame_at out i c = frame_at Examples.valid_table i c).
Proof.
  apply (dates_only_result (pandas := ExampleDates.pandas) Examples.valid_table).
  reflexivity.
Defined.


Section mandatory.
Context {pandas : Pandas}.
Implicit Types (t : DataFrame) (st : vstate).

Lemma frame_at_shape t t' i c e :
  columns t' = columns t → length (rows t') = length (rows t) →
  frame_at t i c = Raise e → frame_at t' i c = Raise e.
Proof.
  unfold frame_at, frame_has. intros -> Hn. case_bool_decide; [|done].
  destruct (rows t !! i) eqn:Hi; [done|]. intros <-.
  apply lookup_ge_None in Hi. rewrite <-Hn in Hi. apply lookup_ge_None in Hi.
  by rewrite Hi.
Qed.

Lemma mandatory_row_rule t st0 col :
  columns (st_df st0) = columns t →
  (∀ i, frame_at (st_df st0) i "market_approach" = frame_at t i "market_approach") →
  column_rule st0 col (mandatory_effect t col) count_flag (mandatory_row col).
Proof.
  intros Hcols Happroach idx val b st (Hc & Hn & Hsame) Hat.
  unfold mandatory_row, mandatory_effect.
  destruct (is_empty val); [|done].
  destruct (Str.eqb col "market_approach"); [done|].
  assert ((flag idx col "This mandatory field is empty";; mret (S b)) st
          = (Ok (S b), flagged st idx col val "This mandatory field is empty")) as Hflag.
  { unfold mbind, StE_bind. by rewrite (flag_run _ _ _ _ val). }
  destruct (Str.eqb col "market_approach_value") eqn:Hmav; simpl.
  2:{ unfold mbind at 1, StE_bind at 1. simpl. exact Hflag. }
  apply bool_decide_eq_true in Hmav.
  assert (attempt (read_approach_raw idx) st = (Ok (approach_raw_of t idx), st)) as Hread.
  { unfold attempt, read_approach_raw, approach_raw_of, has_column, gets, df_at.
    unfold mbind, StE_bind. unfold frame_has. rewrite Hc, Hcols.
    case_bool_decide; [|done]. simpl.
    rewrite Hsame by congruence. by rewrite Happroach. }
  rewrite !bind_run, Hread. unfold approach_exempts.
  destruct (approach_mandatory _) as [[| |]|]; simpl; first [done|exact Hflag].
Qed.

Lemma mandatory_done_start t : mandatory_done t [] 0 {| st_df := t; st_hl := ∅ |}.
Proof.
  split; simpl; [done..| | |by rewrite map_size_empty|lia].
  - intros i c. by destruct (frame_at t i c).
  - intros i c. set_solver.
Qed.

Lemma mandatory_column_done t done col n st :
  col ∉ done → mandatory_done t done n st →
  ∃ n' st', mandatory_column col n st = (Ok n', st')
            ∧ mandatory_done t (done ++ [col]) n' st'.
Proof.
  intros Hnew [Hc Hn Hcells Hdom Hcount Hbound].
  unfold mandatory_column. rewrite bind_run. unfold has_column at 1, gets at 1.
  assert (∀ i c, c ∉ done → frame_at (st_df st) i c = frame_at t i c) as Hfresh.
  { intros i c Hnot. rewrite Hcells. rewrite bool_decide_eq_false_2 by done.
    by destruct (frame_at t i c). }
  destruct (frame_has (st_df st) col) eqn:Hcol; simpl.
  - destruct (frame_items_has _ _ Hcol) as [items Hitems].
    rewrite bind_run. unfold df_items at 1. rewrite Hitems.
    destruct (column_rule_run col (mandatory_effect t col) count_flag
                (mandatory_row col) n st items) as
      (st' & Hrun & (Hc' & Hn' & Hsame) & Hcol' & Hdom' & Hsize); [|done| |].
    { apply mandatory_row_rule; [done|]. intros i. rewrite Hcells.
      destruct (frame_at t i "market_approach") as [v|] eqn:Hv; [|done]. simpl.
      case_bool_decide; [|done]. unfold mandatory_effect.
      by destruct (is_empty v). }
    { intros idx Hin. apply Hdom in Hin as [? _]. done. }
    rewrite Hrun, (fold_count_flag (mandatory_effect t col)).
    eexists _, st'. split; [done|]. split.
    + congruence.
    + congruence.
    + intros i c. destruct (decide (c = col)) as [->|Hne].
      * rewrite bool_decide_eq_true_2 by set_solver.
        destruct (frame_at t i col) as [v|e] eqn:Hv; simpl.
        -- apply Hcol'. by rewrite Hfresh.
        -- apply frame_at_shape with (t := t); congruence.
      * rewrite Hsame, Hcells by done. destruct (frame_at t i c); [|done]. simpl.
        by rewrite (bool_decide_ext (c ∈ done ++ [col]) (c ∈ done)) by set_solver.
    + intros i c. rewrite (Hdom' (i, c)). simpl. rewrite Hdom. split.
      * intros [(? & v & ? & ?)|(v & Hv & -> & ?)].
        -- split; [set_solver|eauto].
        -- rewrite Hfresh in Hv by done. split; [set_solver|eauto].
      * intros ([?|Heq%list_elem_of_singleton]%elem_of_app & v & Hv & ?).
        -- left. eauto.
        -- subst c. right. exists v. by rewrite Hfresh.
    + lia.
    + pose proof (flags_le (mandatory_effect t col) items) as Hle.
      rewrite (frame_items_length _ _ _ Hitems), Hn in Hle.
      rewrite length_app. simpl. lia.
  - exists n, st. split; [done|].
    assert (col ∉ columns t) as Hnot.
    { rewrite <-Hc. unfold frame_has in Hcol. by apply bool_decide_eq_false in Hcol. }
    assert (∀ i v, frame_at t i col ≠ Ok v) as Hnone.
    { intros i v [? _]%frame_at_Ok. done. }
    split; [done..| | |done|rewrite length_app; simpl; lia].
    + intros i c. rewrite Hcells. destruct (frame_at t i c) as [v|] eqn:Hv; [|done].
      simpl. destruct (decide (c = col)) as [->|Hne]; [by apply Hnone in Hv|].
      by rewrite (bool_decide_ext (c ∈ done ++ [col]) (c ∈ done)) by set_solver.
    + intros i c. rewrite Hdom. split.
      * intros (? & ?). split; [set_solver|done].
      * intros ([?|Heq%list_elem_of_singleton]%elem_of_app & v & Hv & ?); [eauto|].
        subst c. by apply Hnone in Hv.
Qed.

Lemma mandatory_columns_done t cols :
  ∀ done n st,
    NoDup (done ++ cols) → mandatory_done t done n st →
    ∃ n' st', for_each cols mandatory_column n st = (Ok n', st')
              ∧ mandatory_done t (done ++ cols) n' st'.
Proof.
  induction cols as [|col cols IH]; intros done n st Hnodup Hdone.
  - exists n, st. by rewrite app_nil_r.
  - destruct (mandatory_column_done t done col n st) as (n1 & st1 & Hrun & Hdone1);
      [|done|].
    { apply NoDup_app in Hnodup as (_ & Hdisj & _). intros Hin.
      apply (Hdisj col Hin). by left. }
    destruct (IH (done ++ [col]) n1 st1) as (n' & st' & Hloop & Hdone');
      [by rewrite <-app_assoc|done|].
    exists n', st'. split.
    + simpl. by rewrite bind_run, Hrun.
    + by rewrite <-app_assoc in Hdone'.
Qed.

(** The mandatory rule on a table. *)
Lemma mandatory_rule_result t :
  ∃ st,
    mandatory_rule {| st_df := t; st_hl := ∅ |}
      = (Ok ["Missing mandatory values: " +:+ pretty (size (st_hl st))], st) ∧
    mandatory_done t MANDATORY_FIELDS (size (st_hl st)) st.
Proof.
  unfold mandatory_rule. rewrite bind_run.
  destruct (mandatory_columns_done t MANDATORY_FIELDS [] 0%nat
              {| st_df := t; st_hl := ∅ |}) as (n & st & -> & Hdone).
  { by apply (bool_decide_unpack _). }
  { apply mandatory_done_start. }
  simpl in *. exists st. rewrite (done_count _ _ _ _ Hdone) in Hdone |- *. done.
Qed.

(** X3. The [mandatory_only] profile always returns. It highlights
    exactly the empty cells of the mandatory columns, except those of
    [market_approach], and except those of [market_approach_value] in
    a row whose [market_approach] is empty, reads as 0 or does not read
    as a number; a highlighted cell gets the message "This mandatory
    field is empty", every other cell is as it was, and the count of
    the summary line is the number of highlighted cells. *)
Theorem mandatory_only_result t :
  ∃ out hl,
    run mandatory_only t
      = Ok (out, hl, ["Missing mandatory values: " +:+ pretty (size hl)]) ∧
    (∀ i c, (i, c) ∈ dom hl ↔
       c ∈ MANDATORY_FIELDS ∧
       ∃ v, frame_at t i c = Ok v ∧ is_flag (mandatory_effect t c i v) = true) ∧
    (∀ i c v, frame_at t i c = Ok v →
       frame_at out i c =
         Ok (if bool_decide (c ∈ MANDATORY_FIELDS)
             then cell_after v (mandatory_effect t c i v) else v)).
Proof.
  rewrite run_single by done. unfold run_rule.
  destruct (mandatory_rule_result t) as (st & -> & [_ _ Hcells Hdom _ _]).
  exists (st_df st), (st_hl st). split_and!; [done|done|].
  intros i c v Hv. by rewrite Hcells, Hv.
Qed.

End mandatory.

(** * What every profile leaves alone *)

Section footprint.
Context {pandas : Pandas}.
Implicit Types (t out : DataFrame) (p : profile).

(** X4. Every highlight a profile returns is the yellow fill, on a cell
    of the input table (an existing column, a row of the table) in one
    of the columns the profile checks; the red and the orange fill are
    never used. *)
Theorem highlights_in_table p t out highlights summary :
  run p t = Ok (out, highlights, summary) →
  ∀ i c, (i, c) ∈ dom highlights →
    highlights !! (i, c) = Some FILL_YELLOW ∧
    c ∈ flaggable p ∧ c ∈ columns t ∧ (i < length (rows t))%nat.
Proof.
  intros Hrun i c Hin. pose proof (run_spec p t) as Hspec. rewrite Hrun in Hspec.
  destruct Hspec as [[_ _ _ Hk _ Hf] _ _]. simpl in *.
  destruct (Hk i c Hin) as [[]%elem_of_empty|(? & ? & ?)]. split_and!; [|done..].
  apply elem_of_dom in Hin as [fill Hfill]. rewrite Hfill.
  destruct (Hf _ _ Hfill) as [Hempty| ->]; [|done]. by rewrite lookup_empty in Hempty.
Qed.

(** X5. A column that a profile does not check comes back as it was,
    with no highlight: [macroid], [cost_approach] and
    [cost_approach_value] under every profile, [market_approach] under
    [mandatory_only], and so on. *)
Theorem other_columns_unchanged p t out highlights summary :
  run p t = Ok (out, highlights, summary) →
  ∀ i c, c ∉ flaggable p →
    frame_at out i c = frame_at t i c ∧ (i, c) ∉ dom highlights.
Proof.
  intros Hrun i c Hc. pose proof (run_spec p t) as Hspec. rewrite Hrun in Hspec.
  destruct Hspec as [[_ _ _ Hk Hv _] _ _]. simpl in *. split.
  - destruct (Hv i c) as [?|[[_ ?]|Hfix]]; [done..|].
    exfalso. apply Hc. destruct p; set_solver.
  - intros Hin. destruct (Hk i c Hin) as [[]%elem_of_empty|(? & ? & ?)]. done.
Qed.

End footprint.

Lemma highlights_in_table_witness :
  Examples.highlights_empty_final_value !! (1%nat, "final_value") = Some FILL_YELLOW ∧
  "final_value" ∈ flaggable all ∧
  "final_value" ∈ columns Examples.empty_final_value ∧
  (1 < length (rows Examples.empty_final_value))%nat.
Proof.
  assert (Examples.check all Examples.empty_final_value =
    Ok (Examples.annotated_empty_final_value, Examples.highlights_empty_final_value,
        Examples.summary_empty_final_value)) as Hrun by (vm_compute; reflexivity).
  assert ((1%nat, "final_value") ∈ dom Examples.highlights_empty_final_value) as Hin
    by (apply (bool_decide_unpack _); vm_compute; exact I).
  exact (highlights_in_table (pandas := ExampleDates.pandas)
           all Examples.empty_final_value _ _ _ Hrun 1%nat "final_value" Hin).
Defined.

Lemma other_columns_unchanged_witness :
  frame_at Examples.annotated_empty_final_value 1 "macroid"
    = frame_at Examples.empty_final_value 1 "macroid" ∧
  (1%nat, "macroid") ∉ dom Examples.highlights_empty_final_value.
Proof.
  assert (Examples.check all Examples.empty_final_value =
    Ok (Examples.annotated_empty_final_value, Examples.highlights_empty_final_value,
        Examples.summary_empty_final_value)) as Hrun by (vm_compute; reflexivity).
  assert ("macroid" ∉ flaggable all) as Hcol
    by (apply (bool_decide_unpack _); vm_compute; exact I).
  exact (other_columns_unchanged (pandas := ExampleDates.pandas)
           all Examples.empty_final_value _ _ _ Hrun 1%nat "macroid" Hcol).
Defined.

(** * The [final_value] column under [all] *)

Section all_final_value.
Context {pandas : Pandas}.
Implicit Types (t out : DataFrame) (p : profile).

Lemma append_message_empty v msg :
  is_empty v = true →
  append_message v msg = if is_None v then "None | " +:+ msg else msg.
Proof.
  destruct v as [| |s]; [done..|]. rewrite is_empty_str, <-strip_empty. simpl.
  unfold append_message, Str.eqb. simpl. intros ->%bool_decide_eq_true. done.
Qed.

Lemma annotate_final_value_flag v :
  annotate final_value_flag v = cell_after v (final_value_effect v).
Proof.
  unfold annotate, final_value_flag, final_value_effect, final_value_message.
  destruct (is_empty v); [done|].
  destruct (to_int_returns v) as (ok & n & ->). by destruct ok.
Qed.

(** X6. The [final_value] column under [all], when it returns: a cell
    that is not empty is treated as by the final value rule alone; an
    empty cell ends with the message of the mandatory rule followed by
    "Final value must be a non-decimal integer" (after "None | " when
    the cell was [None]), and never with "final_value is mandatory and
    cannot be empty". *)
Theorem all_final_value_cell t out highlights summary i v :
  run all t = Ok (out, highlights, summary) →
  frame_at t i "final_value" = Ok v →
  frame_at out i "final_value" =
    Ok (if is_empty v
        then VStr ((if is_None v then "None | " else "")
                   +:+ "This mandatory field is empty | Final value must be a non-decimal integer")
        else cell_after v (final_value_effect v)).
Proof.
  intros Hrun Hv. pose proof (run_spec all t) as Hspec. rewrite Hrun in Hspec.
  destruct Hspec as [_ _ Hcell]. rewrite (Hcell i v Hv). simpl. f_equal.
  unfold annotate at 2, mandatory_flag.
  destruct (is_empty v) eqn:Hempty; [|apply annotate_final_value_flag].
  rewrite append_message_empty by done. by destruct (is_None v).
Qed.

End all_final_value.

Lemma all_final_value_cell_witness :
  frame_at Examples.annotated_empty_final_value 1 "final_value" =
    Ok (VStr "This mandatory field is empty | Final value must be a non-decimal integer").
Proof.
  assert (Examples.check all Examples.empty_final_value =
    Ok (Examples.annotated_empty_final_value, Examples.highlights_empty_final_value,
        Examples.summary_empty_final_value)) as Hrun by (vm_compute; reflexivity).
  assert (frame_at Examples.empty_final_value 1 "final_value" = Ok VNaN) as Hcell
    by (vm_compute; reflexivity).
  exact (all_final_value_cell (pandas := ExampleDates.pandas)
           Examples.empty_final_value _ _ _ 1%nat VNaN Hrun Hcell).
Defined.

(** * When [validate_all] raises *)

Section crash.
Context {pandas : Pandas}.
Implicit Types (t out : DataFrame) (p : profile) (st : vstate).

Lemma for_each_raises {S A B} (l : list A) (body : A → B → StE S B) x :
  x ∈ l →
  (∀ b s, ∃ e s', body x b s = (Raise e, s')) →
  ∀ b s, ∃ e s', for_each l body b s = (Raise e, s').
Proof.
  intros Hin Hx. induction l as [|y l IH]; intros b s; [by apply elem_of_nil in Hin|].
  simpl. rewrite bind_run.
  destruct (body y b s) as [[b'|e] s'] eqn:Hy; [|eauto].
  apply elem_of_cons in Hin as [->|Hin]; [|by apply IH].
  destruct (Hx b s) as (e & s1 & He). congruence.
Qed.

Lemma market_approach_row_raises idx v b st :
  non_finite_approach v = true →
  ∃ e st', market_approach_row (idx, v) b st = (Raise e, st').
Proof.
  unfold non_finite_approach, market_approach_row, to_float, approach_not_allowed.
  destruct (is_empty v); [done|]. simpl.
  destruct (Num.float_of_str _) as [x|]; [|done]. simpl.
  destruct (Num.int_of_float x) as [n|e] eqn:Hx; [done|]. intros _.
  exists e, st. unfold mbind, StE_bind, lift. simpl. by rewrite Hx.
Qed.

Lemma market_approach_loop_raises t extra_issues :
  has_non_finite_approach t →
  raises (λ st, ∀ i, frame_at (st_df st) i "market_approach"
                     = frame_at t i "market_approach")
    (check_column "market_approach" market_approach_row extra_issues).
Proof.
  intros (idx & v & Hv & Hbad) st Hsame. rewrite <-Hsame in Hv.
  unfold check_column. rewrite bind_run. unfold has_column at 1, gets at 1.
  pose proof (frame_at_Ok _ _ _ _ Hv) as [Hcol _].
  unfold frame_has. rewrite bool_decide_eq_true_2 by done. simpl.
  destruct (frame_items_has (st_df st) "market_approach") as [items Hitems].
  { unfold frame_has. by rewrite bool_decide_eq_true_2. }
  rewrite bind_run. unfold df_items at 1. rewrite Hitems.
  destruct (for_each_raises items market_approach_row (idx, v)) with
    (b := extra_issues) (s := st) as (e & st' & ->); [|intros ??|done].
  - by eapply frame_items_elem.
  - by apply market_approach_row_raises.
Qed.

Lemma range_rules_raises st0 :
  has_non_finite_approach (st_df st0) →
  raises (λ st, st = st0) range_rules.
Proof.
  intros Hbad. unfold raises, range_rules.
  set (C12 := ["asset_usage_id"; "value_base"]).
  eapply hoare_bind with (R := λ _, touched C12 [] st0).
  { eapply hoare_weaken_pre; [intros st ->; apply touched_refl|].
    apply hoare_weaken_exn, check_column_touched. intros.
    apply int_range_row_touched; [set_solver|done..]. }
  intros e1. eapply hoare_bind with (R := λ _, touched C12 [] st0).
  { apply hoare_weaken_exn, check_column_touched. intros.
    apply int_range_row_touched; [set_solver|done..]. }
  intros e2. eapply hoare_bind with (R := λ _ _, False); [|by intros ? ? []].
  eapply hoare_weaken_pre; [|by apply (market_approach_loop_raises (st_df st0))].
  intros st Hst i. simpl.
  destruct (touched_cells _ _ _ _ Hst i "market_approach") as [?|[[_ ?]|?]]; set_solver.
Qed.

Lemma validate_all_raises h0 df t :
  h0 !! df = Some t → has_non_finite_approach t →
  raises (λ h, h = h0) (validate_all df).
Proof.
  intros Hdf Hbad. unfold raises, validate_all.
  eapply hoare_bind; [by apply hoare_weaken_exn, df_copy_spec|].
  intros df1. apply hoare_pre. intros h1 [-> ->].
  assert ((h0 ++ [t]) !! length h0 = Some t) as Hdf1
    by (by rewrite lookup_app_r, Nat.sub_diag).
  eapply hoare_bind;
    [by apply hoare_weaken_exn, validate_mandatory_only_spec|].
  intros [[df2 hl1] s1]. apply hoare_pre.
  intros h2 (o1 & t1 & -> & Hl2 & Hdf2 & [Ht1 Hs1 Hv1])%allocated_lookup.
  eapply hoare_bind;
    [by apply hoare_weaken_exn, validate_final_value_only_spec|].
  intros [[df3 hl2] s2]. apply hoare_pre.
  intros h3 (o2 & t2 & -> & Hl3 & Hdf3 & [Ht2 Hs2 Hv2])%allocated_lookup.
  eapply hoare_bind;
    [by apply hoare_weaken_exn, validate_dates_only_spec|].
  intros [[df4 hl3] s3]. apply hoare_pre.
  intros h4 (o3 & t3 & -> & Hl4 & Hdf4 & [Ht3 Hs3 Hv3])%allocated_lookup.
  pose proof (touched_update _ _ _ _ _ _ _ _ _
                (touched_update _ _ _ _ _ _ _ _ _ Ht1 Ht2) Ht3) as H123.
  simpl in H123.
  assert (has_non_finite_approach t3) as Hbad3.
  { destruct Hbad as (i & v & Hv & Hnf). exists i, v. split; [|done].
    rewrite <-Hv.
    destruct (touched_cells _ _ _ _ H123 i "market_approach")
      as [?|[[_ Hin]|Hin]]; [done|..]; by vm_compute in Hin; set_solver. }
  intros h ->. unfold mbind, StE_bind, on_frame. rewrite Hdf4.
  set (hl0 := update (update (update ∅ hl1) hl2) hl3).
  pose proof (range_rules_raises {| st_df := t3; st_hl := hl0 |} Hbad3
                {| st_df := t3; st_hl := hl0 |} eq_refl) as Hr.
  by destruct (range_rules _) as [[extra|e] st].
Qed.

(** X7. A profile ends with an exception exactly when it is [all] and
    some [market_approach] cell of the table is not empty and reads as
    an infinite or NaN float (as "inf" or "-Infinity" do): [int(fval)]
    is evaluated outside any [try]. *)
Theorem all_raises_exactly p t :
  (∃ e, run p t = Raise e) ↔ p = all ∧ has_non_finite_approach t.
Proof.
  split.
  - intros [e He]. pose proof (run_spec p t) as Hspec. by rewrite He in Hspec.
  - intros [-> Hbad]. unfold run. simpl.
    pose proof (validate_all_raises [t] 0%nat t eq_refl Hbad [t] eq_refl) as Hr.
    destruct (validate_all 0%nat [t]) as [[r|e] h]; [done|eauto].
Qed.

End crash.

(** * Messages in a cell *)

Section messages.
Implicit Types (s a b m : string) (v : value).

Lemma whitespace_only_app a b :
  whitespace_only (a +:+ b) = whitespace_only a && whitespace_only b.
Proof.
  induction a as [|c a IH]; [done|].
  rewrite app_cons. simpl. by rewrite IH, andb_assoc.
Qed.

Lemma length_app_str a b :
  String.length (a +:+ b) = (String.length a + String.length b)%nat.
Proof. induction a as [|c a IH]; [done|]. rewrite app_cons. simpl. by rewrite IH. Qed.

Lemma rstrip_nonempty s : Str.rstrip s = "" → whitespace_only s = true.
Proof.
  intros Hs. rewrite <-rstrip_empty. unfold Str.eqb. by rewrite bool_decide_eq_true_2.
Qed.

Lemma rstrip_app a b :
  whitespace_only b = false → Str.rstrip (a +:+ b) = a +:+ Str.rstrip b.
Proof.
  intros Hb. assert (Str.rstrip b ≠ "") as Hne.
  { intros Hs. apply rstrip_nonempty in Hs. congruence. }
  induction a as [|c a IH]; [done|].
  rewrite !app_cons. simpl. rewrite IH.
  destruct (a +:+ Str.rstrip b) eqn:Hab; [|done].
  destruct a; [|done]. done.
Qed.

Lemma rstrip_idemp s : Str.rstrip (Str.rstrip s) = Str.rstrip s.
Proof.
  induction s as [|c s IH]; [done|]. simpl.
  destruct (Str.rstrip s) as [|c' r] eqn:Hr.
  - destruct (Str.isspace c) eqn:Hc; [done|]. simpl. by rewrite Hc.
  - change (Str.rstrip (String c (String c' r))) with
      (match Str.rstrip (String c' r) with
       | "" => if Str.isspace c then "" else String c ""
       | r' => String c r'
       end). by rewrite IH.
Qed.

Lemma lstrip_head c s : Str.isspace c = false → Str.lstrip (String c s) = String c s.
Proof. intros Hc. simpl. by rewrite Hc. Qed.

Lemma lstrip_head_inv s c r : Str.lstrip s = String c r → Str.isspace c = false.
Proof.
  induction s as [|d s IH]; [done|]. simpl.
  destruct (Str.isspace d) eqn:Hd; [done|]. by intros [= <- _].
Qed.

Lemma rstrip_head s c r : Str.rstrip s = String c r → ∃ r', s = String c r'.
Proof. destruct s as [|d s]; [done|]. simpl. repeat case_match; intros [= <- _]; eauto. Qed.

Lemma strip_head s c r : Str.strip s = String c r → Str.isspace c = false.
Proof.
  unfold Str.strip. intros Hs. destruct (rstrip_head _ _ _ Hs) as [r' Hl].
  by eapply lstrip_head_inv.
Qed.

Lemma stripped_rstrip m : stripped m → Str.rstrip m = m.
Proof. unfold stripped, Str.strip. intros Hm. rewrite <-Hm at 1. by rewrite rstrip_idemp. Qed.

Lemma stripped_blank m : stripped m → m ≠ "" → whitespace_only m = false.
Proof.
  intros Hm Hne. destruct (whitespace_only m) eqn:Hw; [|done].
  rewrite <-strip_empty in Hw. apply bool_decide_eq_true in Hw.
  unfold stripped in Hm. congruence.
Qed.

(** The text of a cell after one message is written is stripped, not
    empty and not "nan". *)
Lemma append_message_stripped v m :
  stripped m → m ≠ "" → Str.lower m ≠ "nan" →
  let x := append_message v m in
  stripped x ∧ x ≠ "" ∧ Str.lower x ≠ "nan".
Proof.
  intros Hm Hne Hnan. unfold append_message.
  destruct (negb _ || _) eqn:Hold; [done|].
  apply orb_false_iff in Hold as [Hs%negb_false_iff _].
  destruct (Str.strip (str v)) as [|c a] eqn:Ha; [done|].
  pose proof (strip_head _ _ _ Ha) as Hc.
  pose proof (stripped_blank m Hm Hne) as Hblank.
  split_and!.
  - unfold stripped, Str.strip. rewrite app_cons, lstrip_head by done.
    rewrite <-app_cons. rewrite rstrip_app.
    + rewrite rstrip_app by done. by rewrite stripped_rstrip.
    + by rewrite whitespace_only_app, Hblank, andb_false_r.
  - done.
  - intros Hx. apply (f_equal String.length) in Hx. rewrite length_lower in Hx.
    rewrite !length_app_str in Hx. simpl in Hx. lia.
Qed.

(** X8. Messages accumulate: a second message written to a cell is
    appended to the text the first one left, after " | ", whatever the
    cell held before. This holds for a first message that is not empty,
    has no white space at its ends and is not "nan" in any letter case,
    as every message of the validators is. *)
Theorem append_message_accumulates v m1 m2 :
  stripped m1 → m1 ≠ "" → Str.lower m1 ≠ "nan" →
  append_message (VStr (append_message v m1)) m2
    = append_message v m1 +:+ " | " +:+ m2.
Proof.
  intros Hm Hne Hnan.
  destruct (append_message_stripped v m1 Hm Hne Hnan) as (Hx & Hxne & Hxnan).
  set (x := append_message v m1) in *. unfold append_message at 1. simpl.
  rewrite Hx. unfold Str.truthy, Str.eqb.
  by rewrite !bool_decide_eq_false_2.
Qed.

(** X9. A cell that got a message is never empty afterwards, for a
    message that is not blank: the rules that run later under [all] see
    a flagged cell as filled in. *)
Theorem append_message_not_empty v m :
  whitespace_only m = false → is_empty (VStr (append_message v m)) = false.
Proof.
  intros Hm. rewrite is_empty_str. unfold append_message.
  destruct (negb _ || _); [done|].
  by rewrite !whitespace_only_app, Hm, !andb_false_r.
Qed.

End messages.

Lemma append_message_accumulates_witness :
  append_message (VStr (append_message (VStr " 12.5 ") "Final value must be a non-decimal integer"))
    date_message
  = "12.5 | Final value must be a non-decimal integer | Date must be in dd-mm-YYYY format".
Proof.
  assert (stripped "Final value must be a non-decimal integer") as Hm
    by (vm_compute; reflexivity).
  assert ("Final value must be a non-decimal integer" ≠ "") as Hne by discriminate.
  assert (Str.lower "Final value must be a non-decimal integer" ≠ "nan") as Hnan
    by (vm_compute; discriminate).
  exact (append_message_accumulates (VStr " 12.5 ") _ date_message Hm Hne Hnan).
Defined.

Lemma append_message_not_empty_witness :
  is_empty (VStr (append_message VNone "This mandatory field is empty")) = false.
Proof.
  apply (append_message_not_empty VNone "This mandatory field is empty").
  vm_compute. reflexivity.
Defined.

(** * The exported workbook and the preview *)

Section export.
Implicit Types (t : DataFrame) (ws : Worksheet).

Lemma col_index_by_name_lookup headers name c :
  NoDup headers →
  col_index_by_name headers !! name = Some c ↔
  ∃ j, c = S j ∧ headers !! j = Some name.
Proof.
  intros Hnd. unfold col_index_by_name.
  rewrite <-elem_of_list_to_map.
  - rewrite elem_of_reverse, list_elem_of_lookup. split.
    + intros [j Hj]. rewrite list_lookup_imap in Hj.
      destruct (headers !! j) as [n|] eqn:Hn; simplify_eq/=. eauto.
    + intros (j & -> & Hj). exists j. by rewrite list_lookup_imap, Hj.
  - rewrite fmap_reverse, reverse_Permutation.
    assert ((imap (λ i name, (name, S i)) headers).*1 = headers) as ->; [|done].
    apply list_eq. intros j. rewrite list_lookup_fmap, list_lookup_imap.
    by destruct (headers !! j).
Qed.

Lemma highlight_cells_fill index items :
  (∀ n1 n2 c, index !! n1 = Some c → index !! n2 = Some c → n1 = n2) →
  NoDup items.*1 →
  ∀ ws r c fill,
    ws_fill (fold_left (highlight_cell index) items ws) !! (r, c) = Some fill ↔
    (∃ i name, r = (i + 2)%nat ∧ index !! name = Some c ∧ (i, name, fill) ∈ items)
    ∨ ((∀ i name f, r = (i + 2)%nat → index !! name = Some c → (i, name, f) ∉ items)
       ∧ ws_fill ws !! (r, c) = Some fill).
Proof.
  intros Hinj. induction items as [|[[i0 n0] f0] items IH]; intros Hnd ws r c fill.
  { simpl. split; [intros ?; right; split; [|done]|]; set_solver. }
  rewrite fmap_cons in Hnd. apply NoDup_cons in Hnd as [Hnew Hnd]. simpl in Hnew.
  simpl. rewrite (IH Hnd). clear IH.
  assert (∀ f, (i0, n0, f) ∉ items) as Hfresh.
  { intros f Hin. apply Hnew. apply list_elem_of_fmap. by exists (i0, n0, f). }
  destruct (index !! n0) as [c0|] eqn:Hc0; simpl.
  - destruct (decide ((r, c) = ((i0 + 2)%nat, c0))) as [[= -> ->]|Hne].
    + rewrite lookup_insert_eq. split.
      * intros [(i & name & Hi & Hname & Hin)|[_ [= ->]]].
        -- left. exists i, name. split_and!; [done..|by right].
        -- left. exists i0, n0. split_and!; [done..|by left].
      * intros [(i & name & Hi & Hname & [[= -> -> ->]|Hin]%elem_of_cons)|[Hnone _]].
        -- right. split; [|done]. intros i' name' f' Hi' Hname' Hin'.
           assert (i' = i0) as -> by lia. rewrite (Hinj _ _ _ Hname' Hc0) in Hin'.
           by apply Hfresh in Hin'.
        -- left. eauto.
        -- exfalso. apply (Hnone i0 n0 f0); [done..|by left].
    + rewrite lookup_insert_ne by done. split.
      * intros [(i & name & Hi & Hname & Hin)|[Hnone Hws]].
        -- left. exists i, name. split_and!; [done..|by right].
        -- right. split; [|done]. intros i name f Hi Hname [[= -> -> ->]|Hin]%elem_of_cons.
           ++ apply Hne. congruence.
           ++ by eapply Hnone.
      * intros [(i & name & Hi & Hname & [[= -> -> ->]|Hin]%elem_of_cons)|[Hnone Hws]].
        -- exfalso. apply Hne. congruence.
        -- left. eauto.
        -- right. split; [|done]. intros i' name' f' Hi' Hname' Hin'.
           apply (Hnone i' name' f'); [done..|by right].
  - split.
    + intros [(i & name & Hi & Hname & Hin)|[Hnone Hws]].
      * left. exists i, name. split_and!; [done..|by right].
      * right. split; [|done]. intros i name f Hi Hname [[= -> -> ->]|Hin]%elem_of_cons.
        -- congruence.
        -- by eapply Hnone.
    + intros [(i & name & Hi & Hname & [[= -> -> ->]|Hin]%elem_of_cons)|[Hnone Hws]].
      * congruence.
      * left. eauto.
      * right. split; [|done]. intros i' name' f' Hi' Hname' Hin'.
        apply (Hnone i' name' f'); [done..|by right].
Qed.

Lemma highlight_cells_right index items ws :
  ws_right ws = dom (ws_fill ws) →
  ws_right (fold_left (highlight_cell index) items ws)
    = dom (ws_fill (fold_left (highlight_cell index) items ws)).
Proof.
  revert ws. induction items as [|[[i0 n0] f0] items IH]; intros ws Hws; [done|].
  simpl. apply IH. destruct (index !! n0); [|done]. simpl.
  by rewrite dom_insert_L, Hws.
Qed.

Lemma export_styles_fill t highlights items :
  items ≡ₚ map_to_list highlights →
  NoDup (columns t) →
  (∀ i j, ws_fill (export_styles t items) !! ((i + 2)%nat, S j)
          = name ← columns t !! j; highlights !! (i, name)) ∧
  (∀ r c, (r < 2)%nat ∨ c = 0%nat → ws_fill (export_styles t items) !! (r, c) = None).
Proof.
  intros Hitems Hnd.
  assert (NoDup items.*1) as Hkeys.
  { rewrite Hitems. apply NoDup_fst_map_to_list. }
  assert (∀ i name f, (i, name, f) ∈ items ↔ highlights !! (i, name) = Some f) as Hin.
  { intros i name f. rewrite Hitems. apply elem_of_map_to_list. }
  assert (∀ n1 n2 c, col_index_by_name (columns t) !! n1 = Some c →
            col_index_by_name (columns t) !! n2 = Some c → n1 = n2) as Hinj.
  { intros n1 n2 c (j1 & -> & H1)%col_index_by_name_lookup
      (j2 & [= <-] & H2)%col_index_by_name_lookup; congruence. }
  pose proof (highlight_cells_fill _ items Hinj Hkeys
                {| ws_fill := ∅; ws_right := ∅ |}) as Hfill.
  unfold export_styles, align_headers. simpl. split.
  - intros i j. apply option_eq. intros fill. rewrite Hfill. simpl. split.
    + intros [(i' & name & Hi & (j' & [= <-] & Hj)%col_index_by_name_lookup & Hitem)|[_ ?]];
        [|done..]. assert (i' = i) as -> by lia. rewrite Hj. simpl. by apply Hin.
    + destruct (columns t !! j) as [name|] eqn:Hj; [|done]. simpl. intros Hhl.
      left. exists i, name. split_and!; [done| |by apply Hin].
      apply col_index_by_name_lookup; eauto.
  - intros r c Hrc. apply eq_None_not_Some. intros [fill Hsome].
    apply Hfill in Hsome as [(i & name & -> & (j & -> & _)%col_index_by_name_lookup & _)|[_ ?]];
      [lia|done..].
Qed.

(** X10. The exported sheet of a table with distinct column labels:
    the cell of table row [i] and of the column at position [j] is
    Excel row [i + 2], column [j + 1], and its fill is the highlight of
    that cell, if any, in whatever order the highlights are applied;
    the header row gets no fill; the cells aligned to the right are
    the header cells and the filled cells. *)
Theorem export_fills t highlights items :
  items ≡ₚ map_to_list highlights →
  NoDup (columns t) →
  (∀ i j, ws_fill (export_styles t items) !! ((i + 2)%nat, S j)
          = name ← columns t !! j; highlights !! (i, name)) ∧
  (∀ r c, (r < 2)%nat ∨ c = 0%nat → ws_fill (export_styles t items) !! (r, c) = None) ∧
  (∀ r c, (r, c) ∈ ws_right (export_styles t items) ↔
     (r = 1%nat ∧ (1 ≤ c ≤ length (columns t))%nat)
     ∨ is_Some (ws_fill (export_styles t items) !! (r, c))).
Proof.
  intros Hitems Hnd.
  destruct (export_styles_fill t highlights items Hitems Hnd) as [Hfill Hnone].
  split_and!; [done..|].
  intros r c. unfold export_styles, align_headers. simpl.
  rewrite elem_of_union, elem_of_list_to_set, list_elem_of_fmap.
  rewrite highlight_cells_right by done. rewrite elem_of_dom.
  apply or_iff_compat_r. split.
  - intros (j & [= -> ->] & Hj%elem_of_seq). lia.
  - intros [-> Hc]. exists (c - 1)%nat. split; [f_equal; lia|].
    apply elem_of_seq. lia.
Qed.

End export.

Section preview.
Context {pandas : Pandas}.
Implicit Types (t out : DataFrame) (p : profile).

(** X11. For the result of a profile on a table with distinct column
    labels, no highlight is skipped by the export (every highlighted
    cell is in a column of the sheet and is filled yellow), the preview
    shows the highlighted style on exactly the cells the export fills,
    and the export uses no other fill than yellow. *)
Theorem preview_matches_export p t out highlights summary items :
  run p t = Ok (out, highlights, summary) →
  items ≡ₚ map_to_list highlights →
  NoDup (columns t) →
  (∀ i c, (i, c) ∈ dom highlights →
     ∃ j, columns out !! j = Some c ∧
          ws_fill (export_styles out items) !! ((i + 2)%nat, S j) = Some FILL_YELLOW) ∧
  (∀ i j, highlight_excel out highlights i !! j = Some highlighted_style ↔
          ws_fill (export_styles out items) !! ((i + 2)%nat, S j) = Some FILL_YELLOW) ∧
  (∀ r c fill, ws_fill (export_styles out items) !! (r, c) = Some fill →
     fill = FILL_YELLOW).
Proof.
  intros Hrun Hitems Hnd. pose proof (run_spec p t) as Hspec. rewrite Hrun in Hspec.
  destruct Hspec as [[Hcols _ _ Hk _ Hf] _ _]. simpl in *.
  rewrite <-Hcols in Hnd.
  destruct (export_styles_fill out highlights items Hitems Hnd) as [Hfill Hnone].
  assert (∀ k fill, highlights !! k = Some fill → fill = FILL_YELLOW) as Hyellow.
  { intros k fill Hfill'. destruct (Hf _ _ Hfill') as [Hempty|]; [|done].
    by rewrite lookup_empty in Hempty. }
  split_and!.
  - intros i c Hin. destruct (Hk i c Hin) as [[]%elem_of_empty|(_ & Hc & _)].
    rewrite <-Hcols in Hc. apply list_elem_of_lookup in Hc as [j Hj].
    exists j. split; [done|]. rewrite Hfill, Hj. simpl.
    apply elem_of_dom in Hin as [fill Hin]. by rewrite Hin, (Hyellow _ _ Hin).
  - intros i j. rewrite Hfill. unfold highlight_excel. rewrite list_lookup_fmap.
    destruct (columns out !! j) as [c|]; simpl; [|done].
    case_bool_decide as Hin.
    + apply elem_of_dom in Hin as [fill Hin]. by rewrite Hin, (Hyellow _ _ Hin).
    + apply not_elem_of_dom in Hin. rewrite Hin. split; [|done].
      intros [=].
  - intros r c fill Hsome. destruct r as [|[|i]]; [rewrite Hnone in Hsome by lia; done..|].
    destruct c as [|j]; [rewrite Hnone in Hsome by lia; done|].
    replace (S (S i)) with (i + 2)%nat in Hsome by lia. rewrite Hfill in Hsome.
    destruct (columns out !! j) as [name|]; [|done]. simpl in Hsome. by eapply Hyellow.
Qed.

End preview.

Lemma export_fills_witness :
  ws_fill (export_styles Examples.empty_final_value
             (map_to_list Examples.highlights_empty_final_value)) !! ((1 + 2)%nat, 4%nat)
  = name ← columns Examples.empty_final_value !! 3%nat;
    Examples.highlights_empty_final_value !! (1%nat, name).
Proof.
  assert (NoDup (columns Examples.empty_final_value)) as Hnd
    by (apply (bool_decide_unpack _); vm_compute; exact I).
  exact (proj1 (export_fills Examples.empty_final_value
                  Examples.highlights_empty_final_value _ (reflexivity _) Hnd)
           1%nat 3%nat).
Defined.

Lemma preview_matches_export_witness :
  highlight_excel Examples.annotated_empty_final_value
    Examples.highlights_empty_final_value 1 !! 3%nat = Some highlighted_style ↔
  ws_fill (export_styles Examples.annotated_empty_final_value
             (map_to_list Examples.highlights_empty_final_value)) !! ((1 + 2)%nat, 4%nat)
  = Some FILL_YELLOW.
Proof.
  assert (Examples.check all Examples.empty_final_value =
    Ok (Examples.annotated_empty_final_value, Examples.highlights_empty_final_value,
        Examples.summary_empty_final_value)) as Hrun by (vm_compute; reflexivity).
  assert (NoDup (columns Examples.empty_final_value)) as Hnd
    by (apply (bool_decide_unpack _); vm_compute; exact I).
  exact (proj1 (proj2 (preview_matches_export (pandas := ExampleDates.pandas)
                         all Examples.empty_final_value _ _ _ _ Hrun (reflexivity _) Hnd))
           1%nat 3%nat).
Defined.

(** * The dashboard *)

Section counts_read_back.
Implicit Types (s : string) (n : nat).

Lemma contains_occurs ch s : Str.contains (String ch "") s = occurs ch s.
Proof.
  induction s as [|c s IH]; [done|].
  change (Str.contains (String ch "") (String c s))
    with (String.prefix (String ch "") (String c s) || Str.contains (String ch "") s).
  rewrite IH. cbn [String.prefix occurs].
  destruct (ascii_dec ch c) as [<-|Hne].
  - rewrite bool_decide_eq_true_2 by done. by destruct s.
  - rewrite bool_decide_eq_false_2 by congruence. done.
Qed.

Lemma occurs_app ch a b : occurs ch (a +:+ b) = occurs ch a || occurs ch b.
Proof.
  induction a as [|c a IH]; [done|]. rewrite app_cons. simpl.
  by rewrite IH, orb_assoc.
Qed.

Lemma split_on_none sep s : occurs sep s = false → split_on sep s = [s].
Proof.
  induction s as [|c s IH]; [done|]. simpl.
  intros [Hc Hs]%orb_false_iff. rewrite Hc, IH by done. done.
Qed.

Lemma split_on_app sep a b :
  occurs sep a = false →
  split_on sep (a +:+ String sep b) = a :: split_on sep b.
Proof.
  induction a as [|c a IH].
  - intros _. change ("" +:+ String sep b) with (String sep b). simpl.
    by rewrite bool_decide_eq_true_2.
  - cbn [occurs]. intros [Hc Ha]%orb_false_iff. rewrite app_cons.
    cbn [split_on]. rewrite Hc, IH by done. done.
Qed.

Lemma digit_not_space c : Str.isdigit c = true → Str.isspace c = false.
Proof. destruct c as [[] [] [] [] [] [] [] []]; by vm_compute. Qed.

Lemma digit_not_colon c : Str.isdigit c = true → bool_decide (c = ":"%char) = false.
Proof. destruct c as [[] [] [] [] [] [] [] []]; by vm_compute. Qed.

Lemma digit_not_sign c s :
  Str.isdigit c = true → Num.split_sign (String c s) = (false, String c s).
Proof. destruct c as [[] [] [] [] [] [] [] []]; by vm_compute. Qed.

Lemma digits_no_colon s : all_chars Str.isdigit s = true → occurs ":" s = false.
Proof.
  induction s as [|c s IH]; [done|]. simpl. intros [Hc Hs]%andb_true_iff.
  by rewrite digit_not_colon, IH.
Qed.

Lemma digits_rstrip s : all_chars Str.isdigit s = true → Str.rstrip s = s.
Proof.
  induction s as [|c s IH]; [done|]. simpl. intros [Hc Hs]%andb_true_iff.
  rewrite IH by done. destruct s; [|done]. by rewrite digit_not_space.
Qed.

Lemma digits_strip s : all_chars Str.isdigit s = true → Str.strip s = s.
Proof.
  intros Hs. unfold Str.strip. destruct s as [|c s]; [done|].
  pose proof Hs as [Hc _]%andb_true_iff.
  rewrite lstrip_head by by apply digit_not_space. by apply digits_rstrip.
Qed.

Lemma digits_num_strip s : all_chars Str.isdigit s = true → Num.strip s = s.
Proof.
  assert (∀ c, Str.isdigit c = true → Num.isspace c = false) as Hdigit.
  { intros c Hc. destruct (Num.isspace c) eqn:Hs; [|done].
    apply num_isspace in Hs. by rewrite digit_not_space in Hs. }
  intros Hs. unfold Num.strip. destruct s as [|c s]; [done|].
  pose proof Hs as [Hc _]%andb_true_iff.
  assert (Num.lstrip (String c s) = String c s) as -> by (simpl; by rewrite Hdigit).
  clear Hc. revert Hs. generalize (String c s). clear c s.
  intros s. induction s as [|c s IH]; [done|]. simpl. intros [Hc Hs]%andb_true_iff.
  rewrite IH by done. destruct s; [|done]. by rewrite Hdigit.
Qed.

Lemma digitpart_digits s b :
  all_chars Str.isdigit s = true → s ≠ "" ∨ b = true →
  ∃ ds, Num.digitpart_from b s = Some ds ∧ length ds = String.length s ∧
        ∀ a, fold_left (λ a d, 10 * a + d) ds a = str_value s a.
Proof.
  revert b. induction s as [|c s IH]; intros b Hs Hb.
  - destruct Hb as [?| ->]; [done|]. by exists [].
  - apply andb_true_iff in Hs as [Hc Hs]. simpl. rewrite Hc.
    destruct (IH true Hs) as (ds & -> & Hlen & Hval); [by right|].
    exists (Num.digit_value c :: ds). simpl. split_and!; [done|by rewrite Hlen|].
    intros a. apply Hval.
Qed.

Lemma str_value_app a b x : str_value (a +:+ b) x = str_value b (str_value a x).
Proof.
  revert x. induction a as [|c a IH]; intros x; [done|].
  rewrite app_cons. simpl. by rewrite IH.
Qed.

Lemma all_chars_app_digits a b :
  all_chars Str.isdigit (a +:+ b) = all_chars Str.isdigit a && all_chars Str.isdigit b.
Proof. apply all_chars_app. Qed.

Lemma pretty_N_char_digit x :
  (x < 10)%N →
  Str.isdigit (pretty_N_char x) = true ∧ Num.digit_value (pretty_N_char x) = Z.of_N x.
Proof.
  intros Hx.
  assert (x = 0 ∨ x = 1 ∨ x = 2 ∨ x = 3 ∨ x = 4 ∨ x = 5 ∨ x = 6
          ∨ x = 7 ∨ x = 8 ∨ x = 9)%N as Hcases by lia.
  repeat destruct Hcases as [->|Hcases]; try subst x; by vm_compute.
Qed.

Lemma pretty_N_go_app x s : pretty_N_go x s = pretty_N_go x "" +:+ s.
Proof.
  revert s. induction (N.lt_wf_0 x) as [x _ IH]; intros s.
  assert (x = 0 ∨ 0 < x)%N as [->|Hx] by lia; [done|].
  rewrite (pretty_N_go_step x s), (pretty_N_go_step x "") by done.
  set (c := pretty_N_char (x `mod` 10)).
  assert (x `div` 10 < x)%N as Hlt by (by apply N.div_lt).
  rewrite (IH _ Hlt (String c s)), (IH _ Hlt (String c "")).
  generalize (pretty_N_go (x `div` 10) ""). intros p.
  induction p as [|d p IHp]; [done|]. rewrite !app_cons. by rewrite IHp.
Qed.

Lemma pretty_N_go_digits x :
  all_chars Str.isdigit (pretty_N_go x "") = true ∧
  str_value (pretty_N_go x "") 0 = Z.of_N x.
Proof.
  induction (N.lt_wf_0 x) as [x _ IH].
  assert (x = 0 ∨ 0 < x)%N as [->|Hx] by lia; [done|].
  rewrite pretty_N_go_step, pretty_N_go_app by done.
  destruct (IH (x `div` 10)%N) as [Hd Hv]; [by apply N.div_lt|].
  destruct (pretty_N_char_digit (x `mod` 10)) as [Hc Hcv]; [by apply N.mod_lt|].
  split.
  - rewrite all_chars_app, Hd. simpl. by rewrite Hc.
  - rewrite str_value_app, Hv. simpl. rewrite Hcv.
    rewrite (N.div_mod x 10) at 3 by done. lia.
Qed.

Lemma pretty_N_go_length x k :
  Z.of_N x < 10 ^ Z.of_nat k → (String.length (pretty_N_go x "") ≤ k)%nat.
Proof.
  revert x. induction k as [|k IH]; intros x Hx.
  - assert (x = 0%N) as -> by (simpl in Hx; lia). done.
  - assert (x = 0 ∨ 0 < x)%N as [->|Hpos] by lia; [simpl; lia|].
    rewrite pretty_N_go_step, pretty_N_go_app, length_app_str by done. simpl.
    assert (String.length (pretty_N_go (x `div` 10) "") ≤ k)%nat; [|lia].
    apply IH. rewrite Nat2Z.inj_succ, Z.pow_succ_r in Hx by lia.
    rewrite N2Z.inj_div. apply Z.div_lt_upper_bound; lia.
Qed.

(** [int] reads back a count that [f"{n}"] printed. *)
Lemma int_of_str_pretty n :
  Z.of_nat n < 10 ^ 4300 → Num.int_of_str (pretty n) = Ok (Z.of_nat n).
Proof.
  intros Hn. unfold pretty, pretty_nat, pretty, pretty_N.
  case_decide as Hz; [by replace n with 0%nat by lia|].
  destruct (pretty_N_go_digits (N.of_nat n)) as [Hd Hv].
  pose proof (pretty_N_go_length (N.of_nat n) 4300) as Hlen.
  rewrite nat_N_Z in Hlen, Hv. specialize (Hlen Hn).
  remember (pretty_N_go (N.of_nat n) "") as s eqn:Hs. clear Hs.
  assert (∃ c r, s = String c r) as (c & r & Hcr).
  { destruct s; [simpl in Hv; lia|eauto]. }
  assert (Str.isdigit c = true) as Hc.
  { rewrite Hcr in Hd. by apply andb_true_iff in Hd as [? _]. }
  destruct (digitpart_digits s false Hd) as (ds & Hds & Hl & Hval);
    [left; by rewrite Hcr|].
  unfold Num.int_of_str. rewrite digits_num_strip by done.
  rewrite Hcr, digit_not_sign, <-Hcr by done.
  unfold Num.digitpart. rewrite Hds, Hl.
  unfold Num.int_max_str_digits.
  destruct (4300 <? String.length s)%nat eqn:Hlt; [apply Nat.ltb_lt in Hlt; lia|].
  unfold Num.signed, Num.decimal. by rewrite Hval, Hv.
Qed.

End counts_read_back.

Section range_counts.
Context {pandas : Pandas}.
Implicit Types (st : vstate) (row : nat * value).

Lemma steps_ret k b st : steps k b st ((mret b : V nat) st).
Proof. unfold steps, mret, StE_ret. split_and!; try done; lia. Qed.

Lemma steps_flag b st idx col msg :
  steps 1 b st ((flag idx col msg;; mret (S b)) st).
Proof.
  unfold flag, set_highlight, df_at, df_at_set, modify, mbind, StE_bind. simpl.
  destruct (frame_at (st_df st) idx col) as [existing|e]; simpl; [|done].
  split_and!; [lia|lia|by rewrite length_alter|lia| |].
  - intros _. apply insert_non_empty.
  - intros Hempty. by apply insert_non_empty in Hempty.
Qed.

Lemma steps_trans k1 k2 b st b1 st1 r :
  steps k1 b st (Ok b1, st1) → steps k2 b1 st1 r → steps (k1 + k2) b st r.
Proof.
  intros (Hb1 & Hn1 & Hsame1 & Hnew1 & Hmono1). destruct r as [[b2|e] st2]; [|done].
  intros (Hb2 & Hn2 & Hsame2 & Hnew2 & Hmono2). split_and!; [lia|lia|congruence| | |auto].
  - intros Heq. rewrite Hsame2, Hsame1 by lia. done.
  - intros Hlt. destruct (decide (b1 = b2)) as [<-|Hne]; [|apply Hnew2; lia].
    rewrite Hsame2 by done. apply Hnew1. lia.
Qed.

Lemma steps_for_each (body : nat * value → nat → V nat) items :
  (∀ row b st, steps 1 b st (body row b st)) →
  ∀ b st, steps (length items) b st (for_each items body b st).
Proof.
  intros Hbody. induction items as [|row items IH]; intros b st; [apply steps_ret|].
  simpl. rewrite bind_run. pose proof (Hbody row b st) as Hrow.
  destruct (body row b st) as [[b1|e] st1]; [|done].
  apply (steps_trans 1 (length items) b st b1 st1); [done|apply IH].
Qed.

Lemma steps_check_column col (body : nat * value → nat → V nat) b st :
  (∀ row b st, steps 1 b st (body row b st)) →
  steps (length (rows (st_df st))) b st (check_column col body b st).
Proof.
  intros Hbody. unfold check_column. rewrite bind_run.
  unfold has_column at 1, gets at 1.
  destruct (frame_has (st_df st) col) eqn:Hcol; simpl.
  - destruct (frame_items_has _ _ Hcol) as [items Hitems].
    rewrite bind_run. unfold df_items at 1. rewrite Hitems.
    rewrite <-(frame_items_length _ _ _ Hitems). by apply steps_for_each.
  - apply steps_ret.
Qed.

Lemma steps_int_range_row col lo hi row b st :
  steps 1 b st (int_range_row col lo hi row b st).
Proof.
  destruct row as [idx val]. unfold int_range_row.
  destruct (is_empty val); [apply steps_ret|].
  destruct (to_int_returns val) as (ok & n & ->).
  unfold mbind at 1, StE_bind at 1, lift.
  destruct (out_of_range lo hi ok n); [apply steps_flag|apply steps_ret].
Qed.

Lemma steps_market_approach_row row b st :
  steps 1 b st (market_approach_row row b st).
Proof.
  destruct row as [idx val]. unfold market_approach_row.
  destruct (is_empty val); [apply steps_ret|].
  destruct (to_float_returns val) as (ok & x & ->).
  unfold mbind at 1, StE_bind at 1, lift.
  unfold mbind at 1, StE_bind at 1.
  destruct (approach_not_allowed ok x) as [[|]|e]; [apply steps_flag|apply steps_ret|done].
Qed.

Lemma steps_market_approach_value_row row b st :
  steps 1 b st (market_approach_value_row row b st).
Proof.
  destruct row as [idx val]. unfold market_approach_value_row.
  rewrite bind_run.
  assert (∃ r, read_approach_raw idx st = (r, st)) as [r ->].
  { unfold read_approach_raw, has_column, gets, df_at, mbind, StE_bind.
    destruct (frame_has _ _); simpl; eauto. }
  destruct r as [approach_raw|e]; [|done].
  assert (steps 1 b st
    (('(ok, fval) ← lift (to_float val);
      if negb ok || bool_decide (fval = None) then
        flag idx "market_approach_value" "Must be a number when approach is 1 or 2";;
        mret (S b)
      else mret b) st)) as Hcheck.
  { destruct (to_float_returns val) as (ok & x & ->).
    unfold mbind at 1, StE_bind at 1, lift.
    destruct (negb ok || bool_decide (x = None)); [apply steps_flag|apply steps_ret]. }
  repeat case_match; first [exact Hcheck | apply steps_ret].
Qed.

Lemma steps_production_capacity_row row b st :
  steps 1 b st (production_capacity_row row b st).
Proof.
  destruct row as [idx val]. unfold production_capacity_row.
  destruct (is_empty val); [apply steps_ret|].
  destruct (to_float_returns val) as (ok & x & ->).
  unfold mbind at 1, StE_bind at 1, lift.
  destruct (negative_or_invalid ok x); [apply steps_flag|apply steps_ret].
Qed.

Lemma steps_range_rules st :
  steps (5 * length (rows (st_df st))) 0 st (range_rules st).
Proof.
  unfold range_rules. set (k := length (rows (st_df st))).
  rewrite bind_run.
  pose proof (steps_check_column "asset_usage_id"
    (int_range_row "asset_usage_id" ASSET_USAGE_MIN ASSET_USAGE_MAX) 0%nat st
    (steps_int_range_row _ _ _)) as H1.
  destruct (check_column "asset_usage_id" _ _ st) as [[b1|e] st1]; [|done].
  pose proof H1 as (_ & Hn1 & _). rewrite bind_run.
  pose proof (steps_check_column "value_base"
    (int_range_row "value_base" VALUE_BASE_MIN VALUE_BASE_MAX) b1 st1
    (steps_int_range_row _ _ _)) as H2.
  rewrite Hn1 in H2. pose proof (steps_trans _ _ _ _ _ _ _ H1 H2) as H12.
  destruct (check_column "value_base" _ _ st1) as [[b2|e] st2]; [|done].
  pose proof H12 as (_ & Hn2 & _). rewrite bind_run.
  pose proof (steps_check_column "market_approach" market_approach_row b2 st2
    steps_market_approach_row) as H3.
  rewrite Hn2 in H3. pose proof (steps_trans _ _ _ _ _ _ _ H12 H3) as H123.
  destruct (check_column "market_approach" _ _ st2) as [[b3|e] st3]; [|done].
  pose proof H123 as (_ & Hn3 & _). rewrite bind_run.
  pose proof (steps_check_column "market_approach_value" market_approach_value_row
    b3 st3 steps_market_approach_value_row) as H4.
  rewrite Hn3 in H4. pose proof (steps_trans _ _ _ _ _ _ _ H123 H4) as H1234.
  destruct (check_column "market_approach_value" _ _ st3) as [[b4|e] st4]; [|done].
  pose proof H1234 as (_ & Hn4 & _).
  pose proof (steps_check_column "production_capacity" production_capacity_row
    b4 st4 steps_production_capacity_row) as H5.
  rewrite Hn4 in H5. pose proof (steps_trans _ _ _ _ _ _ _ H1234 H5) as Hall.
  fold k in Hall. replace (k + k + k + k + k)%nat with (5 * k)%nat in Hall by lia.
  done.
Qed.

End range_counts.

Section on_any_heap.
Context {pandas : Pandas}.
Implicit Types (h : heap) (t : DataFrame) (p : profile).

Lemma lookup_last h t : (h ++ [t]) !! length h = Some t.
Proof. by rewrite lookup_app_r, Nat.sub_diag. Qed.

Lemma single_on_heap (rule : V (list string)) h df t :
  h !! df = Some t →
  (df ← df_copy df;
   '(summary, highlights) ← on_frame df ∅ rule;
   mret (df, highlights, summary)) h
  = match rule {| st_df := t; st_hl := ∅ |} with
    | (Ok summary, st) => (Ok (length h, st_hl st, summary), h ++ [st_df st])
    | (Raise e, st) => (Raise e, h ++ [st_df st])
    end.
Proof.
  intros Hdf. unfold mbind, StE_bind, df_copy, on_frame. rewrite Hdf, lookup_last.
  destruct (rule _) as [[summary|e] st]; simpl; by rewrite insert_last.
Qed.

(** The heap a validator leaves extends the one it found. *)
Lemma validate_on_heap p h df t :
  h !! df = Some t →
  ∃ new, (validate p df h).2 = h ++ new ∧
         read_back (validate p df h) = profile_result p t.
Proof.
  intros Hdf. destruct p; simpl.
  - remember (validate_final_value_only df h) as r eqn:Hr.
    unfold validate_final_value_only in Hr. rewrite (single_on_heap _ h df t Hdf) in Hr.
    unfold run_rule. destruct (final_value_rule _) as [[s|e] st]; subst r; simpl;
      eexists; split; try done. by rewrite lookup_last.
  - remember (validate_mandatory_only df h) as r eqn:Hr.
    unfold validate_mandatory_only in Hr. rewrite (single_on_heap _ h df t Hdf) in Hr.
    unfold run_rule. destruct (mandatory_rule _) as [[s|e] st]; subst r; simpl;
      eexists; split; try done. by rewrite lookup_last.
  - remember (validate_dates_only df h) as r eqn:Hr.
    unfold validate_dates_only in Hr. rewrite (single_on_heap _ h df t Hdf) in Hr.
    unfold run_rule. destruct (dates_rule _) as [[s|e] st]; subst r; simpl;
      eexists; split; try done. by rewrite lookup_last.
  - remember (validate_all df h) as r eqn:Hr.
    unfold validate_all, all_result in *. rewrite bind_run in Hr.
    unfold df_copy at 1 in Hr. rewrite Hdf in Hr. rewrite bind_run in Hr.
    unfold validate_mandatory_only in Hr.
    rewrite (single_on_heap _ (h ++ [t]) (length h) t (lookup_last h t)) in Hr.
    destruct (mandatory_rule _) as [[s1|e] st1]; simpl in *.
    2:{ subst r. exists [t; st_df st1]. split; [by rewrite <-app_assoc|done]. }
    rewrite bind_run in Hr. unfold validate_final_value_only in Hr.
    rewrite (single_on_heap _ ((h ++ [t]) ++ [st_df st1]) _ (st_df st1)
               (lookup_last _ _)) in Hr.
    destruct (final_value_rule _) as [[s2|e] st2]; simpl in *.
    2:{ subst r. exists [t; st_df st1; st_df st2].
        split; [by rewrite <-!app_assoc|done]. }
    rewrite bind_run in Hr. unfold validate_dates_only in Hr.
    rewrite (single_on_heap _ (((h ++ [t]) ++ [st_df st1]) ++ [st_df st2]) _
               (st_df st2) (lookup_last _ _)) in Hr.
    destruct (dates_rule _) as [[s3|e] st3]; simpl in *.
    2:{ subst r. exists [t; st_df st1; st_df st2; st_df st3].
        split; [by rewrite <-!app_assoc|done]. }
    rewrite bind_run in Hr. unfold on_frame at 1 in Hr. rewrite lookup_last in Hr.
    destruct (range_rules _) as [[extra|e] st]; simpl in *;
      rewrite insert_last in Hr; subst r; simpl.
    + exists [t; st_df st1; st_df st2; st_df st]. split; [by rewrite <-!app_assoc|].
      by rewrite lookup_last.
    + exists [t; st_df st1; st_df st2; st_df st]. split; [by rewrite <-!app_assoc|done].
Qed.

Lemma run_profile_result p t : run p t = profile_result p t.
Proof.
  destruct (validate_on_heap p [t] 0%nat t eq_refl) as (new & _ & <-). done.
Qed.

End on_any_heap.

Section banner.
Context {pandas : Pandas}.
Implicit Types (h : heap) (t : DataFrame) (p : profile).

Lemma sum_issues_line label n rest acc :
  occurs ":" label = false → Z.of_nat n < 10 ^ 4300 →
  sum_issues ((label +:+ String ":" (String " " (pretty n))) :: rest) acc
  = sum_issues rest (if bool_decide (label ∈ COUNTED_LABELS)
                     then acc + Z.of_nat n else acc).
Proof.
  intros Hlabel Hn. cbn [sum_issues].
  destruct (pretty_N_go_digits (N.of_nat n)) as [Hd _].
  assert (all_chars Str.isdigit (pretty n) = true) as Hdigits.
  { unfold pretty, pretty_nat, pretty, pretty_N. by case_decide. }
  assert (occurs ":" (String " " (pretty n)) = false) as Hrest.
  { simpl. by apply digits_no_colon. }
  rewrite (contains_occurs ":"), occurs_app, Hlabel. simpl.
  rewrite split_on_app, split_on_none by done. simpl.
  case_bool_decide; [|done].
  change (Str.strip (String " " (pretty n))) with (Str.strip (pretty n)).
  rewrite digits_strip, int_of_str_pretty by done. done.
Qed.

Lemma sum_issues_skip s rest acc :
  occurs ":" s = false → sum_issues (s :: rest) acc = sum_issues rest acc.
Proof. intros Hs. cbn [sum_issues]. by rewrite (contains_occurs ":"), Hs. Qed.

Lemma sum_final n rest acc :
  Z.of_nat n < 10 ^ 4300 →
  sum_issues (("Final Value issues: " +:+ pretty n) :: rest) acc
  = sum_issues rest (acc + Z.of_nat n).
Proof. intros Hn. exact (sum_issues_line "Final Value issues" n rest acc eq_refl Hn). Qed.

Lemma sum_mandatory n rest acc :
  Z.of_nat n < 10 ^ 4300 →
  sum_issues (("Missing mandatory values: " +:+ pretty n) :: rest) acc
  = sum_issues rest (acc + Z.of_nat n).
Proof.
  intros Hn. exact (sum_issues_line "Missing mandatory values" n rest acc eq_refl Hn).
Qed.

Lemma sum_invalid n rest acc :
  Z.of_nat n < 10 ^ 4300 →
  sum_issues (("Invalid dates: " +:+ pretty n) :: rest) acc
  = sum_issues rest (acc + Z.of_nat n).
Proof. intros Hn. exact (sum_issues_line "Invalid dates" n rest acc eq_refl Hn). Qed.

Lemma sum_extra n rest acc :
  Z.of_nat n < 10 ^ 4300 →
  sum_issues (("Additional rule violations: " +:+ pretty n) :: rest) acc
  = sum_issues rest (acc + Z.of_nat n).
Proof.
  intros Hn. exact (sum_issues_line "Additional rule violations" n rest acc eq_refl Hn).
Qed.

Lemma sum_auto_fixed n rest acc :
  Z.of_nat n < 10 ^ 4300 →
  sum_issues (("Dates auto-formatted: " +:+ pretty n) :: rest) acc
  = sum_issues rest acc.
Proof. intros Hn. exact (sum_issues_line "Dates auto-formatted" n rest acc eq_refl Hn). Qed.

(** A count of a sheet of at most 2^20 rows has fewer than 4300 digits. *)
Lemma count_digits n rows :
  (n ≤ 15 * rows)%nat → Z.of_nat rows ≤ 1048576 → Z.of_nat n < 10 ^ 4300.
Proof.
  intros Hn Hrows. apply Z.le_lt_trans with (15 * 1048576); [lia|]. by vm_compute.
Qed.

(** The lines of the date rule count for the invalid dates only. *)
Lemma sum_dates present invalid auto_fixed rest acc :
  Z.of_nat invalid < 10 ^ 4300 → Z.of_nat auto_fixed < 10 ^ 4300 →
  sum_issues
    (((if present : bool then [] else ["Column 'inspection_date' is missing"])
      ++ ("Invalid dates: " +:+ pretty invalid)
         :: (if bool_decide (auto_fixed ≠ 0%nat)
             then ["Dates auto-formatted: " +:+ pretty auto_fixed] else []))
     ++ rest) acc
  = sum_issues rest (acc + Z.of_nat invalid).
Proof.
  intros Hi Ha. destruct present; cbn [app]; rewrite ?sum_issues_skip by done;
    rewrite sum_invalid by done; case_bool_decide; cbn [app];
    by rewrite ?sum_auto_fixed by done.
Qed.

Lemma size_zero (hl : gmap (nat * string) PatternFill) : Z.of_nat (size hl) = 0 ↔ hl = ∅.
Proof. rewrite <-map_size_empty_iff. lia. Qed.

Lemma union_empty (a b : gmap (nat * string) PatternFill) :
  a ∪ b = ∅ ↔ a = ∅ ∧ b = ∅.
Proof.
  rewrite <-!dom_empty_iff_L, dom_union_L. apply empty_union_L.
Qed.

(** The total [main] computes from the summary of a single-rule
    profile is the number of highlights. *)
Lemma total_issues_single p t out hl summary :
  p ≠ all →
  Z.of_nat (length (rows t)) ≤ 1048576 →
  profile_result p t = Ok (out, hl, summary) →
  total_issues summary = Ok (Z.of_nat (size hl)).
Proof.
  intros Hp Hrows. unfold total_issues. destruct p; [| | |done]; simpl; unfold run_rule.
  - destruct (final_value_rule_result t) as (st & -> & Hle & _).
    intros [= <- <- <-]. by rewrite sum_final by (eapply count_digits; [|done]; lia).
  - destruct (mandatory_rule_result t) as (st & -> & Hdone).
    pose proof (done_bound _ _ _ _ Hdone) as Hle. simpl in Hle.
    intros [= <- <- <-]. by rewrite sum_mandatory by (eapply count_digits; [|done]; lia).
  - destruct (dates_rule_result t) as (st & auto_fixed & -> & Hsum & _).
    intros [= <- <- <-].
    assert (size (st_hl st) + auto_fixed ≤ length (rows t))%nat as Hle
      by (destruct (frame_has t _); lia).
    rewrite <-(app_nil_r (_ ++ _ :: _)).
    by rewrite sum_dates by (eapply count_digits; [|done]; lia).
Qed.

(** The total [main] computes from the summary of a profile is zero
    exactly when the profile returned no highlight. *)
Lemma total_issues_profile p t out hl summary :
  Z.of_nat (length (rows t)) ≤ 1048576 →
  profile_result p t = Ok (out, hl, summary) →
  ∃ n, total_issues summary = Ok n ∧ (n = 0 ↔ hl = ∅).
Proof.
  intros Hrows. assert (p = all ∨ p ≠ all) as [->|Hp] by (destruct p; auto).
  2:{ intros Hrun. rewrite (total_issues_single p t out hl summary Hp Hrows Hrun).
      eexists. split; [done|]. apply size_zero. }
  unfold total_issues. simpl.
  - unfold all_result.
    destruct (mandatory_rule_result t) as (st1 & -> & Hdone).
    pose proof (done_bound _ _ _ _ Hdone) as Hle1. simpl in Hle1.
    pose proof (done_nrows _ _ _ _ Hdone) as Hn1. simpl.
    destruct (final_value_rule_result (st_df st1)) as (st2 & -> & Hle2 & _ & _ & _ & Hn2 & _).
    simpl.
    destruct (dates_rule_result (st_df st2))
      as (st3 & auto_fixed & -> & Hsum & _ & _ & _ & Hn3 & _).
    simpl.
    assert (size (st_hl st3) + auto_fixed ≤ length (rows t))%nat as Hle3.
    { destruct (frame_has (st_df st2) _); lia. }
    set (hl0 := update (update (update ∅ (st_hl st1)) (st_hl st2)) (st_hl st3)).
    pose proof (steps_range_rules {| st_df := st_df st3; st_hl := hl0 |}) as Hsteps.
    destruct (range_rules _) as [[extra|e] st]; [|done]. simpl.
    intros [= <- <- <-].
    destruct Hsteps as (Hextra & _ & Hsame & Hnew & Hmono).
    simpl in Hextra, Hsame, Hnew, Hmono. cbn [app].
    rewrite sum_mandatory by (eapply count_digits; [|done]; lia).
    rewrite sum_final by (eapply count_digits; [|done]; lia).
    rewrite sum_dates by (eapply count_digits; [|done]; lia).
    rewrite sum_extra by (eapply count_digits; [|done]; lia).
    eexists. split; [done|].
    assert (hl0 = ∅ ↔ st_hl st1 = ∅ ∧ st_hl st2 = ∅ ∧ st_hl st3 = ∅) as Hhl0.
    { unfold hl0, update. rewrite (right_id_L ∅ (∪)). split.
      - intros [H3 [H2 H1]%union_empty]%union_empty; done.
      - intros (-> & -> & ->). by rewrite !(left_id_L ∅ (∪)). }
    split.
    + intros Hzero.
      assert (st_hl st1 = ∅ ∧ st_hl st2 = ∅ ∧ st_hl st3 = ∅) as Hempty.
      { rewrite <-!size_zero. lia. }
      rewrite Hsame by lia. by apply Hhl0.
    + intros Hempty. destruct (proj1 Hhl0 (Hmono Hempty)) as (H1 & H2 & H3).
      apply size_zero in H1, H2, H3.
      assert (extra = 0%nat) as ->; [|lia].
      destruct extra; [done|]. exfalso. apply Hnew; [lia|done].
Qed.

End banner.

Section dashboard.
Context {pandas : Pandas}.
Implicit Types (h : heap) (t : DataFrame) (p : profile).

Lemma check_missing_columns_nil t :
  check_missing_columns t = [] ↔ EXPECTED_COLUMNS ⊆ columns t.
Proof.
  unfold check_missing_columns. split.
  - intros Hnil c Hc. destruct (decide (c ∈ columns t)) as [|Hnot]; [done|].
    assert (c ∈ filter (λ c, c ∉ columns t) EXPECTED_COLUMNS) as Hin
      by (by apply list_elem_of_filter).
    rewrite Hnil in Hin. by apply elem_of_nil in Hin.
  - intros Hsub. destruct (filter _ _) as [|c l] eqn:Hf; [done|].
    assert (c ∈ filter (λ c, c ∉ columns t) EXPECTED_COLUMNS) as Hin
      by (rewrite Hf; by left).
    apply list_elem_of_filter in Hin as [Hnot Hc]. by apply Hsub in Hc.
Qed.

(** X12. For a single-rule profile on a sheet of at most 2^20 rows
    (the limit of a worksheet), the total [main] reads back from the
    summary lines is the number of highlighted cells: every count the
    validator printed is parsed again as that count, and the lines on
    reformatted dates and on a missing column are not counted. *)
Theorem total_issues_counts_highlights p t out highlights summary :
  p ≠ all →
  Z.of_nat (length (rows t)) ≤ 1048576 →
  run p t = Ok (out, highlights, summary) →
  total_issues summary = Ok (Z.of_nat (size highlights)).
Proof.
  intros Hp Hrows Hrun. rewrite run_profile_result in Hrun.
  by eapply total_issues_single.
Qed.

(** X13. What [main] shows for an uploaded sheet of at most 2^20 rows.
    When an expected column is missing it stops with the error and
    runs no validator. Otherwise it runs the validator of the pressed
    button on a copy of the frame and shows its summary; "No issues
    found" appears exactly when the validator returned no highlight;
    [main] ends with an exception only under "Check All" on a table
    with a [market_approach] cell that reads as an infinite or NaN
    float. The uploaded frame is never changed. *)
Theorem main_page buttons t :
  Z.of_nat (length (rows t)) ≤ 1048576 →
  let '(r, h) := main buttons 0%nat [t] in
  h !! 0%nat = Some t ∧
  match r with
  | Ok (missing_columns_error message) =>
      ∃ c, c ∈ EXPECTED_COLUMNS ∧ c ∉ columns t
  | Ok choose_a_check =>
      EXPECTED_COLUMNS ⊆ columns t ∧ selected buttons = None
  | Ok (validation_results summary no_issues_found out highlights) =>
      EXPECTED_COLUMNS ⊆ columns t ∧
      ∃ p, selected buttons = Some p ∧
           run p t = Ok (out, highlights, summary) ∧
           (no_issues_found = true ↔ highlights = ∅)
  | Raise e =>
      EXPECTED_COLUMNS ⊆ columns t ∧
      selected buttons = Some all ∧ has_non_finite_approach t
  end.
Proof.
  intros Hrows. unfold main. rewrite bind_run. unfold frame_of at 1. simpl.
  case_bool_decide as Hmissing.
  { split; [done|]. destruct (check_missing_columns t) as [|c l] eqn:Hf; [done|].
    exists c. assert (c ∈ check_missing_columns t) as Hin by (rewrite Hf; by left).
    apply list_elem_of_filter in Hin as [??]. done. }
  assert (EXPECTED_COLUMNS ⊆ columns t) as Hsub.
  { apply check_missing_columns_nil. by destruct (check_missing_columns t). }
  rewrite bind_run. unfold df_copy at 1. simpl.
  destruct (selected buttons) as [p|] eqn:Hsel; [|done].
  rewrite bind_run. unfold df_copy at 1. simpl. rewrite bind_run.
  destruct (validate_on_heap p [t; t; t] 2%nat t eq_refl) as (new & Hheap & Hback).
  pose proof (validate_spec p [t; t; t] 2%nat t eq_refl _ eq_refl) as Hspec.
  rewrite <-run_profile_result in Hback.
  destruct (validate p 2%nat [t; t; t]) as [[[[df' hl] s]|e] h']; simpl in Hheap, Hback.
  - apply allocated_lookup in Hspec as (others & out & _ & _ & Hout & _).
    rewrite Hout in Hback.
    destruct (total_issues_profile p t out hl s Hrows) as (n & Hn & Hzero).
    { by rewrite <-run_profile_result. }
    rewrite bind_run. unfold lift at 1. rewrite Hn.
    rewrite bind_run. unfold frame_of at 1. rewrite Hout. simpl.
    split; [by rewrite Hheap|]. split; [done|]. exists p. split_and!; [done..|].
    rewrite <-Hzero. apply Z.eqb_eq.
  - destruct Hspec as (-> & _ & Hbad). split; [by rewrite Hheap|done].
Qed.

End dashboard.

Lemma total_issues_counts_highlights_witness :
  total_issues ["Missing mandatory values: 1"] = Ok 1.
Proof.
  assert (mandatory_only ≠ all) as Hp by discriminate.
  assert (Z.of_nat (length (rows Examples.empty_final_value)) ≤ 1048576) as Hrows
    by (vm_compute; discriminate).
  assert (Examples.check mandatory_only Examples.empty_final_value =
    Ok (Examples.table [Examples.valid_row;
          <["final_value" := VStr "This mandatory field is empty"]> Examples.valid_row],
        {[ (1%nat, "final_value") := FILL_YELLOW ]},
        ["Missing mandatory values: 1"])) as Hrun by (vm_compute; reflexivity).
  exact (total_issues_counts_highlights (pandas := ExampleDates.pandas)
           mandatory_only Examples.empty_final_value _ _ _ Hp Hrows Hrun).
Defined.

Lemma main_page_witness :
  let '(r, h) := main (pandas := ExampleDates.pandas)
                   {| do_final := false; do_mand := false; do_date := false;
                      do_all := true |} 0%nat [Examples.empty_final_value] in
  h !! 0%nat = Some Examples.empty_final_value ∧
  match r with
  | Ok (missing_columns_error message) =>
      ∃ c, c ∈ EXPECTED_COLUMNS ∧ c ∉ columns Examples.empty_final_value
  | Ok choose_a_check =>
      EXPECTED_COLUMNS ⊆ columns Examples.empty_final_value ∧
      selected {| do_final := false; do_mand := false; do_date := false;
                  do_all := true |} = None
  | Ok (validation_results summary no_issues_found out highlights) =>
      EXPECTED_COLUMNS ⊆ columns Examples.empty_final_value ∧
      ∃ p, selected {| do_final := false; do_mand := false; do_date := false;
                       do_all := true |} = Some p ∧
           run (pandas := ExampleDates.pandas) p Examples.empty_final_value
             = Ok (out, highlights, summary) ∧
           (no_issues_found = true ↔ highlights = ∅)
  | Raise e =>
      EXPECTED_COLUMNS ⊆ columns Examples.empty_final_value ∧
      selected {| do_final := false; do_mand := false; do_date := false;
                  do_all := true |} = Some all ∧
      has_non_finite_approach Examples.empty_final_value
  end.
Proof.
  apply (main_page (pandas := ExampleDates.pandas)
           {| do_final := false; do_mand := false; do_date := false; do_all := true |}
           Examples.empty_final_value).
  vm_compute. discriminate.
Defined.
